(** * Mapbox vector style set: a shallow embedding of MapboxVectorStyleSetC.cpp

    The development follows the C++ translation unit function by function:
    text templates ([MapboxRegexField]), zoom stop functions
    ([MaplyVectorFunctionStops]), the colour parser ([parseColor]), the
    property value resolvers ([transDouble], [transColor]) and the layer
    index of [MapboxVectorStyleSetImpl].

    C++ [double] is IEEE binary64 and is modelled by Rocq's primitive
    floats; [std::string] is [string]; the hash maps of the style set are
    [gmap]s; warnings sent to [wkLogLevel] and exceptions thrown by the
    standard library's numeric conversions are made explicit in a small
    monad. *)

From Stdlib Require Import ZArith String Ascii List Bool Lia Floats.
From stdpp Require Import gmap strings.

#[local] Set Warnings "-register-all".
#[local] Open Scope string_scope.
#[local] Open Scope Z_scope.

(** ** Characters and strings *)

Definition char_code (c : ascii) : Z := Z.of_N (N_of_ascii c).

(** [std::isspace] in the "C" locale: space, and \t \n \v \f \r. *)
Definition isspace (c : ascii) : bool :=
  (char_code c =? 32) || ((9 <=? char_code c) && (char_code c <=? 13)).

Definition isdigit (c : ascii) : bool :=
  (48 <=? char_code c) && (char_code c <=? 57).

Definition isalpha (c : ascii) : bool :=
  ((65 <=? char_code c) && (char_code c <=? 90))
  || ((97 <=? char_code c) && (char_code c <=? 122)).

(** The regex class [\w]: letters, digits and the underscore. *)
Definition is_word (c : ascii) : bool :=
  isalpha c || isdigit c || (char_code c =? 95).

Definition str_empty (s : string) : bool :=
  match s with EmptyString => true | String _ _ => false end.

Definition push_back (s : string) (c : ascii) : string :=
  s +:+ String c EmptyString.

Fixpoint string_forallb (p : ascii -> bool) (s : string) : bool :=
  match s with
  | EmptyString => true
  | String c s' => p c && string_forallb p s'
  end.

(** [s.find(prefix) == 0] *)
Definition starts_with (pre s : string) : bool := String.prefix pre s.

(** [std::string(s.begin()+n, s.end())] *)
Fixpoint string_drop (n : nat) (s : string) : string :=
  match n, s with
  | O, _ => s
  | S n', String _ s' => string_drop n' s'
  | S _, EmptyString => EmptyString
  end.

(** [s[index] = c] *)
Fixpoint string_set (index : nat) (c : ascii) (s : string) : string :=
  match s, index with
  | EmptyString, _ => EmptyString
  | String _ s', O => String c s'
  | String d s', S i => String d (string_set i c s')
  end.

(** *** [static void trim(std::string &s)] *)

Fixpoint drop_spaces (l : list ascii) : list ascii :=
  match l with
  | c :: l' => if isspace c then drop_spaces l' else l
  | [] => []
  end.

(** The first loop pops whitespace off the back of the string. *)
Definition trim_right (s : string) : string :=
  string_of_list_ascii
    (rev (drop_spaces (rev (list_ascii_of_string s)))).

(** The second loop looks for the first character that is not whitespace
    and erases what precedes it; when there is none nothing is erased. *)
Fixpoint first_nonspace (s : string) : option string :=
  match s with
  | EmptyString => None
  | String c s' => if isspace c then first_nonspace s' else Some s
  end.

Definition trim_left (s : string) : string :=
  match first_nonspace s with
  | Some t => t
  | None => s
  end.

Definition trim (s : string) : string := trim_left (trim_right s).

(** *** [std::sregex_token_iterator] with submatch [-1]

    Both patterns of the file are a character class, once with [+]
    ([fieldSeparatorPattern], "[{}]+") and once without
    ([colorSeparatorPattern], "[(),]").  Iterating with submatch [-1]
    yields the text before each match (an empty text too), and the text
    after the last match only when it is not empty; when nothing matches
    the whole input is the single token.

    [tok] is the token being read, [inMatch] tells that the previous
    character belongs to a match that a [+] may extend, [matched] that
    there has been a match at all. *)
Fixpoint token_scan (delim : ascii -> bool) (plus : bool)
    (s tok : string) (inMatch matched : bool) : list string :=
  match s with
  | EmptyString =>
      if matched && str_empty tok then [] else [tok]
  | String c s' =>
      if delim c then
        if plus && inMatch
        then token_scan delim plus s' EmptyString true true
        else tok :: token_scan delim plus s' EmptyString true true
      else token_scan delim plus s' (push_back tok c) false matched
  end.

Definition regex_tokens (delim : ascii -> bool) (plus : bool) (s : string)
  : list string :=
  token_scan delim plus s EmptyString false false.

Definition is_brace (c : ascii) : bool :=
  Ascii.eqb c "{" || Ascii.eqb c "}".

Definition is_color_separator (c : ascii) : bool :=
  Ascii.eqb c "(" || Ascii.eqb c ")" || Ascii.eqb c ",".

(** [fieldSeparatorPattern] and [colorSeparatorPattern] as token splitters. *)
Definition fieldSeparatorPattern_tokens : string -> list string :=
  regex_tokens is_brace true.

Definition colorSeparatorPattern_tokens : string -> list string :=
  regex_tokens is_color_separator false.

(** [std::regex_search(s, match, colonPattern)] for ":\\w+$": the offset of
    the leftmost colon that is followed, up to the end of the string, by one
    or more word characters. *)
Definition word_plus_end (s : string) : bool :=
  negb (str_empty s) && string_forallb is_word s.

Fixpoint colonPattern_search (s : string) : option nat :=
  match s with
  | EmptyString => None
  | String c s' =>
      if Ascii.eqb c ":" && word_plus_end s' then Some O
      else option_map S (colonPattern_search s')
  end.

(** ** Doubles *)

Definition INT_MAX : Z := 2 ^ 31 - 1.
Definition INT_MIN : Z := - 2 ^ 31.

(** The integer part of a double, towards zero; an infinity and NaN have
    none. *)
Definition integer_part (d : float) : option Z :=
  match Prim2SF d with
  | S754_zero _ => Some 0
  | S754_finite s m e =>
      let v := Z.shiftl (Z.pos m) e in Some (if s then - v else v)
  | _ => None
  end.

(** A conversion of a double to an integer type is defined when the
    integer part is a value of the type. *)
Definition conversion_defined (lowest highest : Z) (d : float) : bool :=
  match integer_part d with
  | Some v => (lowest <=? v) && (v <=? highest)
  | None => false
  end.

(** [(int) d] for a double: the integer part.  Where the conversion is
    not defined (the integer part is no [int], or there is none) C++ leaves
    the behaviour open, and the value here is the one that the conversion
    instruction of x86-64 answers, [INT_MIN]; the theorems that go through
    a conversion say where they need it to be defined. *)
Definition double_to_int (d : float) : Z :=
  match integer_part d with
  | Some v => if (v <? INT_MIN) || (INT_MAX <? v) then INT_MIN else v
  | None => INT_MIN
  end.

(** An [int] converted to [double]. *)
Definition int_to_double (z : Z) : float :=
  SF2Prim (binary_normalize prec emax z 0 false).

(** ** Warnings and exceptions

    A computation may write to the log ([wkLogLevel]) and may end by an
    exception of the standard library instead of a value. *)

Inductive exception : Type :=
| invalid_argument (what : string)
| out_of_range (what : string).

Inductive WKLogLevel : Type := Verbose | Debug | Info | Warn | Error.

Definition M (A : Type) : Type := (list (WKLogLevel * string) * (exception + A))%type.

Definition ret {A : Type} (a : A) : M A := ([], inr a).

Definition throw {A : Type} (e : exception) : M A := ([], inl e).

Definition bind {A B : Type} (m : M A) (k : A -> M B) : M B :=
  match m with
  | (l, inl e) => (l, inl e)
  | (l, inr a) => let '(l', r) := k a in ((l ++ l')%list, r)
  end.

Definition wkLogLevel (lvl : WKLogLevel) (msg : string) : M unit :=
  ([(lvl, msg)], inr tt).

Notation "'do' x <- c ;; k" := (bind c (fun x => k))
  (at level 10, x name, c at level 99, k at level 200).
Notation "'run' c ;; k" := (bind c (fun _ => k))
  (at level 10, c at level 99, k at level 200).

(** How a computation ended: by an exception or with a value. *)
Definition outcome {A : Type} (m : M A) : exception + A := snd m.

(** ** Colours *)

(** Modelled from the spec: RGBAColor (WhirlyVector.h is not among the
    sources) is four 8-bit channels.  Its constructors take [int]s or
    [double]s and store them as [uint8_t]. *)
Record RGBAColor : Type := mkRGBAColor { r : Z; g : Z; b : Z; a : Z }.

Definition uint8 (z : Z) : Z := z mod 256.

(** [RGBAColor(int,int,int,int)] *)
Definition RGBAColor_ints (red green blue alpha : Z) : RGBAColor :=
  mkRGBAColor (uint8 red) (uint8 green) (uint8 blue) (uint8 alpha).

(** [RGBAColor(double,double,double,double)] *)
Definition RGBAColor_doubles (red green blue alpha : float) : RGBAColor :=
  RGBAColor_ints (double_to_int red) (double_to_int green)
    (double_to_int blue) (double_to_int alpha).

(** A colour reference ([RGBAColorRef], a shared pointer) may be null. *)
Definition RGBAColorRef : Type := option RGBAColor.

(** ** The attribute dictionary

    Modelled from the spec: Dictionary and DictionaryEntry (Dictionary.h is
    not among the sources) are the "generic typed attribute-dictionary
    abstraction (hasField, getString, getDouble, getArray, getEntry, typed
    enumeration of value kinds)".  Both are abstract classes in the
    repository; an object is modelled by what its methods answer. *)

Inductive DictionaryType : Type :=
| DictTypeNone | DictTypeString | DictTypeInt | DictTypeIdentity
| DictTypeDouble | DictTypeObject | DictTypeDictionary | DictTypeArray
| DictTypeInt64.

Definition DictionaryType_eqb (x y : DictionaryType) : bool :=
  match x, y with
  | DictTypeNone, DictTypeNone | DictTypeString, DictTypeString
  | DictTypeInt, DictTypeInt | DictTypeIdentity, DictTypeIdentity
  | DictTypeDouble, DictTypeDouble | DictTypeObject, DictTypeObject
  | DictTypeDictionary, DictTypeDictionary | DictTypeArray, DictTypeArray
  | DictTypeInt64, DictTypeInt64 => true
  | _, _ => false
  end.

Inductive DictionaryEntry : Type := mkDictionaryEntry {
  getType : DictionaryType;
  getInt : Z;
  getDouble : float;
  getString : string;
  getArray : list DictionaryEntry;
  getDict : Dictionary;
  getColor : RGBAColor }
with Dictionary : Type := mkDictionary {
  hasField : string -> bool;
  getEntry : string -> option DictionaryEntry;
  (** [dict->getString(name)] and the other lookups by field name *)
  getStringField : string -> string;
  getIntField : string -> Z;
  getDoubleField : string -> float -> float;
  getArrayField : string -> list DictionaryEntry }.

(** A dictionary reference ([DictionaryRef]) may be null, and so may an
    entry reference ([DictionaryEntryRef]). *)
Definition DictionaryRef : Type := option Dictionary.
Definition DictionaryEntryRef : Type := option DictionaryEntry.

(** *** Concrete dictionaries, to run the code on

    A dictionary held in a finite map, and entries of each kind.  Asking an
    entry for a kind it does not hold answers 0, the empty string, the empty
    array or the empty dictionary. *)

Definition emptyDictionary : Dictionary :=
  mkDictionary (fun _ => false) (fun _ => None) (fun _ => EmptyString)
    (fun _ => 0) (fun _ def => def) (fun _ => []).

Definition entryString (s : string) : DictionaryEntry :=
  mkDictionaryEntry DictTypeString 0 0%float s [] emptyDictionary
    (mkRGBAColor 0 0 0 0).

Definition entryInt (i : Z) : DictionaryEntry :=
  mkDictionaryEntry DictTypeInt i (int_to_double i) EmptyString []
    emptyDictionary (mkRGBAColor 0 0 0 0).

Definition entryDouble (d : float) : DictionaryEntry :=
  mkDictionaryEntry DictTypeDouble (double_to_int d) d EmptyString []
    emptyDictionary (mkRGBAColor 0 0 0 0).

Definition entryArray (l : list DictionaryEntry) : DictionaryEntry :=
  mkDictionaryEntry DictTypeArray 0 0%float EmptyString l emptyDictionary
    (mkRGBAColor 0 0 0 0).

Definition entryDict (d : Dictionary) : DictionaryEntry :=
  mkDictionaryEntry DictTypeDictionary 0 0%float EmptyString [] d
    (mkRGBAColor 0 0 0 0).

Definition dictOfMap (m : gmap string DictionaryEntry) : Dictionary :=
  mkDictionary
    (fun k => match m !! k with Some _ => true | None => false end)
    (fun k => m !! k)
    (fun k => match m !! k with Some e => getString e | None => EmptyString end)
    (fun k => match m !! k with Some e => getInt e | None => 0 end)
    (fun k def => match m !! k with Some e => getDouble e | None => def end)
    (fun k => match m !! k with Some e => getArray e | None => [] end).

(** ** Text templates: [MapboxRegexField] *)

Record MapboxTextChunk : Type := mkMapboxTextChunk {
  str : string;            (* a literal, or empty *)
  keys : list string }.    (* the keys to look up when [str] is empty *)

Record MapboxRegexField : Type := mkMapboxRegexField {
  chunks : list MapboxTextChunk;
  valid : bool }.

(** A default-constructed field. *)
Definition MapboxRegexField_new : MapboxRegexField :=
  mkMapboxRegexField [] false.

(** The body of the loop of [MapboxRegexField::parse] for a token that is
    not empty. *)
Definition parse_chunk (isJustText : bool) (regexChunk : string)
  : MapboxTextChunk :=
  if isJustText then mkMapboxTextChunk regexChunk []
  else
    match colonPattern_search regexChunk with
    | Some index =>
        mkMapboxTextChunk EmptyString
          [regexChunk; string_set index "_" regexChunk]
    | None => mkMapboxTextChunk EmptyString [regexChunk]
    end.

(** The loop over the tokens: an empty token is passed over without
    toggling [isJustText]. *)
Fixpoint parse_tokens (toks : list string) (isJustText : bool)
  : list MapboxTextChunk :=
  match toks with
  | [] => []
  | tok :: rest =>
      if (String.length tok =? 0)%nat then parse_tokens rest isJustText
      else parse_chunk isJustText tok :: parse_tokens rest (negb isJustText)
  end.

(** [textField[0]]: the first character, or the terminating NUL. *)
Definition first_char (s : string) : ascii :=
  match s with
  | EmptyString => Ascii.zero
  | String c _ => c
  end.

(** [bool MapboxRegexField::parse(const std::string &textField)]: the new
    chunks are added to those the field already has. *)
Definition MapboxRegexField_parse (f : MapboxRegexField) (textField : string)
  : bool * MapboxRegexField :=
  let isJustText := negb (Ascii.eqb (first_char textField) "{") in
  let new := parse_tokens (fieldSeparatorPattern_tokens textField) isJustText in
  (true, mkMapboxRegexField (chunks f ++ new)%list true).

(** The state of the loop of [MapboxRegexField::build]. *)
Record BuildState : Type := mkBuildState {
  text : string;
  found : bool;
  didLookup : bool;
  keyVal : string }.

(** The inner loop over the keys of a chunk; it stops ([break]) at the
    first key whose value is not empty. *)
Fixpoint build_keys (attrs : Dictionary) (ks : list string) (st : BuildState)
  : BuildState :=
  match ks with
  | [] => st
  | key :: ks' =>
      if hasField attrs key then
        let kv := getStringField attrs key in
        if negb (str_empty kv)
        then mkBuildState (text st +:+ kv) true true kv
        else build_keys attrs ks' (mkBuildState (text st) true true kv)
      else
        build_keys attrs ks'
          (mkBuildState (text st) (found st) true (keyVal st))
  end.

Definition build_chunk (attrs : Dictionary) (st : BuildState)
    (chunk : MapboxTextChunk) : BuildState :=
  if negb (str_empty (str chunk))
  then mkBuildState (text st +:+ str chunk) (found st) (didLookup st) (keyVal st)
  else build_keys attrs (keys chunk) st.

(** [std::string MapboxRegexField::build(const DictionaryRef &attrs) const] *)
Definition build (f : MapboxRegexField) (attrs : Dictionary) : string :=
  let st :=
    fold_left (build_chunk attrs) (chunks f)
      (mkBuildState EmptyString false false EmptyString) in
  if didLookup st && negb (found st) then EmptyString
  else trim (text st).


(** ** Numeric conversions of the C and C++ libraries *)

Definition hex_digit (c : ascii) : option Z :=
  let n := char_code c in
  if isdigit c then Some (n - 48)
  else if (97 <=? n) && (n <=? 102) then Some (n - 87)
  else if (65 <=? n) && (n <=? 70) then Some (n - 55)
  else None.

Definition dec_digit (c : ascii) : option Z :=
  if isdigit c then Some (char_code c - 48) else None.

(** Leading whitespace, with the number of characters passed. *)
Fixpoint skip_spaces (s : string) : nat * string :=
  match s with
  | String c s' =>
      if isspace c then let '(n, t) := skip_spaces s' in (S n, t) else (O, s)
  | EmptyString => (O, s)
  end.

(** An optional sign: whether it is a minus, and the characters passed. *)
Definition read_sign (s : string) : bool * nat * string :=
  match s with
  | String c s' =>
      if Ascii.eqb c "-" then (true, 1%nat, s')
      else if Ascii.eqb c "+" then (false, 1%nat, s')
      else (false, O, s)
  | EmptyString => (false, O, s)
  end.

(** The longest run of digits in the given radix: its value, its length
    and what follows it. *)
Fixpoint read_digits (digit : ascii -> option Z) (radix : Z) (s : string)
    (acc : Z) : Z * nat * string :=
  match s with
  | String c s' =>
      match digit c with
      | Some d =>
          let '(v, n, t) := read_digits digit radix s' (acc * radix + d) in
          (v, S n, t)
      | None => (acc, O, s)
      end
  | EmptyString => (acc, O, s)
  end.

(** Whether [s] starts with "0x" or "0X" followed by a hexadecimal digit. *)
Definition hex_prefix (s : string) : bool :=
  match s with
  | String c0 (String c1 (String c2 _)) =>
      Ascii.eqb c0 "0" && (Ascii.eqb c1 "x" || Ascii.eqb c1 "X")
      && match hex_digit c2 with Some _ => true | None => false end
  | _ => false
  end.

Definition ULONG_MAX : Z := 2 ^ 64 - 1.

(** [strtoul(nptr, &end, 16)]: the value as an [unsigned long] of 64 bits,
    and [end - nptr].  Without a digit nothing is converted and [end] is
    [nptr]. *)
Definition strtoul16 (nptr : string) : Z * nat :=
  let '(nws, s1) := skip_spaces nptr in
  let '(neg, nsign, s2) := read_sign s1 in
  let '(npre, s3) :=
    if hex_prefix s2 then (2%nat, string_drop 2 s2) else (O, s2) in
  let '(v, ndig, _) := read_digits hex_digit 16 s3 0 in
  match ndig with
  | O => (0, O)
  | _ =>
      let value :=
        if ULONG_MAX <? v then ULONG_MAX
        else if neg then (- v) mod 2 ^ 64 else v in
      (value, (nws + nsign + npre + ndig)%nat)
  end.

(** [std::stoi(str)]: [strtol] in base 10, [std::invalid_argument] when
    nothing was converted and [std::out_of_range] when the value is not an
    [int]. *)
Definition stoi (s : string) : M Z :=
  let '(_, s1) := skip_spaces s in
  let '(neg, _, s2) := read_sign s1 in
  let '(v, ndig, _) := read_digits dec_digit 10 s2 0 in
  match ndig with
  | O => throw (invalid_argument "stoi")
  | _ =>
      let value := if neg then - v else v in
      if (value <? INT_MIN) || (INT_MAX <? value)
      then throw (out_of_range "stoi")
      else ret value
  end.

(** The binary number of 53 bits and exponents up to [emax'] nearest to
    [n * 10^e10], for [n >= 0]. *)
Definition decimal_to_binary (emax' n e10 : Z) : spec_float :=
  match n with
  | Z.pos p =>
      if 0 <=? e10 then binary_normalize prec emax' (n * 10 ^ e10) 0 false
      else
        match 10 ^ (- e10) with
        | Z.pos q =>
            SFdiv prec emax' (S754_finite false p 0) (S754_finite false q 0)
        | _ => S754_zero false
        end
  | _ => S754_zero false
  end.

(** The double nearest to [n * 10^e10], for [n >= 0]. *)
Definition decimal_to_double (n e10 : Z) : float :=
  SF2Prim (decimal_to_binary emax n e10).

(** *** The range error of [strtod] on underflow

    [strtod] sets [ERANGE] when the value overflows and may set it when
    the value underflows, which C leaves to the implementation.  The rule
    here is that of the GNU C library: the value is not a double exactly,
    and rounded to 53 bits it is below the least normal double, [2^-1022].
    For that rounding the exponents go up to [wide_emax], far enough for
    a value near [2^-1022] to be rounded as a normal number. *)
Definition wide_emax : Z := 2 ^ 14.

Definition below_normal (x : spec_float) : bool :=
  match x with
  | S754_zero _ => true
  | S754_finite _ m e => Z.log2 (Z.pos m) + e <? -1022
  | _ => false
  end.

(** Whether the double [d] is [n * radix^k] exactly, for [n >= 0]. *)
Definition is_exactly (d : float) (n radix k : Z) : bool :=
  match Prim2SF d with
  | S754_zero _ => n =? 0
  | S754_finite false m e =>
      let '(num, den) :=
        if 0 <=? k then (n * radix ^ k, 1) else (n, radix ^ (- k)) in
      if 0 <=? e then Z.pos m * 2 ^ e * den =? num
      else Z.pos m * den =? num * 2 ^ (- e)
  | _ => false
  end.

(** [wide] is the value rounded with the wide exponent range and [d] the
    double that [strtod] answers. *)
Definition strtod_underflow (wide : spec_float) (d : float)
    (n radix k : Z) : bool :=
  below_normal wide && negb (is_exactly d n radix k).

(** An optional exponent part after the mantissa: marker, optional sign
    and at least one decimal digit. *)
Definition read_exponent (lower upper : ascii) (s : string) : Z :=
  match s with
  | String c s' =>
      if Ascii.eqb c lower || Ascii.eqb c upper then
        let '(neg, _, s2) := read_sign s' in
        let '(v, ndig, _) := read_digits dec_digit 10 s2 0 in
        match ndig with
        | O => 0
        | _ => if neg then - v else v
        end
      else 0
  | EmptyString => 0
  end.

(** Case-insensitive prefix test against a lower-case word. *)
Fixpoint starts_with_nocase (word s : string) : bool :=
  match word, s with
  | EmptyString, _ => true
  | String w word', String c s' =>
      let n := char_code c in
      let lc := if (65 <=? n) && (n <=? 90) then n + 32 else n in
      (lc =? char_code w) && starts_with_nocase word' s'
  | String _ _, EmptyString => false
  end.

(** The mantissa of a floating literal in the given radix: digits with an
    optional point; the value of all digits read as one integer, how many
    of them came after the point, whether there was any digit, and the
    rest of the text. *)
Definition read_mantissa (digit : ascii -> option Z) (radix : Z) (s : string)
  : Z * nat * bool * string :=
  let '(v1, n1, t1) := read_digits digit radix s 0 in
  match t1 with
  | String c t2 =>
      if Ascii.eqb c "." then
        let '(v2, n2, t3) := read_digits digit radix t2 v1 in
        match n1, n2 with
        | O, O => (0, O, false, s)
        | _, _ => (v2, n2, true, t3)
        end
      else (v1, O, negb (n1 =? 0)%nat, t1)
  | EmptyString => (v1, O, negb (n1 =? 0)%nat, t1)
  end.

(** [std::stod(str)]: [strtod], with [std::invalid_argument] when nothing
    was converted and [std::out_of_range] when [strtod] reports a range
    error: the value overflows, or it underflows.  The decimal and
    hexadecimal forms and the words "inf", "infinity" and "nan" are read;
    the result is the nearest double. *)
Definition stod (s : string) : M float :=
  let '(_, s1) := skip_spaces s in
  let '(neg, _, s2) := read_sign s1 in
  let signed (d : float) : float := if neg then (- d)%float else d in
  if starts_with_nocase "inf" s2 then ret (signed infinity)
  else if starts_with_nocase "nan" s2 then ret (signed nan)
  else if hex_prefix s2 || starts_with_nocase "0x." s2 then
    let '(n, nfrac, ok, rest) := read_mantissa hex_digit 16 (string_drop 2 s2) in
    if ok then
      let e2 := read_exponent "p" "P" rest - 4 * Z.of_nat nfrac in
      let d := SF2Prim (binary_normalize prec emax n e2 false) in
      if is_infinity d
         || strtod_underflow (binary_normalize prec wide_emax n e2 false)
              d n 2 e2
      then throw (out_of_range "stod") else ret (signed d)
    else ret (signed 0%float)
  else
    let '(n, nfrac, ok, rest) := read_mantissa dec_digit 10 s2 in
    if ok then
      let e10 := read_exponent "e" "E" rest - Z.of_nat nfrac in
      let d := decimal_to_double n e10 in
      if is_infinity d
         || strtod_underflow (decimal_to_binary wide_emax n e10) d n 10 e10
      then throw (out_of_range "stod") else ret (signed d)
    else throw (invalid_argument "stod").

(** ** The colour parser *)

(** Modelled from the spec: RGBAColor::withAlphaMultiply (not among the
    sources) "premultiplies the RGB channels by the resolved alpha
    (producing a premultiplied-alpha color)". *)
Definition withAlphaMultiply (c : RGBAColor) (alpha : float) : RGBAColor :=
  RGBAColor_doubles (int_to_double (r c) * alpha) (int_to_double (g c) * alpha)
    (int_to_double (b c) * alpha) (255 * alpha).

(** Modelled from the spec: RGBAColor::withAlpha (not among the sources)
    keeps the RGB channels and sets the alpha channel, "keeping alpha
    separate". *)
Definition withAlpha (c : RGBAColor) (alpha : float) : RGBAColor :=
  RGBAColor_doubles (int_to_double (r c)) (int_to_double (g c))
    (int_to_double (b c)) (255 * alpha).

(** Modelled from the spec: RGBAColor::FromHSL (not among the sources) is
    the "standard HSL->RGB conversion": hue in degrees, saturation and
    lightness in [0,1]. *)
Definition FromHSL (hue : Z) (sat light : float) : RGBAColor :=
  let h := hue mod 360 in
  let c := ((1 - abs (2 * light - 1)) * sat)%float in
  let x := (c * (1 - abs (int_to_double (h mod 120) / 60 - 1)))%float in
  let m := (light - c / 2)%float in
  let '(r1, g1, b1) :=
    if h <? 60 then (c, x, 0%float)
    else if h <? 120 then (x, c, 0%float)
    else if h <? 180 then (0%float, c, x)
    else if h <? 240 then (0%float, x, c)
    else if h <? 300 then (x, 0%float, c)
    else (c, 0%float, x) in
  RGBAColor_doubles ((r1 + m) * 255) ((g1 + m) * 255) ((b1 + m) * 255) 255.

(** [(float) v] for an [int], and the quotient of two [float]s: binary32
    arithmetic, the result held in a double. *)
Definition int_to_float (z : Z) : spec_float :=
  binary_normalize 24 128 z 0 false.

Definition float_div (x y : spec_float) : float :=
  SF2Prim (SFdiv 24 128 x y).

(** [(float) d] for a double. *)
Definition double_to_float (d : float) : float :=
  match Prim2SF d with
  | S754_finite s m e =>
      SF2Prim (binary_normalize 24 128 (if s then Z.neg m else Z.pos m) e s)
  | _ => d
  end.

Definition quote_in_color (what str inName : string) : string :=
  what +:+ " '" +:+ str +:+ "' in color '" +:+ inName +:+ "'".

Definition nth_tok (toks : list string) (i : nat) : string :=
  nth i toks EmptyString.

(** [static RGBAColorRef parseColor(const std::string &str,
      const std::string &inName, const RGBAColorRef &defVal,
      bool multiplyAlpha)] *)
Definition parseColor (str inName : string) (defVal : RGBAColorRef)
    (multiplyAlpha : bool) : M RGBAColorRef :=
  if str_empty str then
    run wkLogLevel Warn
          ("Expecting non-empty string for color (" +:+ inName +:+ ")") ;;
    ret defVal
  else if Ascii.eqb (first_char str) "#" then
    let '(ulVal, consumed) := strtoul16 (string_drop 1 str) in
    let iVal := ulVal mod 2 ^ 32 in
    if negb (S consumed =? String.length str)%nat then
      run wkLogLevel Warn (quote_in_color "Invalid hex value" str inName) ;;
      ret defVal
    else
      let size := String.length str in
      let dup (nibble : Z) : Z := uint8 (Z.lor nibble (Z.shiftl nibble 4)) in
      let channels : option (Z * Z * Z * Z) :=
        if (size =? 4)%nat then
          Some (dup (Z.land (Z.shiftr iVal 8) 15),
                dup (Z.land (Z.shiftr iVal 4) 15),
                dup (Z.land iVal 15), 255)
        else if (size =? 5)%nat then
          Some (dup (Z.land (Z.shiftr iVal 12) 15),
                dup (Z.land (Z.shiftr iVal 8) 15),
                dup (Z.land (Z.shiftr iVal 4) 15),
                dup (Z.land iVal 15))
        else if (size =? 7)%nat then
          Some (Z.land (Z.shiftr iVal 16) 255,
                Z.land (Z.shiftr iVal 8) 255,
                Z.land iVal 255, 255)
        else if (size =? 9)%nat then
          Some (Z.land (Z.shiftr iVal 24) 255,
                Z.land (Z.shiftr iVal 16) 255,
                Z.land (Z.shiftr iVal 8) 255,
                Z.land iVal 255)
        else None in
      match channels with
      | None =>
          run wkLogLevel Warn (quote_in_color "Unrecognized format" str inName) ;;
          ret defVal
      | Some (red, green, blue, alpha) =>
          if multiplyAlpha then
            ret (Some (withAlphaMultiply (RGBAColor_ints red green blue 255)
                         (int_to_double alpha / 255)))
          else ret (Some (RGBAColor_ints red green blue alpha))
      end
  else if starts_with "rgb(" str then
    let toks := colorSeparatorPattern_tokens (string_drop 4 str) in
    if negb (length toks =? 3)%nat then
      run wkLogLevel Warn (quote_in_color "Unrecognized format" str inName) ;;
      ret defVal
    else
      do red <- stoi (nth_tok toks 0) ;;
      do green <- stoi (nth_tok toks 1) ;;
      do blue <- stoi (nth_tok toks 2) ;;
      ret (Some (RGBAColor_ints red green blue 255))
  else if starts_with "rgba(" str then
    let toks := colorSeparatorPattern_tokens (string_drop 5 str) in
    if negb (length toks =? 4)%nat then
      run wkLogLevel Warn (quote_in_color "Unrecognized format" str inName) ;;
      ret defVal
    else
      do red <- stoi (nth_tok toks 0) ;;
      do green <- stoi (nth_tok toks 1) ;;
      do blue <- stoi (nth_tok toks 2) ;;
      do alpha <- stod (nth_tok toks 3) ;;
      if multiplyAlpha then
        ret (Some (RGBAColor_doubles (int_to_double red * alpha)
                     (int_to_double green * alpha)
                     (int_to_double blue * alpha) (255 * alpha)))
      else
        ret (Some (RGBAColor_ints red green blue (double_to_int (255 * alpha))))
  else if starts_with "hsl(" str then
    let toks := colorSeparatorPattern_tokens (string_drop 4 str) in
    if negb (length toks =? 3)%nat then
      run wkLogLevel Warn (quote_in_color "Unrecognized format" str inName) ;;
      ret defVal
    else
      do hue <- stoi (nth_tok toks 0) ;;
      do sat <- stoi (nth_tok toks 1) ;;
      do light <- stoi (nth_tok toks 2) ;;
      let newLight := float_div (int_to_float light) (int_to_float 100) in
      let newSat := float_div (int_to_float sat) (int_to_float 100) in
      ret (Some (FromHSL hue newSat newLight))
  else if starts_with "hsla(" str then
    let toks := colorSeparatorPattern_tokens (string_drop 5 str) in
    if negb (length toks =? 4)%nat then
      run wkLogLevel Warn (quote_in_color "Unrecognized format" str inName) ;;
      ret defVal
    else
      do hue <- stoi (nth_tok toks 0) ;;
      do sat <- stoi (nth_tok toks 1) ;;
      do light <- stoi (nth_tok toks 2) ;;
      do alpha0 <- stod (nth_tok toks 3) ;;
      let alpha := double_to_float alpha0 in
      let newLight := float_div (int_to_float light) (int_to_float 100) in
      let newSat := float_div (int_to_float sat) (int_to_float 100) in
      let c := FromHSL hue newSat newLight in
      ret (Some (if multiplyAlpha then withAlphaMultiply c alpha
                 else withAlpha c alpha))
  else
    run wkLogLevel Warn (quote_in_color "Unrecognized format" str inName) ;;
    ret defVal.

(** [RGBAColorRef MapboxVectorStyleSetImpl::colorValue(inName, val, dict,
      defVal, multiplyAlpha)]: the entry is looked up in [dict] when there
    is one, and is [val] otherwise. *)
Definition colorValue (inName : string) (val : DictionaryEntryRef)
    (dict : DictionaryRef) (defVal : RGBAColorRef) (multiplyAlpha : bool)
  : M RGBAColorRef :=
  let thing :=
    match dict with
    | Some d => getEntry d inName
    | None => val
    end in
  match thing with
  | None => ret defVal
  | Some e =>
      if negb (DictionaryType_eqb (getType e) DictTypeString) then
        run wkLogLevel Warn
              ("Expecting a string for color (" +:+ inName +:+ ")") ;;
        ret defVal
      else parseColor (getString e) inName defVal multiplyAlpha
  end.

(** ** Stop functions: [MaplyVectorFunctionStops] *)

Record MaplyVectorFunctionStop : Type := mkMaplyVectorFunctionStop {
  zoom : float;
  val : float;
  color : RGBAColorRef;
  textField : MapboxRegexField }.

(** [MaplyVectorFunctionStop::MaplyVectorFunctionStop()] *)
Definition MaplyVectorFunctionStop_new : MaplyVectorFunctionStop :=
  mkMaplyVectorFunctionStop (-1)%float 0%float None MapboxRegexField_new.

Record MaplyVectorFunctionStops : Type := mkMaplyVectorFunctionStops {
  stops : list MaplyVectorFunctionStop;
  base : float }.

Definition MaplyVectorFunctionStops_new : MaplyVectorFunctionStops :=
  mkMaplyVectorFunctionStops [] 1%float.

Definition isNumberType (t : DictionaryType) : bool :=
  DictionaryType_eqb t DictTypeDouble || DictionaryType_eqb t DictTypeInt.

(** The value of one stop, read from [stopEntries[1]] into [fStop]; [None]
    stands for the [return false] of the [default] case. *)
Definition parse_stop_value (isText : bool) (fStop : MaplyVectorFunctionStop)
    (e1 : DictionaryEntry) : M (option MaplyVectorFunctionStop) :=
  if isNumberType (getType e1) then
    ret (Some (mkMaplyVectorFunctionStop (zoom fStop) (getDouble e1)
                 (color fStop) (textField fStop)))
  else
    match getType e1 with
    | DictTypeString =>
        if isText then
          let '(_, tf) := MapboxRegexField_parse (textField fStop) (getString e1) in
          ret (Some (mkMaplyVectorFunctionStop (zoom fStop) (val fStop)
                       (color fStop) tf))
        else
          do c <- colorValue EmptyString (Some e1) None None false ;;
          ret (Some (mkMaplyVectorFunctionStop (zoom fStop) (val fStop)
                       c (textField fStop)))
    | DictTypeObject =>
        ret (Some (mkMaplyVectorFunctionStop (zoom fStop) (val fStop)
                     (Some (getColor e1)) (textField fStop)))
    | _ =>
        run wkLogLevel Warn
              "Expecting color compatible object in function stop." ;;
        ret None
    end.

(** The loop over [dataArray]; [acc] is the member [stops] as filled so
    far, which stays as it is when the function returns [false]. *)
Fixpoint parse_stops_loop (isText : bool) (dataArray : list DictionaryEntry)
    (acc : list MaplyVectorFunctionStop)
  : M (bool * list MaplyVectorFunctionStop) :=
  match dataArray with
  | [] => ret (true, acc)
  | stop :: rest =>
      if DictionaryType_eqb (getType stop) DictTypeArray then
        let stopEntries := getArray stop in
        match stopEntries with
        | [e0; e1] =>
            let fStop :=
              mkMaplyVectorFunctionStop (getDouble e0)
                (val MaplyVectorFunctionStop_new)
                (color MaplyVectorFunctionStop_new)
                (textField MaplyVectorFunctionStop_new) in
            do v <- parse_stop_value isText fStop e1 ;;
            match v with
            | Some fStop' => parse_stops_loop isText rest (acc ++ [fStop'])%list
            | None => ret (false, acc)
            end
        | _ =>
            run wkLogLevel Warn
                  "Expecting two arguments in each entry for a function stop." ;;
            ret (false, acc)
        end
      else
        run wkLogLevel Warn "Expecting arrays in the function stops." ;;
        ret (false, acc)
  end.

(** [bool MaplyVectorFunctionStops::parse(const DictionaryRef &entry,
      MapboxVectorStyleSetImpl *, bool isText)]: the result and the object
    after the call. *)
Definition MaplyVectorFunctionStops_parse (this : MaplyVectorFunctionStops)
    (entry : Dictionary) (isText : bool)
  : M (bool * MaplyVectorFunctionStops) :=
  let base' := getDoubleField entry "base" 1%float in
  let dataArray := getArrayField entry "stops" in
  if (length dataArray <? 2)%nat then
    run wkLogLevel Warn
          "Expecting at least two arguments for function stops." ;;
    ret (false, mkMaplyVectorFunctionStops (stops this) base')
  else
    do res <- parse_stops_loop isText dataArray (stops this) ;;
    ret (fst res, mkMaplyVectorFunctionStops (snd res) base').

Section StopEvaluation.

(** [pow] of the C library. *)
Variable pow : float -> float -> float.

(** The interpolation ratio between the stops [a] and [b]. *)
Definition stop_ratio (base z : float) (a b : MaplyVectorFunctionStop) : float :=
  if (base =? 1)%float then ((z - zoom a) / (zoom b - zoom a))%float
  else
    let soFar := (z - zoom a)%float in
    ((pow base soFar - 1) / (pow base (zoom b - zoom a) - 1))%float.

(** The [for] loop of [valueForZoom]: [a] and [b] are the two pointers,
    [rest] the stops from index [which] on. *)
Fixpoint valueForZoom_loop (base z : float) (a : MaplyVectorFunctionStop)
    (b : option MaplyVectorFunctionStop) (rest : list MaplyVectorFunctionStop)
  : float :=
  match rest with
  | [] => match b with Some b => val b | None => 0%float end
  | s :: rest' =>
      if ((zoom a <=? z) && (z <? zoom s))%float
      then (stop_ratio base z a s * (val s - val a) + val a)%float
      else valueForZoom_loop base z s (Some s) rest'
  end.

(** [double MaplyVectorFunctionStops::valueForZoom(double zoom)].  The
    function reads [stops[0]]: without a stop its behaviour is undefined
    ([None]). *)
Definition valueForZoom (f : MaplyVectorFunctionStops) (z : float)
  : option float :=
  match stops f with
  | [] => None
  | a :: rest =>
      if (z <=? zoom a)%float then Some (val a)
      else Some (valueForZoom_loop (base f) z a None rest)
  end.

End StopEvaluation.

Fixpoint textForZoom_loop (z : float) (a : MaplyVectorFunctionStop)
    (b : option MaplyVectorFunctionStop) (rest : list MaplyVectorFunctionStop)
  : MapboxRegexField :=
  match rest with
  | [] => match b with Some b => textField b | None => MapboxRegexField_new end
  | s :: rest' =>
      if ((zoom a <=? z) && (z <? zoom s))%float then textField a
      else textForZoom_loop z s (Some s) rest'
  end.

(** [MapboxRegexField MaplyVectorFunctionStops::textForZoom(double zoom)] *)
Definition textForZoom (f : MaplyVectorFunctionStops) (z : float)
  : option MapboxRegexField :=
  match stops f with
  | [] => None
  | a :: rest =>
      if (z <=? zoom a)%float then Some (textField a)
      else Some (textForZoom_loop z a None rest)
  end.

(** ** Property values: [MapboxTransDouble], [MapboxTransColor] *)

Definition MaplyVectorFunctionStopsRef : Type := option MaplyVectorFunctionStops.

Module MapboxTransDouble.
Record t : Type := mk {
  val : float;
  stops : MaplyVectorFunctionStopsRef }.

(** [MapboxTransDouble::MapboxTransDouble(double value)] *)
Definition ofValue (value : float) : t := mk value None.

(** [MapboxTransDouble::MapboxTransDouble(MaplyVectorFunctionStopsRef)] *)
Definition ofStops (inStops : MaplyVectorFunctionStopsRef) : t :=
  mk 0%float inStops.

(** [bool MapboxTransDouble::isExpression()] *)
Definition isExpression (d : t) : bool :=
  match stops d with Some _ => true | None => false end.
End MapboxTransDouble.

Module MapboxTransColor.
Record t : Type := mk {
  color : RGBAColorRef;
  useAlphaOverride : bool;
  alpha : float;
  stops : MaplyVectorFunctionStopsRef }.

(** [MapboxTransColor::MapboxTransColor(RGBAColorRef color)] *)
Definition ofColor (c : RGBAColorRef) : t := mk c false 1%float None.

(** [MapboxTransColor::MapboxTransColor(MaplyVectorFunctionStopsRef stops)] *)
Definition ofStops (s : MaplyVectorFunctionStopsRef) : t :=
  mk None false 1%float s.

(** [bool MapboxTransColor::isExpression() const] *)
Definition isExpression (c : t) : bool :=
  match stops c with Some _ => true | None => false end.
End MapboxTransColor.

Definition MapboxTransDoubleRef : Type := option MapboxTransDouble.t.
Definition MapboxTransColorRef : Type := option MapboxTransColor.t.

(** [MapboxTransDoubleRef MapboxVectorStyleSetImpl::transDouble(
      const DictionaryEntryRef &theEntry, double defVal)]; [name] is the
    member of the style set that the warnings quote.  The result of
    [stops->parse] is dropped, and what is tested is the pointer [stops],
    which [std::make_shared] never leaves null. *)
Definition transDouble (name : string) (theEntry : DictionaryEntryRef)
    (defVal : float) : M MapboxTransDoubleRef :=
  match theEntry with
  | None => ret (Some (MapboxTransDouble.ofValue defVal))
  | Some e =>
      if DictionaryType_eqb (getType e) DictTypeDictionary then
        do res <- MaplyVectorFunctionStops_parse MaplyVectorFunctionStops_new
                    (getDict e) false ;;
        let stops : MaplyVectorFunctionStopsRef := Some (snd res) in
        match stops with
        | Some _ => ret (Some (MapboxTransDouble.ofStops stops))
        | None =>
            run wkLogLevel Warn
                  ("Expecting key word 'stops' in entry " +:+ name) ;;
            ret None
        end
      else if isNumberType (getType e) then
        ret (Some (MapboxTransDouble.ofValue (getDouble e)))
      else
        run wkLogLevel Warn
              ("Unexpected type found in entry " +:+ name
               +:+ ". Was expecting a double.") ;;
        ret None
  end.

(** The overload that looks [valName] up in [entry]. *)
Definition transDouble_field (name valName : string) (entry : DictionaryRef)
    (defVal : float) : M MapboxTransDoubleRef :=
  transDouble name
    (match entry with Some d => getEntry d valName | None => None end) defVal.

(** [MapboxTransColorRef MapboxVectorStyleSetImpl::transColor(
      const std::string &valName, const DictionaryRef &entry,
      const RGBAColor *defVal)] *)
Definition transColor (valName : string) (entry : DictionaryRef)
    (defVal : option RGBAColor) : M MapboxTransColorRef :=
  let defValRef : RGBAColorRef := defVal in
  let absent : MapboxTransColorRef :=
    match defVal with
    | Some _ => Some (MapboxTransColor.ofColor defValRef)
    | None => None
    end in
  match entry with
  | None => ret absent
  | Some d =>
      match getEntry d valName with
      | None => ret absent
      | Some theEntry =>
          if DictionaryType_eqb (getType theEntry) DictTypeDictionary then
            do res <- MaplyVectorFunctionStops_parse
                        MaplyVectorFunctionStops_new (getDict theEntry) false ;;
            if fst res then ret (Some (MapboxTransColor.ofStops (Some (snd res))))
            else
              run wkLogLevel Warn
                    ("Expecting key word 'stops' in entry " +:+ valName) ;;
              ret None
          else if DictionaryType_eqb (getType theEntry) DictTypeString then
            do c <- colorValue valName (Some theEntry) None defValRef false ;;
            match c with
            | Some _ => ret (Some (MapboxTransColor.ofColor c))
            | None =>
                run wkLogLevel Warn
                      ("Unexpected type found in entry " +:+ valName
                       +:+ ". Was expecting a color.") ;;
                ret None
            end
          else
            run wkLogLevel Warn
                  ("Unexpected type found in entry " +:+ valName
                   +:+ ". Was expecting a color.") ;;
            ret None
      end
  end.

(** ** The style set: [MapboxVectorStyleSetImpl] *)

(** A tile identifier ([QuadTreeIdentifier]). *)
Record QuadTreeIdentifier : Type := mkQuadTreeIdentifier {
  tile_x : Z;
  tile_y : Z;
  tile_level : Z }.

(** Modelled from the spec: the declarations of the three indices
    (MapboxVectorStyleSetC.h) are not among the sources.  "Indices:
    name->layer (unique, last-write-wins on collision), UUID->layer
    (unique by construction), source-layer->layer (multimap; many layers
    may share one source layer)".  The constructor gives each of them a
    bucket count ([layersBySource(TypicalLayerCount)]): they are hash
    containers, the multimap a [std::unordered_multimap].  The elements of
    one key are next to each other there, and an insertion keeps the order
    of those that are in; where among them it puts the new element is left
    to the library.  The multimap is a map from a key to the range of its
    elements, and an insertion is told the place in the range. *)
Abbreviation multimap V := (gmap string (list V)).

Definition equal_range {V : Type} (m : multimap V) (k : string) : list V :=
  match m !! k with
  | Some l => l
  | None => []
  end.

(** [v] put before the element at [pos] of [l], or at the end. *)
Definition insert_at {V : Type} (pos : nat) (v : V) (l : list V) : list V :=
  (firstn pos l ++ v :: skipn pos l)%list.

Definition multimap_insert {V : Type} (pos : nat) (k : string) (v : V)
    (m : multimap V) : multimap V :=
  <[k := insert_at pos v (equal_range m k)]> m.

Section StyleSet.

(** The feature filter of a layer ([MapboxVectorFilter]) and its
    [testFeature]; MapboxVectorStyleLayer.cpp is not among the sources. *)
Context {MapboxVectorFilter : Type}.
Variable testFeature :
  MapboxVectorFilter -> Dictionary -> QuadTreeIdentifier -> bool.

(** What [MapboxVectorStyleSetImpl] reads of a [MapboxVectorStyleLayer]. *)
Record MapboxVectorStyleLayer : Type := mkMapboxVectorStyleLayer {
  ident : string;
  uuid : Z;
  sourceLayer : string;
  filter : option MapboxVectorFilter;
  visible : bool;
  representation : string;
  drawPriority : Z }.

Record MapboxVectorStyleSetImpl : Type := mkMapboxVectorStyleSetImpl {
  name : string;
  version : Z;
  currentID : Z;
  baseDrawPriority : Z;       (* tileStyleSettings->baseDrawPriority *)
  layersByName : gmap string MapboxVectorStyleLayer;
  layersByUUID : gmap Z MapboxVectorStyleLayer;
  layersBySource : multimap MapboxVectorStyleLayer;
  layers : list MapboxVectorStyleLayer }.

(** The style set as its constructor leaves it. *)
Definition MapboxVectorStyleSetImpl_new (settingsBaseDrawPriority : Z)
  : MapboxVectorStyleSetImpl :=
  mkMapboxVectorStyleSetImpl EmptyString (-1) 0 settingsBaseDrawPriority
    ∅ ∅ ∅ [].

(** [MapboxVectorStyleLayer::VectorStyleLayer(inst, styleSet, dict,
      drawPriority)], the layer factory: it is handed the style set, whose
    resolvers it calls and from which it may take identifiers
    ([generateID], hence the new [currentID]).  It answers a layer or a
    null reference, or an exception leaves it: the resolvers throw, and
    nothing says that the factory catches. *)
Variable VectorStyleLayer :
  MapboxVectorStyleSetImpl -> Dictionary -> Z ->
  (exception + option MapboxVectorStyleLayer) * Z.

(** The place that [layersBySource.insert] gives a layer among the layers
    of its source layer: the choice of the library, which may depend on
    all that was inserted before. *)
Variable insert_position :
  MapboxVectorStyleSetImpl -> MapboxVectorStyleLayer -> nat.

Definition set_currentID (st : MapboxVectorStyleSetImpl) (id : Z)
  : MapboxVectorStyleSetImpl :=
  mkMapboxVectorStyleSetImpl (name st) (version st) id (baseDrawPriority st)
    (layersByName st) (layersByUUID st) (layersBySource st) (layers st).

(** "Sort into various buckets for quick lookup" *)
Definition index_layer (st : MapboxVectorStyleSetImpl)
    (layer : MapboxVectorStyleLayer) : MapboxVectorStyleSetImpl :=
  mkMapboxVectorStyleSetImpl (name st) (version st) (currentID st)
    (baseDrawPriority st)
    (<[ident layer := layer]> (layersByName st))
    (<[uuid layer := layer]> (layersByUUID st))
    (if negb (str_empty (sourceLayer layer))
     then multimap_insert (insert_position st layer) (sourceLayer layer)
            layer (layersBySource st)
     else layersBySource st)
    (layers st ++ [layer])%list.

(** The loop of [parse] over [layerStyles]: the exception that left it, if
    one did, and the style set as the loop left it.  The [continue] taken
    when no layer was made leaves [which] as it is; nothing is caught. *)
Fixpoint parse_layers (layerStyles : list DictionaryEntry) (which : Z)
    (st : MapboxVectorStyleSetImpl)
  : option exception * MapboxVectorStyleSetImpl :=
  match layerStyles with
  | [] => (None, st)
  | layerStyle :: rest =>
      if DictionaryType_eqb (getType layerStyle) DictTypeDictionary then
        let '(layer, id) :=
          VectorStyleLayer st (getDict layerStyle)
            (1 * which + baseDrawPriority st) in
        let st1 := set_currentID st id in
        match layer with
        | inl e => (Some e, st1)
        | inr None => parse_layers rest which st1
        | inr (Some l) => parse_layers rest (which + 1) (index_layer st1 l)
        end
      else parse_layers rest (which + 1) st
  end.

(** The first two statements of [parse]: the name and the version. *)
Definition parse_header (st : MapboxVectorStyleSetImpl)
    (styleDict : Dictionary) : MapboxVectorStyleSetImpl :=
  mkMapboxVectorStyleSetImpl (getStringField styleDict "name")
    (getIntField styleDict "version") (currentID st) (baseDrawPriority st)
    (layersByName st) (layersByUUID st) (layersBySource st) (layers st).

(** [bool MapboxVectorStyleSetImpl::parse(PlatformThreadInfo *inst,
      const DictionaryRef &styleDict)]: what it returns, or the exception
    that leaves it, and the style set after the call. *)
Definition parse (st : MapboxVectorStyleSetImpl) (styleDict : Dictionary)
  : (exception + bool) * MapboxVectorStyleSetImpl :=
  let st1 := parse_header st styleDict in
  let layerStyles := getArrayField styleDict "layers" in
  let looped := parse_layers layerStyles 0 st1 in
  (match fst looped with
   | Some e => inl e
   | None => inr true
   end,
   snd looped).

(** [MapboxVectorStyleSetImpl::getLayer] *)
Definition getLayer (st : MapboxVectorStyleSetImpl) (inName : string)
  : option MapboxVectorStyleLayer :=
  layersByName st !! inName.

(** [MapboxVectorStyleSetImpl::styleForUUID] *)
Definition styleForUUID (st : MapboxVectorStyleSetImpl) (id : Z)
  : option MapboxVectorStyleLayer :=
  layersByUUID st !! id.

(** The test of [stylesForFeature] on one layer. *)
Definition layer_passes (attrs : Dictionary) (tileID : QuadTreeIdentifier)
    (layer : MapboxVectorStyleLayer) : bool :=
  match filter layer with
  | None => true
  | Some f => testFeature f attrs tileID
  end.

(** [std::vector<VectorStyleImplRef> MapboxVectorStyleSetImpl::
      stylesForFeature(inst, attrs, tileID, layerName)]: the style set is
    only read. *)
Definition stylesForFeature (st : MapboxVectorStyleSetImpl)
    (attrs : Dictionary) (tileID : QuadTreeIdentifier) (layerName : string)
  : list MapboxVectorStyleLayer :=
  let range := equal_range (layersBySource st) layerName in
  fold_left
    (fun styles layer =>
       if layer_passes attrs tileID layer then (styles ++ [layer])%list
       else styles)
    range [].

(** [MapboxVectorStyleSetImpl::layerShouldDisplay] *)
Definition layerShouldDisplay (st : MapboxVectorStyleSetImpl)
    (layerName : string) : bool :=
  existsb (fun l => visible l || negb (str_empty (representation l)))
    (equal_range (layersBySource st) layerName).

End StyleSet.

(** ** Further functions of the translation unit *)

(** *** [MapboxRegexField::buildDesc] *)

(** The inner loop of [buildDesc]: every key of the chunk, in angle
    brackets. *)
Definition buildDesc_keys (txt : string) (ks : list string) : string :=
  fold_left (fun t key => ((t +:+ "<") +:+ key) +:+ ">") ks txt.

Definition buildDesc_chunk (txt : string) (chunk : MapboxTextChunk) : string :=
  if negb (str_empty (str chunk)) then txt +:+ str chunk
  else buildDesc_keys txt (keys chunk).

(** [std::string MapboxRegexField::buildDesc(const DictionaryRef &attrs)
      const]; [attrs] is not read. *)
Definition buildDesc (f : MapboxRegexField) (attrs : Dictionary) : string :=
  trim (fold_left buildDesc_chunk (chunks f) EmptyString).

(** *** The typed accessors of the style set *)

(** [std::string MapboxVectorStyleSetImpl::stringValue(inName, dict,
      defVal)] *)
Definition stringValue (inName : string) (dict : DictionaryRef)
    (defVal : string) : M string :=
  match dict with
  | None => ret defVal
  | Some d =>
      match getEntry d inName with
      | None => ret defVal
      | Some thing =>
          if DictionaryType_eqb (getType thing) DictTypeString
          then ret (getString thing)
          else
            run wkLogLevel Warn
                  ("Expected string for " +:+ inName
                   +:+ " but got something else") ;;
            ret defVal
      end
  end.

(** [double MapboxVectorStyleSetImpl::doubleValue(
      const DictionaryEntryRef &thing, double defVal)] *)
Definition doubleValue_entry (thing : DictionaryEntryRef) (defVal : float)
  : M float :=
  match thing with
  | None => ret defVal
  | Some e =>
      match getType e with
      | DictTypeDouble | DictTypeInt | DictTypeIdentity | DictTypeInt64 =>
          ret (getDouble e)
      | _ =>
          run wkLogLevel Warn
                ("Expected double but got something else: " +:+ getString e) ;;
          ret defVal
      end
  end.

(** [double MapboxVectorStyleSetImpl::doubleValue(
      const std::string &valName, const DictionaryRef &dict, double defVal)] *)
Definition doubleValue (valName : string) (dict : DictionaryRef)
    (defVal : float) : M float :=
  match dict with
  | None => ret defVal
  | Some d =>
      match getEntry d valName with
      | None => ret defVal
      | Some thing =>
          if DictionaryType_eqb (getType thing) DictTypeDouble
             || DictionaryType_eqb (getType thing) DictTypeInt
             || DictionaryType_eqb (getType thing) DictTypeIdentity
          then ret (getDouble thing)
          else
            run wkLogLevel Warn
                  ("Expected double for " +:+ valName
                   +:+ " but got something else") ;;
            ret defVal
      end
  end.

(** [bool MapboxVectorStyleSetImpl::boolValue(valName, dict, onString,
      defVal)] *)
Definition boolValue (valName : string) (dict : DictionaryRef)
    (onString : string) (defVal : bool) : bool :=
  match dict with
  | None => defVal
  | Some d =>
      match getEntry d valName with
      | None => defVal
      | Some thing =>
          match getType thing with
          | DictTypeString => String.eqb (getString thing) onString
          | DictTypeInt | DictTypeInt64 | DictTypeIdentity | DictTypeDouble =>
              negb (getInt thing =? 0)
          | _ => defVal
          end
      end
  end.

(** [std::vector<DictionaryEntryRef> MapboxVectorStyleSetImpl::arrayValue(
      inName, dict)] *)
Definition arrayValue (inName : string) (dict : DictionaryRef)
  : M (list DictionaryEntry) :=
  match dict with
  | None => ret []
  | Some d =>
      match getEntry d inName with
      | None => ret []
      | Some thing =>
          if DictionaryType_eqb (getType thing) DictTypeArray
          then ret (getArray thing)
          else
            run wkLogLevel Warn
                  ("Expected array for " +:+ inName
                   +:+ " but got something else") ;;
            ret []
      end
  end.

(** [s.c_str()] as a C string: the text before the first NUL. *)
Fixpoint c_str (s : string) : string :=
  match s with
  | EmptyString => EmptyString
  | String c s' =>
      if Ascii.eqb c Ascii.zero then EmptyString else String c (c_str s')
  end.

(** The loop of [enumValue] over the null-terminated array [options],
    from index [which] on. *)
Fixpoint enumValue_loop (localName : string) (options : list string)
    (which : Z) : option Z :=
  match options with
  | [] => None
  | val :: rest =>
      if String.eqb val (c_str localName) then Some which
      else enumValue_loop localName rest (which + 1)
  end.

(** [int MapboxVectorStyleSetImpl::enumValue(const DictionaryEntryRef &entry,
      const char * const options[], int defVal)]; [options] are the
    strings of the array before its null terminator. *)
Definition enumValue (entry : DictionaryEntryRef) (options : list string)
    (defVal : Z) : M Z :=
  match entry with
  | None => ret defVal
  | Some e =>
      if negb (DictionaryType_eqb (getType e) DictTypeString) then ret defVal
      else
        let localName := getString e in
        match enumValue_loop localName options 0 with
        | Some which => ret which
        | None =>
            run wkLogLevel Warn
                  ("Found unexpected value (" +:+ c_str localName
                   +:+ ") in enumerated type") ;;
            ret defVal
        end
  end.

(** [bool MapboxRegexField::parse(const std::string &fieldName,
      MapboxVectorStyleSetImpl *, const DictionaryRef &styleEntry)] *)
Definition MapboxRegexField_parse_field (f : MapboxRegexField)
    (fieldName : string) (styleEntry : DictionaryRef)
  : M (bool * MapboxRegexField) :=
  do textField <- stringValue fieldName styleEntry EmptyString ;;
  if str_empty textField then ret (true, f)
  else ret (MapboxRegexField_parse f textField).

(** *** [minValue], [maxValue] *)

(** [MAXFLOAT] of math.h, the largest finite [float]. *)
Definition MAXFLOAT : float := 0x1.fffffep+127%float.

(** [std::min(a, b)] is [(b < a) ? b : a], [std::max(a, b)] is
    [(a < b) ? b : a]. *)
Definition std_min (x y : float) : float := if (y <? x)%float then y else x.
Definition std_max (x y : float) : float := if (x <? y)%float then y else x.

(** [double MaplyVectorFunctionStops::minValue()] *)
Definition minValue (f : MaplyVectorFunctionStops) : float :=
  fold_left (fun v stop => std_min v (val stop)) (stops f) MAXFLOAT.

(** [double MaplyVectorFunctionStops::maxValue()] *)
Definition maxValue (f : MaplyVectorFunctionStops) : float :=
  fold_left (fun v stop => std_max v (val stop)) (stops f) (- MAXFLOAT)%float.

(** *** [colorForZoom] *)

(** Arithmetic of [float] (binary32), the values held in doubles. *)
Definition float_add (x y : float) : float :=
  SF2Prim (SFadd 24 128 (Prim2SF x) (Prim2SF y)).
Definition float_sub (x y : float) : float :=
  SF2Prim (SFsub 24 128 (Prim2SF x) (Prim2SF y)).
Definition float_mul (x y : float) : float :=
  SF2Prim (SFmul 24 128 (Prim2SF x) (Prim2SF y)).

Section ColorEvaluation.

Variable pow : float -> float -> float.

(** [RGBAColor::asUnitFloats] and [RGBAColor::FromUnitFloats]
    (WhirlyVector.h is not among the sources): the four channels as
    [float]s, and back. *)
Variable asUnitFloats : RGBAColor -> float * float * float * float.
Variable FromUnitFloats : float * float * float * float -> RGBAColor.

(** The body of the bracket test of [colorForZoom]; it reads through both
    colour pointers, whose being null is undefined behaviour ([None]). *)
Definition interpolate_color (base z : float)
    (a b : MaplyVectorFunctionStop) : option RGBAColorRef :=
  match color a, color b with
  | Some ca, Some cb =>
      let ratio := double_to_float (stop_ratio pow base z a b) in
      let '(a0, a1, a2, a3) := asUnitFloats ca in
      let '(b0, b1, b2, b3) := asUnitFloats cb in
      let mix (ac bc : float) : float :=
        float_add (float_mul ratio (float_sub bc ac)) ac in
      Some (Some (FromUnitFloats (mix a0 b0, mix a1 b1, mix a2 b2, mix a3 b3)))
  | _, _ => None
  end.

Fixpoint colorForZoom_loop (base z : float) (a : MaplyVectorFunctionStop)
    (b : option MaplyVectorFunctionStop) (rest : list MaplyVectorFunctionStop)
  : option RGBAColorRef :=
  match rest with
  | [] => match b with Some b => Some (color b) | None => Some None end
  | s :: rest' =>
      if ((zoom a <=? z) && (z <? zoom s))%float
      then interpolate_color base z a s
      else colorForZoom_loop base z s (Some s) rest'
  end.

(** [RGBAColorRef MaplyVectorFunctionStops::colorForZoom(double zoom)];
    [None] is undefined behaviour (no stop at all, or a null colour read
    inside a bracket). *)
Definition colorForZoom (f : MaplyVectorFunctionStops) (z : float)
  : option RGBAColorRef :=
  match stops f with
  | [] => None
  | a :: rest =>
      if (z <=? zoom a)%float then Some (color a)
      else colorForZoom_loop (base f) z a None rest
  end.

(** *** [MapboxTransDouble], [MapboxTransColor] *)

(** [double MapboxTransDouble::valForZoom(double zoom)] *)
Definition valForZoom (d : MapboxTransDouble.t) (z : float) : option float :=
  match MapboxTransDouble.stops d with
  | Some s => valueForZoom pow s z
  | None => Some (MapboxTransDouble.val d)
  end.

(** [void MapboxTransColor::setAlphaOverride(double alphaOverride)] *)
Definition setAlphaOverride (c : MapboxTransColor.t) (alphaOverride : float)
  : MapboxTransColor.t :=
  MapboxTransColor.mk (MapboxTransColor.color c) true alphaOverride
    (MapboxTransColor.stops c).

(** [MapboxTransColor::hasAlphaOverride] (in the header) answers the
    member [useAlphaOverride]. *)
Definition hasAlphaOverride (c : MapboxTransColor.t) : bool :=
  MapboxTransColor.useAlphaOverride c.

(** [RGBAColor MapboxTransColor::colorForZoom(double zoom)]: the colour
    reference is read through, which is undefined when it is null, and so
    is [(uint8_t)(alpha * 255.0)] when the integer part of the product is
    no [uint8_t]. *)
Definition MapboxTransColor_colorForZoom (c : MapboxTransColor.t) (z : float)
  : option RGBAColor :=
  let ref : option RGBAColorRef :=
    match MapboxTransColor.stops c with
    | Some s => colorForZoom s z
    | None => Some (MapboxTransColor.color c)
    end in
  match ref with
  | Some (Some theColor) =>
      if MapboxTransColor.useAlphaOverride c then
        if conversion_defined 0 255 (MapboxTransColor.alpha c * 255) then
          Some (mkRGBAColor (r theColor) (g theColor) (b theColor)
                  (uint8 (double_to_int (MapboxTransColor.alpha c * 255))))
        else None
      else Some theColor
  | _ => None
  end.

(** *** [resolveColor] *)

Inductive MBResolveColorType : Type :=
| MBResolveColorOpacityMultiply
| MBResolveColorOpacityReplaceAlpha
| MBResolveColorOpacityComposeAlpha.

(** [RGBAColorRef MapboxVectorStyleSetImpl::resolveColor(color, opacity,
      zoom, resolveMode)]; [None] is undefined behaviour of a call
    inside. *)
Definition resolveColor (color : MapboxTransColorRef)
    (opacity : MapboxTransDoubleRef) (z : float)
    (resolveMode : MBResolveColorType) : option RGBAColorRef :=
  match color with
  | None => Some None
  | Some c =>
      match MapboxTransColor_colorForZoom c z with
      | None => None
      | Some thisColor =>
          match opacity with
          | None => Some (Some thisColor)
          | Some o =>
              if hasAlphaOverride c then Some (Some thisColor)
              else
                match valForZoom o z with
                | None => None
                | Some ov =>
                    let thisOpacity := float_mul (double_to_float ov) 255 in
                    let '(v0, v1, v2, v3) := asUnitFloats thisColor in
                    Some (Some
                      match resolveMode with
                      | MBResolveColorOpacityMultiply =>
                          RGBAColor_doubles (float_mul v0 thisOpacity)
                            (float_mul v1 thisOpacity)
                            (float_mul v2 thisOpacity)
                            (float_mul v3 thisOpacity)
                      | MBResolveColorOpacityReplaceAlpha =>
                          RGBAColor_doubles (float_mul v0 255)
                            (float_mul v1 255) (float_mul v2 255) thisOpacity
                      | MBResolveColorOpacityComposeAlpha =>
                          RGBAColor_doubles (float_mul v0 255)
                            (float_mul v1 255) (float_mul v2 255)
                            (float_mul v3 thisOpacity)
                      end)
                end
          end
      end
  end.

End ColorEvaluation.

(** [double MapboxTransDouble::minVal()], [maxVal()] *)
Definition minVal (d : MapboxTransDouble.t) : float :=
  match MapboxTransDouble.stops d with
  | Some s => minValue s
  | None => MapboxTransDouble.val d
  end.

Definition maxVal (d : MapboxTransDouble.t) : float :=
  match MapboxTransDouble.stops d with
  | Some s => maxValue s
  | None => MapboxTransDouble.val d
  end.

(** [RGBAColor MapboxVectorStyleSetImpl::color(RGBAColor color,
      double opacity)]: each channel times the opacity, as [uint8_t]; the
    conversion is defined while the integer part of the product is a
    [uint8_t]. *)
Definition color_opacity (c : RGBAColor) (opacity : float) : RGBAColor :=
  mkRGBAColor
    (uint8 (double_to_int (int_to_double (r c) * opacity)))
    (uint8 (double_to_int (int_to_double (g c) * opacity)))
    (uint8 (double_to_int (int_to_double (b c) * opacity)))
    (uint8 (double_to_int (int_to_double (a c) * opacity))).

(** *** [MapboxTransText] and [transText] *)

Module MapboxTransText.
Record t : Type := mk {
  textField : MapboxRegexField;
  stops : MaplyVectorFunctionStopsRef }.

(** [MapboxTransText::MapboxTransText(const std::string &inText)] *)
Definition ofText (inText : string) : t :=
  mk (snd (MapboxRegexField_parse MapboxRegexField_new inText)) None.

(** [MapboxTransText::MapboxTransText(MaplyVectorFunctionStopsRef stops)] *)
Definition ofStops (s : MaplyVectorFunctionStopsRef) : t :=
  mk MapboxRegexField_new s.

End MapboxTransText.

Definition MapboxTransTextRef : Type := option MapboxTransText.t.

(** [MapboxRegexField MapboxTransText::textForZoom(double zoom)] *)
Definition MapboxTransText_textForZoom (d : MapboxTransText.t) (z : float)
  : option MapboxRegexField :=
  match MapboxTransText.stops d with
  | Some s => textForZoom s z
  | None => Some (MapboxTransText.textField d)
  end.

(** [MapboxTransTextRef MapboxVectorStyleSetImpl::transText(
      const std::string &inName, const DictionaryRef &entry,
      const std::string &str)] *)
Definition transText (inName : string) (entry : DictionaryRef)
    (defText : string) : M MapboxTransTextRef :=
  let absent : MapboxTransTextRef :=
    if str_empty defText then None
    else Some (MapboxTransText.ofText defText) in
  match entry with
  | None => ret absent
  | Some d =>
      match getEntry d inName with
      | None => ret absent
      | Some theEntry =>
          if DictionaryType_eqb (getType theEntry) DictTypeDictionary then
            do res <- MaplyVectorFunctionStops_parse
                        MaplyVectorFunctionStops_new (getDict theEntry) true ;;
            if fst res then ret (Some (MapboxTransText.ofStops (Some (snd res))))
            else
              run wkLogLevel Warn
                    ("Expecting key word 'stops' in entry " +:+ inName) ;;
              ret None
          else if DictionaryType_eqb (getType theEntry) DictTypeString then
            ret (Some (MapboxTransText.ofText (getString theEntry)))
          else
            run wkLogLevel Warn
                  ("Unexpected type found in entry " +:+ inName
                   +:+ ". Was expecting a string.") ;;
            ret None
      end
  end.

(** *** [generateID] *)

(** [long long MapboxVectorStyleSetImpl::generateID()]: the identifier
    handed out and the style set after the call. *)
Definition generateID {MapboxVectorFilter : Type}
    (st : @MapboxVectorStyleSetImpl MapboxVectorFilter)
  : Z * @MapboxVectorStyleSetImpl MapboxVectorFilter :=
  (currentID st, set_currentID st (currentID st + 1)).

(** ** Specification vocabulary *)

(** The stops are listed in ascending zoom order. *)
Fixpoint ascending (l : list MaplyVectorFunctionStop) : Prop :=
  match l with
  | s :: rest =>
      match rest with
      | s' :: _ => (zoom s <? zoom s')%float = true /\ ascending rest
      | [] => True
      end
  | [] => True
  end.

(** A numeric stop, as [MaplyVectorFunctionStops::parse] makes it. *)
Definition numericStop (z v : float) : MaplyVectorFunctionStop :=
  mkMaplyVectorFunctionStop z v None MapboxRegexField_new.

(** The stops [(0,0),(10,100)] with base 1.0. *)
Definition linearStops : MaplyVectorFunctionStops :=
  mkMaplyVectorFunctionStops [numericStop 0 0; numericStop 10 100] 1.

(** The text stops [(0,"low"),(10,"high")], parsed from the document entry
    [{"stops": [[0,"low"],[10,"high"]]}]. *)
Definition lowHighEntry : Dictionary :=
  dictOfMap
    (<["stops" := entryArray [entryArray [entryInt 0; entryString "low"];
                              entryArray [entryInt 10; entryString "high"]]]> ∅).

Definition lowHighStops : MaplyVectorFunctionStops :=
  match outcome (MaplyVectorFunctionStops_parse MaplyVectorFunctionStops_new
                   lowHighEntry true) with
  | inr (_, f) => f
  | inl _ => MaplyVectorFunctionStops_new
  end.

Definition literalField (s : string) : MapboxRegexField :=
  mkMapboxRegexField [mkMapboxTextChunk s []] true.

(** *** What [build] is to compute, in the words of the specification *)

(** A key lookup succeeds when the attributes have the field. *)
Definition lookup_succeeds (attrs : Dictionary) (key : string) : bool :=
  hasField attrs key.

(** The value a key chunk contributes: that of the first key of its list
    whose lookup yields a value that is not empty. *)
Definition resolve_keys (attrs : Dictionary) (ks : list string) : string :=
  match
    List.find
      (fun key => lookup_succeeds attrs key
                  && negb (str_empty (getStringField attrs key))) ks
  with
  | Some key => getStringField attrs key
  | None => EmptyString
  end.

(** A chunk is a literal when its text is not empty, a key chunk
    otherwise. *)
Definition is_key_chunk (c : MapboxTextChunk) : bool := str_empty (str c).

Definition chunk_text (attrs : Dictionary) (c : MapboxTextChunk) : string :=
  if is_key_chunk c then resolve_keys attrs (keys c) else str c.

Definition concat_strings (l : list string) : string :=
  fold_right String.append EmptyString l.

(** At least one key lookup was attempted across the template. *)
Definition lookup_attempted (cs : list MapboxTextChunk) : bool :=
  existsb
    (fun c => is_key_chunk c && match keys c with [] => false | _ => true end)
    cs.

(** At least one of the attempted key lookups succeeded. *)
Definition some_lookup_succeeded (attrs : Dictionary)
    (cs : list MapboxTextChunk) : bool :=
  existsb (fun c => is_key_chunk c && existsb (lookup_succeeds attrs) (keys c))
    cs.

(** [t] is [s] without its leading and trailing whitespace. *)
Definition is_trimmed_of (s t : string) : Prop :=
  exists pre post,
    s = pre +:+ t +:+ post
    /\ string_forallb isspace pre = true
    /\ string_forallb isspace post = true
    /\ (forall c t', t = String c t' -> isspace c = false)
    /\ (forall c t', t = t' +:+ String c EmptyString -> isspace c = false).

(** The template "{name}" and attributes with the single field
    [name = "Paris"]. *)
Definition nameTemplate : MapboxRegexField :=
  snd (MapboxRegexField_parse MapboxRegexField_new "{name}").

Definition parisAttrs : Dictionary :=
  dictOfMap (<["name" := entryString "Paris"]> ∅).

(** A key [pre:suf] with a trailing colon-prefixed suffix, and the
    fallback key [pre_suf]. *)
Definition colon_key (pre suf : string) : string :=
  pre +:+ String ":" suf.

Definition underscore_key (pre suf : string) : string :=
  pre +:+ String "_" suf.

(** The template "{name:en}" and attributes that only have the field
    [name_en]. *)
Definition nameEnTemplate : MapboxRegexField :=
  snd (MapboxRegexField_parse MapboxRegexField_new "{name:en}").

Definition nameEnAttrs : Dictionary :=
  dictOfMap (<["name_en" := entryString "Paris"]> ∅).

(** A component of a colour: a text without separator characters. *)
Definition is_component (s : string) : bool :=
  string_forallb (fun c => negb (is_color_separator c)) s.

(** The text "rgba(r,g,b,a)" of four components. *)
Definition rgba_text (tr tg tb ta : string) : string :=
  "rgba(" +:+ tr +:+ String "," (tg +:+ String "," (tb +:+ String ","
    (ta +:+ ")"))).

(** The number a text of hexadecimal digits writes, [None] when a
    character is not a hexadecimal digit. *)
Fixpoint hex_value (s : string) (acc : Z) : option Z :=
  match s with
  | EmptyString => Some acc
  | String c s' =>
      match hex_digit c with
      | Some d => hex_value s' (acc * 16 + d)
      | None => None
      end
  end.

(** The colour the hex branch of [parseColor] ends with. *)
Definition hex_color (multiplyAlpha : bool) (red green blue alpha : Z)
  : RGBAColor :=
  if multiplyAlpha
  then withAlphaMultiply (RGBAColor_ints red green blue 255)
         (int_to_double alpha / 255)
  else RGBAColor_ints red green blue alpha.

Definition hex3 (c1 c2 c3 : ascii) : string :=
  String "#" (String c1 (String c2 (String c3 EmptyString))).

Definition hex4 (c1 c2 c3 c4 : ascii) : string :=
  String "#" (String c1 (String c2 (String c3 (String c4 EmptyString)))).

Definition hex6 (c1 c2 c3 c4 c5 c6 : ascii) : string :=
  String "#" (String c1 (String c2 (String c3 (String c4 (String c5
    (String c6 EmptyString)))))).

Definition hex8 (c1 c2 c3 c4 c5 c6 c7 c8 : ascii) : string :=
  String "#" (String c1 (String c2 (String c3 (String c4 (String c5
    (String c6 (String c7 (String c8 EmptyString)))))))).

(** A property whose entry is a nested object without "stops". *)
Definition noStopsEntry : DictionaryEntry := entryDict emptyDictionary.

Definition noStopsPaint : Dictionary :=
  dictOfMap (<["fill-color" := noStopsEntry]> ∅).

Section StyleSetSpecification.

Context {MapboxVectorFilter : Type}.
Variable testFeature :
  MapboxVectorFilter -> Dictionary -> QuadTreeIdentifier -> bool.
Variable VectorStyleLayer :
  @MapboxVectorStyleSetImpl MapboxVectorFilter -> Dictionary -> Z ->
  (exception + option (@MapboxVectorStyleLayer MapboxVectorFilter)) * Z.
Variable insert_position :
  @MapboxVectorStyleSetImpl MapboxVectorFilter ->
  @MapboxVectorStyleLayer MapboxVectorFilter -> nat.

(** The layers of a document, in the words of the specification: "iterate
    the layer array in document order; for each dictionary entry attempt to
    construct the appropriate StyleLayer variant (unsupported/malformed
    layer types are skipped, not fatal)".  The factory is run on the style
    set as the entries before have left it, and the layers are those made
    before an exception, if there is one, leaves the factory. *)
Fixpoint declared_layers (layerStyles : list DictionaryEntry) (which : Z)
    (st : @MapboxVectorStyleSetImpl MapboxVectorFilter)
  : list (@MapboxVectorStyleLayer MapboxVectorFilter) :=
  match layerStyles with
  | [] => []
  | layerStyle :: rest =>
      match getType layerStyle with
      | DictTypeDictionary =>
          match
            VectorStyleLayer st (getDict layerStyle)
              (which + baseDrawPriority st)
          with
          | (inr (Some l), id) =>
              l :: declared_layers rest (which + 1)
                     (index_layer insert_position (set_currentID st id) l)
          | (inr None, id) => declared_layers rest which (set_currentID st id)
          | (inl _, _) => []
          end
      | _ => declared_layers rest (which + 1) st
      end
  end.

(** A layer is indexed under a source-layer name when that is the name of
    its source layer; a layer without a source layer is not indexed. *)
Definition indexed_under (layerName : string)
    (l : @MapboxVectorStyleLayer MapboxVectorFilter) : bool :=
  negb (str_empty (sourceLayer l)) && String.eqb (sourceLayer l) layerName.

(** "whose filter is absent or whose filter evaluates to true against
    (attrs, tileID)" *)
Definition filter_absent_or_true (attrs : Dictionary)
    (tileID : QuadTreeIdentifier)
    (l : @MapboxVectorStyleLayer MapboxVectorFilter) : Prop :=
  filter l = None
  \/ exists f, filter l = Some f /\ testFeature f attrs tileID = true.

Definition filter_absent_or_true_b (attrs : Dictionary)
    (tileID : QuadTreeIdentifier)
    (l : @MapboxVectorStyleLayer MapboxVectorFilter) : bool :=
  forallb (fun f => testFeature f attrs tileID)
    (match filter l with Some f => [f] | None => [] end).

(** The indices hold what the list of layers holds: the multimap has,
    for each name, the layers indexed under it, each as often as the list
    has it, and the two maps answer the last layer of the list with the
    name, or with the identifier. *)
Definition indices_agree (st : @MapboxVectorStyleSetImpl MapboxVectorFilter)
  : Prop :=
  (forall layerName,
     Permutation (equal_range (layersBySource st) layerName)
       (List.filter (indexed_under layerName) (layers st)))
  /\ (forall inName,
        layersByName st !! inName
        = last (List.filter (fun l => String.eqb (ident l) inName) (layers st)))
  /\ (forall id,
        layersByUUID st !! id
        = last (List.filter (fun l => Z.eqb (uuid l) id) (layers st))).

(** The multimap lists the layers of a name in the order of the list. *)
Definition source_index_in_order
    (st : @MapboxVectorStyleSetImpl MapboxVectorFilter) : Prop :=
  forall layerName,
    equal_range (layersBySource st) layerName
    = List.filter (indexed_under layerName) (layers st).

(** The library puts a layer behind the layers of its source layer. *)
Definition inserts_at_end : Prop :=
  forall st l,
    (length (equal_range (layersBySource st) (sourceLayer l))
     <= insert_position st l)%nat.



End StyleSetSpecification.

(** A small layer factory to run [parse] on.  A layer is made of an entry
    that has an "id" and takes the next identifier of the style set; its
    filter, when it has one, names an attribute that a feature must
    have. *)
Definition exampleFactory (st : @MapboxVectorStyleSetImpl string)
    (d : Dictionary) (priority : Z)
  : (exception + option (@MapboxVectorStyleLayer string)) * Z :=
  if hasField d "id" then
    (inr (Some (mkMapboxVectorStyleLayer (getStringField d "id")
                  (currentID st) (getStringField d "source-layer")
                  (if hasField d "filter"
                   then Some (getStringField d "filter") else None)
                  true EmptyString priority)),
     currentID st + 1)
  else (inr None, currentID st).

(** The example factory after the fill colour of the entry's "paint" was
    resolved with [transColor], as a layer of a style sheet resolves its
    colours; an exception of the resolver leaves the factory. *)
Definition paintFactory (st : @MapboxVectorStyleSetImpl string)
    (d : Dictionary) (priority : Z)
  : (exception + option (@MapboxVectorStyleLayer string)) * Z :=
  match
    outcome (transColor "fill-color" (option_map getDict (getEntry d "paint"))
               None)
  with
  | inl e => (inl e, currentID st)
  | inr _ => exampleFactory st d priority
  end.

(** Two choices of a library for the place of a new element: behind the
    elements of its key, and behind the first of them (where the library
    of the GNU compiler puts it in a small table). *)
Definition at_end {F : Type} (st : @MapboxVectorStyleSetImpl F)
    (l : @MapboxVectorStyleLayer F) : nat :=
  length (equal_range (layersBySource st) (sourceLayer l)).

Definition behind_first {F : Type} (st : @MapboxVectorStyleSetImpl F)
    (l : @MapboxVectorStyleLayer F) : nat := 1.

Definition exampleTestFeature (f : string) (attrs : Dictionary)
    (tileID : QuadTreeIdentifier) : bool :=
  hasField attrs f.

Definition exampleLayer (fields : list (string * string)) : DictionaryEntry :=
  entryDict
    (dictOfMap (list_to_map (List.map (fun p => (fst p, entryString (snd p)))
                               fields))).

(** Five entries: a layer on "water", a number, an entry of which no layer
    is made, and two layers on "roads", the first with a filter. *)
Definition exampleDocument : Dictionary :=
  dictOfMap
    (<["layers" :=
        entryArray
          [exampleLayer [("id", "water"); ("source-layer", "water")];
           entryInt 42;
           exampleLayer [("source-layer", "roads")];
           exampleLayer [("id", "road-fill"); ("source-layer", "roads");
                         ("filter", "class")];
           exampleLayer [("id", "road-line"); ("source-layer", "roads")]]]> ∅).

Definition exampleStyleSet : @MapboxVectorStyleSetImpl string :=
  snd (parse exampleFactory behind_first (MapboxVectorStyleSetImpl_new 100)
         exampleDocument).

(** Three layers of one source layer, declared in the order a, b, c. *)
Definition threeRoadsDocument : Dictionary :=
  dictOfMap
    (<["layers" :=
        entryArray
          [exampleLayer [("id", "a"); ("source-layer", "roads")];
           exampleLayer [("id", "b"); ("source-layer", "roads")];
           exampleLayer [("id", "c"); ("source-layer", "roads")]]]> ∅).

(** A layer whose fill colour is "rgb(a,b,c)", and a layer after it. *)
Definition badColourDocument : Dictionary :=
  dictOfMap
    (<["layers" :=
        entryArray
          [entryDict
             (dictOfMap
                (<["id" := entryString "land"]>
                   (<["source-layer" := entryString "land"]>
                      (<["paint" :=
                          entryDict
                            (dictOfMap
                               (<["fill-color" := entryString "rgb(a,b,c)"]>
                                  ∅))]> ∅))));
           exampleLayer [("id", "water"); ("source-layer", "water")]]]> ∅).

(** *** Vocabulary for the further properties *)

(** A text without "{" and "}". *)
Definition brace_free (s : string) : bool :=
  string_forallb (fun c => negb (is_brace c)) s.

(** [b; negb b; b; ...], [n] values. *)
Fixpoint alternate (b : bool) (n : nat) : list bool :=
  match n with
  | O => []
  | S n' => b :: alternate (negb b) n'
  end.

(** The key chunk of "{name:en}". *)
Definition nameEnChunk : MapboxTextChunk :=
  mkMapboxTextChunk EmptyString ["name:en"; "name_en"].

(** An entry [[zoom, value]] of a "stops" array with a number for value,
    and the stop it stands for. *)
Definition numeric_stop_entry (e : DictionaryEntry) : bool :=
  DictionaryType_eqb (getType e) DictTypeArray
  && match getArray e with
     | [_; e1] => isNumberType (getType e1)
     | _ => false
     end.

Definition stop_of_entry (e : DictionaryEntry) : MaplyVectorFunctionStop :=
  match getArray e with
  | [e0; e1] => numericStop (getDouble e0) (getDouble e1)
  | _ => MaplyVectorFunctionStop_new
  end.

(** What a successful parse made of an entry of the "stops" array: the
    entry is an array of two, the first being the zoom. *)
Definition stop_parsed_from (e : DictionaryEntry)
    (s : MaplyVectorFunctionStop) : Prop :=
  getType e = DictTypeArray
  /\ exists e0 e1, getArray e = [e0; e1] /\ zoom s = getDouble e0.

(** The document entry [{"stops": [[0,0],[10,100]]}]. *)
Definition linearStopsEntry : Dictionary :=
  dictOfMap
    (<["stops" := entryArray [entryArray [entryInt 0; entryInt 0];
                              entryArray [entryInt 10; entryInt 100]]]> ∅).

(** The stops [(0,0),(10,100)] with base 2.0, and two colour stops. *)
Definition exponentialStops : MaplyVectorFunctionStops :=
  mkMaplyVectorFunctionStops [numericStop 0 0; numericStop 10 100] 2.

Definition colorStop (z : float) (c : RGBAColor) : MaplyVectorFunctionStop :=
  mkMaplyVectorFunctionStop z 0 (Some c) MapboxRegexField_new.

Definition colorStops : MaplyVectorFunctionStops :=
  mkMaplyVectorFunctionStops
    [colorStop 0 (mkRGBAColor 255 0 0 255); colorStop 10 (mkRGBAColor 0 0 255 255)]
    1.

(** A double that is not NaN. *)
Definition is_number (x : float) : bool := (x <=? x)%float.

(** The components [c1; ...; cn] written "c1,...,cn)". *)
Fixpoint components_text (cs : list string) : string :=
  match cs with
  | [] => ")"
  | [c] => c +:+ ")"
  | c :: rest => c +:+ String "," (components_text rest)
  end.

(** A colour of four 8-bit channels. *)
Definition is_rgba8 (c : RGBAColor) : Prop :=
  0 <= r c < 256 /\ 0 <= g c < 256 /\ 0 <= b c < 256 /\ 0 <= a c < 256.

(** A paint dictionary with the colour "#abc". *)
Definition abcPaint : Dictionary :=
  dictOfMap (<["fill-color" := entryString "#abc"]> ∅).

(** [n] calls of [generateID] in a row: the identifiers handed out and the
    style set after the last call. *)
Fixpoint generateIDs {MapboxVectorFilter : Type} (n : nat)
    (st : @MapboxVectorStyleSetImpl MapboxVectorFilter)
  : list Z * @MapboxVectorStyleSetImpl MapboxVectorFilter :=
  match n with
  | O => ([], st)
  | S n' =>
      let '(id, st1) := generateID st in
      let '(ids, st2) := generateIDs n' st1 in
      (id :: ids, st2)
  end.


(** What makes a source layer worth fetching. *)
Definition displayable {MapboxVectorFilter : Type}
    (l : @MapboxVectorStyleLayer MapboxVectorFilter) : bool :=
  visible l || negb (str_empty (representation l)).

(** An entry that holds a 64-bit integer. *)
Definition entryInt64 (i : Z) : DictionaryEntry :=
  mkDictionaryEntry DictTypeInt64 i (int_to_double i) EmptyString []
    emptyDictionary (mkRGBAColor 0 0 0 0).

(** A paint dictionary whose line width is a 64-bit integer. *)
Definition wideLinePaint : Dictionary :=
  dictOfMap (<["line-width" := entryInt64 7]> ∅).

(** * Properties *)

(** ** The order of doubles

    [<=] and [<] of binary64, through their specification on [spec_float]. *)

Ltac sf_compare_cases :=
  repeat match goal with
  | |- context [Z.compare ?x ?y] => destruct (Z.compare_spec x y)
  | |- context [Pos.compare_cont Eq ?x ?y] =>
      change (Pos.compare_cont Eq x y) with (Pos.compare x y);
      destruct (Pos.compare_spec x y)
  | H : context [Z.compare ?x ?y] |- _ => destruct (Z.compare_spec x y)
  | H : context [Pos.compare_cont Eq ?x ?y] |- _ =>
      change (Pos.compare_cont Eq x y) with (Pos.compare x y) in H;
      destruct (Pos.compare_spec x y)
  end.

Ltac sf_order :=
  intros;
  repeat match goal with
  | x : spec_float |- _ => destruct x as [[]|[]| |[] ? ?]
  end;
  cbn in *; try discriminate; try reflexivity;
  sf_compare_cases; cbn in *;
  try discriminate; try reflexivity; try (exfalso; lia).

Lemma SFleb_trans (x y z : spec_float) :
  SFleb x y = true -> SFleb y z = true -> SFleb x z = true.
Proof. unfold SFleb, SFcompare. sf_order. Qed.

Lemma SFltb_leb_trans (x y z : spec_float) :
  SFltb x y = true -> SFleb y z = true -> SFltb x z = true.
Proof. unfold SFleb, SFltb, SFcompare. sf_order. Qed.

Lemma SFltb_leb (x y : spec_float) : SFltb x y = true -> SFleb x y = true.
Proof. unfold SFleb, SFltb, SFcompare. sf_order. Qed.

Lemma SFleb_ltb_false (x y : spec_float) :
  SFleb x y = true -> SFltb y x = false.
Proof. unfold SFleb, SFltb, SFcompare. sf_order. Qed.

Lemma SFltb_leb_false (x y : spec_float) :
  SFltb x y = true -> SFleb y x = false.
Proof. unfold SFleb, SFltb, SFcompare. sf_order. Qed.

Lemma SFleb_refl_r (x y : spec_float) : SFleb x y = true -> SFleb y y = true.
Proof. unfold SFleb, SFcompare. sf_order. Qed.

Lemma SFleb_refl_l (x y : spec_float) : SFleb x y = true -> SFleb x x = true.
Proof. unfold SFleb, SFcompare. sf_order. Qed.

Lemma SFadd_comm (p e : Z) (x y : spec_float) : SFadd p e x y = SFadd p e y x.
Proof.
  destruct x as [[]|[]| |[] ? ?], y as [[]|[]| |[] ? ?]; cbn;
    try reflexivity; rewrite Z.min_comm; f_equal; lia.
Qed.

Section DoubleOrder.
#[local] Open Scope float_scope.

Lemma double_leb_trans (x y z : float) :
  (x <=? y) = true -> (y <=? z) = true -> (x <=? z) = true.
Proof. rewrite !leb_spec. apply SFleb_trans. Qed.

Lemma double_ltb_leb_trans (x y z : float) :
  (x <? y) = true -> (y <=? z) = true -> (x <? z) = true.
Proof. rewrite !leb_spec, !ltb_spec. apply SFltb_leb_trans. Qed.

Lemma double_ltb_leb (x y : float) : (x <? y) = true -> (x <=? y) = true.
Proof. rewrite leb_spec, ltb_spec. apply SFltb_leb. Qed.

Lemma double_leb_ltb_false (x y : float) :
  (x <=? y) = true -> (y <? x) = false.
Proof. rewrite leb_spec, ltb_spec. apply SFleb_ltb_false. Qed.

Lemma double_ltb_leb_false (x y : float) :
  (x <? y) = true -> (y <=? x) = false.
Proof. rewrite leb_spec, ltb_spec. apply SFltb_leb_false. Qed.

Lemma double_leb_refl_r (x y : float) : (x <=? y) = true -> (y <=? y) = true.
Proof. rewrite !leb_spec. apply SFleb_refl_r. Qed.

Lemma double_leb_refl_l (x y : float) : (x <=? y) = true -> (x <=? x) = true.
Proof. rewrite !leb_spec. apply SFleb_refl_l. Qed.

Lemma double_add_comm (x y : float) : x + y = y + x.
Proof.
  rewrite <- (SF2Prim_Prim2SF (x + y)), <- (SF2Prim_Prim2SF (y + x)).
  rewrite !add_spec. unfold SF64add. now rewrite SFadd_comm.
Qed.

End DoubleOrder.

(** ** Ascending stops *)

Lemma ascending_tail (s : MaplyVectorFunctionStop)
    (l : list MaplyVectorFunctionStop) :
  ascending (s :: l) -> ascending l.
Proof. destruct l as [|s' l]; cbn; [trivial | tauto]. Qed.

Lemma ascending_app_l (l1 l2 : list MaplyVectorFunctionStop) :
  ascending (l1 ++ l2)%list -> ascending l1.
Proof.
  induction l1 as [|s l1 IH]; [intros _; exact I|].
  destruct l1 as [|s' l1]; [intros _; exact I|].
  cbn [app ascending]. intros [Hlt Hrest]. split; [exact Hlt|].
  apply IH. exact Hrest.
Qed.

Lemma ascending_app_r (l1 l2 : list MaplyVectorFunctionStop) :
  ascending (l1 ++ l2)%list -> ascending l2.
Proof.
  induction l1 as [|s l1 IH]; [intros H; exact H|].
  intros H. apply IH. exact (ascending_tail _ _ H).
Qed.

(** In an ascending list every stop is at or below the last one. *)
Lemma ascending_below_last (l : list MaplyVectorFunctionStop)
    (sn : MaplyVectorFunctionStop) :
  ascending l -> last l = Some sn ->
  (zoom sn <=? zoom sn)%float = true ->
  forall s, In s l -> (zoom s <=? zoom sn)%float = true.
Proof.
  induction l as [|x l IH]; intros Hasc Hlast Hrefl s Hin; [destruct Hin|].
  destruct l as [|y l].
  - cbn in Hlast. injection Hlast as <-. destruct Hin as [<-|[]]. exact Hrefl.
  - destruct Hasc as [Hlt Hasc].
    assert (Hy : (zoom y <=? zoom sn)%float = true).
    { apply (IH Hasc Hlast Hrefl). now left. }
    destruct Hin as [<-|Hin].
    + apply double_ltb_leb. exact (double_ltb_leb_trans _ _ _ Hlt Hy).
    + exact (IH Hasc Hlast Hrefl s Hin).
Qed.

(** With two stops or more, the first is strictly below the last. *)
Lemma ascending_first_below_last (s0 s1 : MaplyVectorFunctionStop)
    (l : list MaplyVectorFunctionStop) (sn : MaplyVectorFunctionStop) :
  ascending (s0 :: s1 :: l) -> last (s0 :: s1 :: l) = Some sn ->
  (zoom sn <=? zoom sn)%float = true ->
  (zoom s0 <? zoom sn)%float = true.
Proof.
  intros [Hlt Hasc] Hlast Hrefl.
  apply (double_ltb_leb_trans _ _ _ Hlt).
  apply (ascending_below_last (s1 :: l) sn Hasc Hlast Hrefl). now left.
Qed.

(** ** [valueForZoom] *)

Section ValueForZoom.

Variable pow : float -> float -> float.

(** The loop passes over every stop that is not above [z] and ends on the
    last one. *)
Lemma valueForZoom_loop_end (bs z : float)
    (rest : list MaplyVectorFunctionStop) :
  (forall s, In s rest -> (z <? zoom s)%float = false) ->
  forall a b,
  valueForZoom_loop pow bs z a b rest =
  match last rest with
  | Some sn => val sn
  | None => match b with Some s => val s | None => 0%float end
  end.
Proof.
  induction rest as [|s rest IH]; intros Hall a b; [reflexivity|].
  cbn [valueForZoom_loop].
  rewrite (Hall s (or_introl eq_refl)), andb_false_r.
  rewrite IH by (intros s' Hs'; apply Hall; now right).
  destruct rest as [|s' rest]; [reflexivity|].
  rewrite last_cons_cons.
  destruct (last (s' :: rest)) eqn:E; [reflexivity|].
  now apply last_None in E.
Qed.

(** The loop passes over the stops before a bracketing pair and
    interpolates there. *)
Lemma valueForZoom_loop_bracket (bs z : float)
    (a b : MaplyVectorFunctionStop) (post : list MaplyVectorFunctionStop) :
  (zoom a <=? z)%float = true -> (z <? zoom b)%float = true ->
  forall pre cur bp,
  (forall s, In s (pre ++ [a])%list -> (z <? zoom s)%float = false) ->
  valueForZoom_loop pow bs z cur bp (pre ++ a :: b :: post)%list =
  (stop_ratio pow bs z a b * (val b - val a) + val a)%float.
Proof.
  intros Ha Hb. induction pre as [|s pre IH]; intros cur bp Hall.
  - cbn [app valueForZoom_loop].
    rewrite (Hall a (or_introl eq_refl)), andb_false_r.
    now rewrite Ha, Hb.
  - cbn [app valueForZoom_loop].
    rewrite (Hall s (or_introl eq_refl)), andb_false_r.
    apply IH. intros s' Hs'. apply Hall. now right.
Qed.

(** C1: for stops in ascending zoom order and base 1.0, [valueForZoom]
    answers the first stop's value at or below the first zoom, the last
    stop's value at or beyond the last zoom, and otherwise, between the
    bracketing stops [a] and [b],
    [a.val + ((z - a.zoom) / (b.zoom - a.zoom)) * (b.val - a.val)]. *)
Theorem valueForZoom_linear (f : MaplyVectorFunctionStops)
    (s0 sn : MaplyVectorFunctionStop) :
  ascending (stops f) ->
  (2 <= length (stops f))%nat ->
  (base f =? 1)%float = true ->
  head (stops f) = Some s0 ->
  last (stops f) = Some sn ->
  (forall z, (z <=? zoom s0)%float = true ->
     valueForZoom pow f z = Some (val s0))
  /\ (forall z, (zoom sn <=? z)%float = true ->
        valueForZoom pow f z = Some (val sn))
  /\ (forall z pre a b post,
        stops f = (pre ++ a :: b :: post)%list ->
        (z <=? zoom s0)%float = false ->
        (zoom a <=? z)%float = true -> (z <? zoom b)%float = true ->
        valueForZoom pow f z =
        Some (val a + ((z - zoom a) / (zoom b - zoom a)) * (val b - val a))%float).
Proof.
  intros Hasc Hlen Hbase Hhead Hlast.
  unfold valueForZoom.
  destruct (stops f) as [|x rest] eqn:Hstops; [discriminate|].
  cbn in Hhead. injection Hhead as ->.
  split; [|split].
  - intros z Hz. now rewrite Hz.
  - intros z Hz.
    destruct rest as [|s1 rest]; [cbn in Hlen; lia|].
    pose proof (double_leb_refl_l _ _ Hz) as Hrefl.
    pose proof (ascending_first_below_last _ _ _ _ Hasc Hlast Hrefl) as Hlt.
    rewrite (double_ltb_leb_false _ _ (double_ltb_leb_trans _ _ _ Hlt Hz)).
    rewrite valueForZoom_loop_end.
    + change (last (s0 :: s1 :: rest)) with (last (s1 :: rest)) in Hlast.
      now rewrite Hlast.
    + intros s Hs. apply double_leb_ltb_false.
      apply (double_leb_trans _ (zoom sn)); [|exact Hz].
      apply (ascending_below_last (s0 :: s1 :: rest) sn Hasc Hlast Hrefl).
      now right.
  - intros z pre a b post Heq Hz0 Ha Hb. rewrite Hz0.
    assert (Hratio : stop_ratio pow (base f) z a b
                     = ((z - zoom a) / (zoom b - zoom a))%float).
    { unfold stop_ratio. now rewrite Hbase. }
    rewrite double_add_comm, <- Hratio. f_equal.
    destruct pre as [|p pre]; cbn [app] in Heq; injection Heq as -> ->.
    + cbn [valueForZoom_loop]. now rewrite Ha, Hb.
    + apply valueForZoom_loop_bracket; [exact Ha|exact Hb|].
      intros s Hs. apply double_leb_ltb_false.
      pose proof (double_leb_refl_l _ _ Ha) as Hrefl.
      apply (double_leb_trans _ (zoom a)); [|exact Ha].
      apply (ascending_below_last (pre ++ [a])%list a); [| |exact Hrefl|exact Hs].
      * apply (ascending_app_l _ (b :: post)).
        rewrite <- app_assoc. cbn [app].
        exact (ascending_tail _ _ Hasc).
      * apply last_snoc.
Qed.

End ValueForZoom.

(** The values at 5, -5 and 20, whatever [pow] is. *)
Lemma valueForZoom_linearStops (pow : float -> float -> float) :
  valueForZoom pow linearStops 5 = Some 50%float
  /\ valueForZoom pow linearStops (-5) = Some 0%float
  /\ valueForZoom pow linearStops 20 = Some 100%float.
Proof. repeat split; reflexivity. Qed.

(** The stops [(0,0),(10,100)] meet the conditions of C1, which gives their
    values at 5, -5 and 20. *)
Lemma valueForZoom_linear_witness :
  valueForZoom (fun _ _ => nan) linearStops 5 = Some 50%float
  /\ valueForZoom (fun _ _ => nan) linearStops (-5) = Some 0%float
  /\ valueForZoom (fun _ _ => nan) linearStops 20 = Some 100%float.
Proof.
  destruct (valueForZoom_linear (fun _ _ => nan) linearStops
              (numericStop 0 0) (numericStop 10 100))
    as (Hfirst & Hlast & Hmid).
  - cbn. split; [reflexivity|exact I].
  - cbn. lia.
  - reflexivity.
  - reflexivity.
  - reflexivity.
  - split; [|split].
    + rewrite (Hmid 5%float [] (numericStop 0 0) (numericStop 10 100) []);
        reflexivity.
    + apply Hfirst. reflexivity.
    + apply Hlast. reflexivity.
Defined.

(** ** [textForZoom] *)

Lemma textForZoom_loop_end (z : float) (rest : list MaplyVectorFunctionStop) :
  (forall s, In s rest -> (z <? zoom s)%float = false) ->
  forall a b,
  textForZoom_loop z a b rest =
  match last rest with
  | Some sn => textField sn
  | None => match b with Some s => textField s | None => MapboxRegexField_new end
  end.
Proof.
  induction rest as [|s rest IH]; intros Hall a b; [reflexivity|].
  cbn [textForZoom_loop].
  rewrite (Hall s (or_introl eq_refl)), andb_false_r.
  rewrite IH by (intros s' Hs'; apply Hall; now right).
  destruct rest as [|s' rest]; [reflexivity|].
  rewrite last_cons_cons.
  destruct (last (s' :: rest)) eqn:E; [reflexivity|].
  now apply last_None in E.
Qed.

Lemma textForZoom_loop_bracket (z : float)
    (a b : MaplyVectorFunctionStop) (post : list MaplyVectorFunctionStop) :
  (zoom a <=? z)%float = true -> (z <? zoom b)%float = true ->
  forall pre cur bp,
  (forall s, In s (pre ++ [a])%list -> (z <? zoom s)%float = false) ->
  textForZoom_loop z cur bp (pre ++ a :: b :: post)%list = textField a.
Proof.
  intros Ha Hb. induction pre as [|s pre IH]; intros cur bp Hall.
  - cbn [app textForZoom_loop].
    rewrite (Hall a (or_introl eq_refl)), andb_false_r.
    now rewrite Ha, Hb.
  - cbn [app textForZoom_loop].
    rewrite (Hall s (or_introl eq_refl)), andb_false_r.
    apply IH. intros s' Hs'. apply Hall. now right.
Qed.

(** C2: text stops are a step function.  For two stops or more in
    ascending zoom order, [textForZoom] answers the first stop's template
    at or below the first zoom, the template of the lower stop [a] of the
    bracketing pair when [a.zoom <= z < b.zoom], and the last stop's
    template at or beyond the last zoom: always the template of a stop, as
    it was parsed. *)
Theorem textForZoom_steps (f : MaplyVectorFunctionStops)
    (s0 sn : MaplyVectorFunctionStop) :
  ascending (stops f) ->
  (2 <= length (stops f))%nat ->
  head (stops f) = Some s0 ->
  last (stops f) = Some sn ->
  (forall z, (z <=? zoom s0)%float = true ->
     textForZoom f z = Some (textField s0))
  /\ (forall z pre a b post,
        stops f = (pre ++ a :: b :: post)%list ->
        (zoom a <=? z)%float = true -> (z <? zoom b)%float = true ->
        textForZoom f z = Some (textField a))
  /\ (forall z, (zoom sn <=? z)%float = true ->
        textForZoom f z = Some (textField sn)).
Proof.
  intros Hasc Hlen Hhead Hlast.
  unfold textForZoom.
  destruct (stops f) as [|x rest] eqn:Hstops; [discriminate|].
  cbn in Hhead. injection Hhead as ->.
  split; [|split].
  - intros z Hz. now rewrite Hz.
  - intros z pre a b post Heq Ha Hb.
    pose proof (double_leb_refl_l _ _ Ha) as Hrefl.
    destruct pre as [|p pre]; cbn [app] in Heq; injection Heq as -> ->.
    + destruct (z <=? zoom a)%float; [reflexivity|].
      cbn [textForZoom_loop]. now rewrite Ha, Hb.
    + assert (Hbelow : forall s, In s (p :: pre ++ [a])%list ->
                (zoom s <=? zoom a)%float = true).
      { apply (ascending_below_last (p :: pre ++ [a])%list a); [| |exact Hrefl].
        - apply (ascending_app_l (p :: pre ++ [a])%list (b :: post)).
          cbn [app]. rewrite <- app_assoc. exact Hasc.
        - change (p :: pre ++ [a])%list with ((p :: pre) ++ [a])%list.
          apply last_snoc. }
      assert (Hlt : (zoom p <? zoom a)%float = true).
      { destruct pre as [|q pre].
        - destruct Hasc as [Hlt _]. exact Hlt.
        - apply (ascending_first_below_last p q (pre ++ [a])%list a);
            [| |exact Hrefl].
          + apply (ascending_app_l (p :: q :: pre ++ [a])%list (b :: post)).
            cbn [app]. rewrite <- app_assoc. exact Hasc.
          + change (p :: q :: pre ++ [a])%list
              with ((p :: q :: pre) ++ [a])%list.
            apply last_snoc. }
      rewrite (double_ltb_leb_false _ _ (double_ltb_leb_trans _ _ _ Hlt Ha)).
      f_equal. apply textForZoom_loop_bracket; [exact Ha|exact Hb|].
      intros s Hs. apply double_leb_ltb_false.
      apply (double_leb_trans _ (zoom a)); [|exact Ha].
      apply Hbelow. now right.
  - intros z Hz.
    destruct rest as [|s1 rest]; [cbn in Hlen; lia|].
    pose proof (double_leb_refl_l _ _ Hz) as Hrefl.
    pose proof (ascending_first_below_last _ _ _ _ Hasc Hlast Hrefl) as Hlt.
    rewrite (double_ltb_leb_false _ _ (double_ltb_leb_trans _ _ _ Hlt Hz)).
    rewrite textForZoom_loop_end.
    + rewrite last_cons_cons in Hlast. now rewrite Hlast.
    + intros s Hs. apply double_leb_ltb_false.
      apply (double_leb_trans _ (zoom sn)); [|exact Hz].
      apply (ascending_below_last (s0 :: s1 :: rest) sn Hasc Hlast Hrefl).
      now right.
Qed.

(** The parsed text stops meet the conditions of C2, which gives "low" at 5
    and at -1, and "high" at 15. *)
Lemma textForZoom_steps_witness :
  textForZoom lowHighStops 5 = Some (literalField "low")
  /\ textForZoom lowHighStops 15 = Some (literalField "high")
  /\ textForZoom lowHighStops (-1) = Some (literalField "low").
Proof.
  destruct (textForZoom_steps lowHighStops
              (mkMaplyVectorFunctionStop 0 0 None (literalField "low"))
              (mkMaplyVectorFunctionStop 10 0 None (literalField "high")))
    as (Hfirst & Hmid & Hlast).
  - vm_compute. split; [reflexivity|exact I].
  - vm_compute. lia.
  - reflexivity.
  - reflexivity.
  - split; [|split].
    + rewrite (Hmid 5%float []
                 (mkMaplyVectorFunctionStop 0 0 None (literalField "low"))
                 (mkMaplyVectorFunctionStop 10 0 None (literalField "high")) []);
        reflexivity.
    + apply Hlast. reflexivity.
    + apply Hfirst. reflexivity.
Defined.

(** ** [trim] *)

Lemma string_app_cons (c : ascii) (s t : string) :
  String c s +:+ t = String c (s +:+ t).
Proof. reflexivity. Qed.

Lemma string_app_nil_l (s : string) : EmptyString +:+ s = s.
Proof. reflexivity. Qed.

Lemma string_app_assoc (s1 s2 s3 : string) :
  (s1 +:+ s2) +:+ s3 = s1 +:+ (s2 +:+ s3).
Proof.
  induction s1 as [|c s1 IH]; [reflexivity|].
  rewrite !string_app_cons. now f_equal.
Qed.

Lemma string_app_nil_r (s : string) : s +:+ EmptyString = s.
Proof.
  induction s as [|c s IH]; [reflexivity|].
  rewrite string_app_cons. now f_equal.
Qed.

Lemma string_of_list_ascii_app (l1 l2 : list ascii) :
  string_of_list_ascii (l1 ++ l2)%list =
  string_of_list_ascii l1 +:+ string_of_list_ascii l2.
Proof.
  induction l1 as [|c l1 IH]; [reflexivity|].
  cbn [app string_of_list_ascii]. rewrite string_app_cons. now f_equal.
Qed.

Lemma list_ascii_of_string_app (s1 s2 : string) :
  list_ascii_of_string (s1 +:+ s2) =
  (list_ascii_of_string s1 ++ list_ascii_of_string s2)%list.
Proof.
  induction s1 as [|c s1 IH]; [reflexivity|].
  rewrite string_app_cons. cbn [app list_ascii_of_string]. now f_equal.
Qed.

Lemma string_forallb_of_list (p : ascii -> bool) (l : list ascii) :
  string_forallb p (string_of_list_ascii l) = forallb p l.
Proof. induction l as [|c l IH]; cbn; [reflexivity | now rewrite IH]. Qed.

(** [drop_spaces] removes a prefix of whitespace and stops at a character
    that is not whitespace. *)
Lemma drop_spaces_spec (l : list ascii) :
  exists sp,
    l = (sp ++ drop_spaces l)%list /\ forallb isspace sp = true
    /\ (forall c l', drop_spaces l = c :: l' -> isspace c = false).
Proof.
  induction l as [|c l (sp & Heq & Hsp & Hhd)].
  - exists []. cbn. repeat split. discriminate.
  - cbn [drop_spaces]. destruct (isspace c) eqn:Hc.
    + exists (c :: sp). cbn. rewrite Hc, Hsp. repeat split; [|exact Hhd].
      now rewrite <- Heq.
    + exists []. cbn. repeat split. intros c' l' [= <- <-]. exact Hc.
Qed.

Lemma trim_right_spec (s : string) :
  exists post,
    s = trim_right s +:+ post
    /\ string_forallb isspace post = true
    /\ (forall c t', trim_right s = t' +:+ String c EmptyString ->
          isspace c = false).
Proof.
  unfold trim_right.
  destruct (drop_spaces_spec (rev (list_ascii_of_string s)))
    as (sp & Heq & Hsp & Hhd).
  exists (string_of_list_ascii (rev sp)). split; [|split].
  - rewrite <- string_of_list_ascii_app, <- rev_app_distr, <- Heq.
    now rewrite rev_involutive, string_of_list_ascii_of_string.
  - rewrite string_forallb_of_list, forallb_forall.
    intros c Hc. apply in_rev in Hc.
    rewrite forallb_forall in Hsp. now apply Hsp.
  - intros c t' Ht.
    apply (f_equal list_ascii_of_string) in Ht.
    rewrite list_ascii_of_string_of_list_ascii, list_ascii_of_string_app in Ht.
    cbn [list_ascii_of_string] in Ht. apply (f_equal (@rev ascii)) in Ht.
    rewrite rev_involutive, rev_app_distr in Ht. cbn [rev app] in Ht.
    exact (Hhd _ _ Ht).
Qed.

Lemma first_nonspace_spec (s : string) :
  match first_nonspace s with
  | Some t =>
      exists pre c t',
        s = pre +:+ t /\ string_forallb isspace pre = true
        /\ t = String c t' /\ isspace c = false
  | None => string_forallb isspace s = true
  end.
Proof.
  induction s as [|c s IH]; [reflexivity|].
  cbn [first_nonspace]. destruct (isspace c) eqn:Hc.
  - destruct (first_nonspace s) as [t|].
    + destruct IH as (pre & c' & t' & Heq & Hpre & Ht & Hc').
      exists (String c pre), c', t'.
      rewrite string_app_cons, <- Heq. cbn [string_forallb].
      rewrite Hc, Hpre. now repeat split.
    + cbn. now rewrite Hc, IH.
  - exists EmptyString, c, s. now repeat split.
Qed.

(** What [trim] leaves starts and ends with a character that is not
    whitespace, and what it took away is whitespace. *)
Lemma trim_is_trimmed (s : string) : is_trimmed_of s (trim s).
Proof.
  unfold trim, trim_left.
  destruct (trim_right_spec s) as (post & Heq & Hpost & Hlast).
  pose proof (first_nonspace_spec (trim_right s)) as Hfirst.
  destruct (first_nonspace (trim_right s)) as [t|].
  - destruct Hfirst as (pre & c & t' & Hr & Hpre & Ht & Hc).
    exists pre, post. split; [|split; [exact Hpre|split; [exact Hpost|split]]].
    + rewrite <- string_app_assoc, <- Hr. exact Heq.
    + intros c0 t0 Ht0. rewrite Ht in Ht0. now injection Ht0 as <- _.
    + intros c0 t0 Ht0.
      apply (Hlast c0 (pre +:+ t0)).
      now rewrite Hr, Ht0, string_app_assoc.
  - destruct (trim_right s) as [|c r] eqn:Hr.
    + exists EmptyString, post. rewrite !string_app_nil_l.
      split; [exact Heq|split; [reflexivity|split; [exact Hpost|]]].
      split; intros c t'; [discriminate | now destruct t'].
    + exfalso.
      assert (Hex : exists t' c', String c r = t' +:+ String c' EmptyString
                                  /\ isspace c' = true).
      { clear - Hfirst. revert c Hfirst.
        induction r as [|d r IH]; intros c H.
        - exists EmptyString, c. cbn [string_forallb] in H.
          split; [reflexivity|]. now destruct (isspace c).
        - cbn [string_forallb] in H. apply andb_prop in H as [Hc Hd].
          destruct (IH d Hd) as (t' & c' & Ht' & Hc').
          exists (String c t'), c'. rewrite string_app_cons.
          now rewrite <- Ht'. }
      destruct Hex as (t' & c' & Ht' & Hc').
      rewrite (Hlast c' t' Ht') in Hc'. discriminate.
Qed.

(** ** [MapboxRegexField::build] *)

Lemma build_keys_spec (attrs : Dictionary) (ks : list string) :
  forall st,
  text (build_keys attrs ks st) = text st +:+ resolve_keys attrs ks
  /\ found (build_keys attrs ks st)
     = found st || existsb (lookup_succeeds attrs) ks
  /\ didLookup (build_keys attrs ks st)
     = didLookup st || match ks with [] => false | _ => true end.
Proof.
  unfold resolve_keys, lookup_succeeds.
  induction ks as [|key ks IH]; intros st.
  - cbn. rewrite string_app_nil_r, !orb_false_r. now repeat split.
  - cbn [build_keys List.find existsb].
    destruct (hasField attrs key) eqn:Hhas; cbn [andb orb].
    + destruct (str_empty (getStringField attrs key)) eqn:Hkv; cbn [negb].
      * destruct (IH (mkBuildState (text st) true true
                        (getStringField attrs key))) as (Ht & Hf & Hd).
        rewrite Ht, Hf, Hd. cbn. rewrite !orb_true_r. now repeat split.
      * cbn. rewrite !orb_true_r. now repeat split.
    + destruct (IH (mkBuildState (text st) (found st) true (keyVal st)))
        as (Ht & Hf & Hd).
      rewrite Ht, Hf, Hd. cbn. rewrite !orb_true_r. now repeat split.
Qed.

Lemma build_fold_spec (attrs : Dictionary) (cs : list MapboxTextChunk) :
  forall st,
  let st' := fold_left (build_chunk attrs) cs st in
  text st' = text st +:+ concat_strings (List.map (chunk_text attrs) cs)
  /\ found st' = found st || some_lookup_succeeded attrs cs
  /\ didLookup st' = didLookup st || lookup_attempted cs.
Proof.
  induction cs as [|c cs IH]; intros st.
  - cbn. rewrite string_app_nil_r, !orb_false_r. now repeat split.
  - cbn [fold_left]. destruct (IH (build_chunk attrs st c)) as (Ht & Hf & Hd).
    cbv zeta. rewrite Ht, Hf, Hd. clear Ht Hf Hd IH.
    cbn [List.map concat_strings fold_right some_lookup_succeeded
         lookup_attempted existsb].
    unfold build_chunk, chunk_text, is_key_chunk.
    destruct (str_empty (str c)) eqn:Hstr; cbn [negb andb orb].
    + destruct (build_keys_spec attrs (keys c) st) as (Ht & Hf & Hd).
      rewrite Ht, Hf, Hd, string_app_assoc, !orb_assoc. now repeat split.
    + cbn. rewrite string_app_assoc. now repeat split.
Qed.

(** C4: [build] concatenates the literal chunks and, for each key chunk,
    the value of the first key of its list whose lookup yields a value that
    is not empty.  When a key lookup was attempted across the template and
    none succeeded the result is the empty string; otherwise it is that
    concatenation without its leading and trailing whitespace.  The
    template "{name}" builds "Paris" from [name = "Paris"], and the empty
    string from attributes without the field. *)
Theorem build_correct :
  (forall (f : MapboxRegexField) (attrs : Dictionary),
     let pieces := concat_strings (List.map (chunk_text attrs) (chunks f)) in
     (lookup_attempted (chunks f) = true ->
      some_lookup_succeeded attrs (chunks f) = false ->
      build f attrs = EmptyString)
     /\ ((lookup_attempted (chunks f) = false
          \/ some_lookup_succeeded attrs (chunks f) = true) ->
         build f attrs = trim pieces /\ is_trimmed_of pieces (build f attrs)))
  /\ build nameTemplate parisAttrs = "Paris"
  /\ (forall attrs : Dictionary,
        hasField attrs "name" = false -> build nameTemplate attrs = EmptyString).
Proof.
  split; [|split].
  - intros f attrs pieces. unfold build.
    destruct (build_fold_spec attrs (chunks f)
                (mkBuildState EmptyString false false EmptyString))
      as (Ht & Hf & Hd).
    cbv zeta in Ht, Hf, Hd. rewrite Ht, Hf, Hd. cbn [text found didLookup orb].
    rewrite string_app_nil_l. fold pieces. split.
    + intros -> ->. reflexivity.
    + intros Hor.
      assert (Hgo : lookup_attempted (chunks f)
                    && negb (some_lookup_succeeded attrs (chunks f)) = false).
      { destruct Hor as [-> | ->]; [reflexivity | apply andb_false_r]. }
      rewrite Hgo. split; [reflexivity | apply trim_is_trimmed].
  - reflexivity.
  - intros attrs Hno. unfold build.
    assert (E : chunks nameTemplate = [mkMapboxTextChunk EmptyString ["name"]])
      by reflexivity.
    rewrite E.
    cbn [fold_left build_chunk str keys str_empty negb build_keys].
    rewrite Hno. reflexivity.
Qed.

(** A field that is present with an empty value counts as a lookup that
    succeeded: the literal parts are kept. *)
Example build_present_but_empty :
  build (snd (MapboxRegexField_parse MapboxRegexField_new "Hello {name}"))
    (dictOfMap (<["name" := entryString EmptyString]> ∅)) = "Hello".
Proof. reflexivity. Qed.

(** ** [MapboxRegexField::parse] *)

Lemma string_forallb_app (p : ascii -> bool) (s t : string) :
  string_forallb p (s +:+ t) = string_forallb p s && string_forallb p t.
Proof.
  induction s as [|c s IH]; [reflexivity|].
  rewrite string_app_cons. cbn [string_forallb]. now rewrite IH, andb_assoc.
Qed.

(** A text with a colon in it is not made of word characters. *)
Lemma word_plus_end_colon (pre suf : string) :
  word_plus_end (colon_key pre suf) = false.
Proof.
  unfold word_plus_end, colon_key. rewrite string_forallb_app.
  cbn [string_forallb]. change (is_word ":") with false.
  now rewrite andb_false_r, andb_false_r.
Qed.

(** The search finds the colon of [pre:suf]. *)
Lemma colonPattern_search_colon_key (pre suf : string) :
  word_plus_end suf = true ->
  colonPattern_search (colon_key pre suf) = Some (String.length pre).
Proof.
  intros Hsuf. induction pre as [|c pre IH].
  - unfold colon_key. rewrite string_app_nil_l. cbn [colonPattern_search].
    now rewrite Hsuf.
  - unfold colon_key. rewrite string_app_cons. cbn [colonPattern_search].
    fold (colon_key pre suf). rewrite word_plus_end_colon, andb_false_r.
    now rewrite IH.
Qed.

Lemma string_set_colon_key (pre suf : string) :
  string_set (String.length pre) "_" (colon_key pre suf)
  = underscore_key pre suf.
Proof.
  unfold colon_key, underscore_key.
  induction pre as [|c pre IH]; [reflexivity|].
  rewrite !string_app_cons. cbn [String.length string_set]. now f_equal.
Qed.

Lemma parse_chunk_colon_key (pre suf : string) :
  word_plus_end suf = true ->
  parse_chunk false (colon_key pre suf)
  = mkMapboxTextChunk EmptyString
      [colon_key pre suf; underscore_key pre suf].
Proof.
  intros Hsuf. unfold parse_chunk.
  now rewrite colonPattern_search_colon_key, string_set_colon_key.
Qed.

(** Every chunk of a parsed template was made from a token by
    [parse_chunk]. *)
Lemma parse_tokens_chunks (toks : list string) :
  forall isJustText c,
  In c (parse_tokens toks isJustText) ->
  exists b tok, c = parse_chunk b tok.
Proof.
  induction toks as [|tok toks IH]; intros b c Hin; [destruct Hin|].
  cbn [parse_tokens] in Hin.
  destruct (String.length tok =? 0)%nat.
  - exact (IH _ _ Hin).
  - destruct Hin as [<-|Hin]; [now exists b, tok | exact (IH _ _ Hin)].
Qed.

Lemma parse_chunk_first_key (b : bool) (tok key : string) :
  head (keys (parse_chunk b tok)) = Some key -> b = false /\ tok = key.
Proof.
  unfold parse_chunk. destruct b; [discriminate|].
  destruct (colonPattern_search tok); cbn; intros [= ->]; now split.
Qed.

(** C9: when a key segment of a template has a trailing colon-prefixed
    suffix ([pre:suf], the suffix made of word characters), parsing stores
    two lookup keys for its chunk, the key itself and then [pre_suf]; and
    when the attributes only have the underscore form, [build] resolves
    the chunk to its value. *)
Theorem parse_colon_fallback (pre suf : string) :
  word_plus_end suf = true ->
  forall (textField : string) (c : MapboxTextChunk),
  let f := snd (MapboxRegexField_parse MapboxRegexField_new textField) in
  In c (chunks f) ->
  head (keys c) = Some (colon_key pre suf) ->
  (str c = EmptyString
   /\ keys c = [colon_key pre suf; underscore_key pre suf])
  /\ (forall attrs : Dictionary,
        hasField attrs (colon_key pre suf) = false ->
        hasField attrs (underscore_key pre suf) = true ->
        getStringField attrs (underscore_key pre suf) <> EmptyString ->
        chunk_text attrs c = getStringField attrs (underscore_key pre suf)
        /\ build f attrs
           = trim (concat_strings (List.map (chunk_text attrs) (chunks f)))).
Proof.
  intros Hsuf textField c f Hin Hkey.
  assert (Hc : c = mkMapboxTextChunk EmptyString
                     [colon_key pre suf; underscore_key pre suf]).
  { unfold f, MapboxRegexField_parse in Hin. cbn [snd chunks app] in Hin.
    destruct (parse_tokens_chunks _ _ _ Hin) as (b & tok & ->).
    destruct (parse_chunk_first_key _ _ _ Hkey) as [-> ->].
    now apply parse_chunk_colon_key. }
  split; [now rewrite Hc|].
  intros attrs Hno Hyes Hval.
  assert (Hne : str_empty (getStringField attrs (underscore_key pre suf)) = false).
  { now destruct (getStringField attrs (underscore_key pre suf)). }
  split.
  - rewrite Hc. unfold chunk_text, resolve_keys, lookup_succeeds.
    cbn [is_key_chunk str str_empty keys List.find].
    now rewrite Hno, Hyes, Hne.
  - unfold build.
    destruct (build_fold_spec attrs (chunks f)
                (mkBuildState EmptyString false false EmptyString))
      as (Ht & Hf & Hd).
    cbv zeta in Ht, Hf, Hd. rewrite Ht, Hf, Hd.
    cbn [text found didLookup orb]. rewrite string_app_nil_l.
    assert (Hsome : some_lookup_succeeded attrs (chunks f) = true).
    { unfold some_lookup_succeeded. apply existsb_exists. exists c.
      split; [exact Hin|]. rewrite Hc. unfold lookup_succeeds.
      cbn [is_key_chunk str str_empty keys existsb andb].
      now rewrite Hyes, orb_true_r. }
    now rewrite Hsome, andb_false_r.
Qed.

(** "{name:en}" has the chunk with the keys "name:en" and "name_en", and
    builds "Paris" from attributes that only have "name_en". *)
Lemma parse_colon_fallback_witness :
  keys (mkMapboxTextChunk EmptyString ["name:en"; "name_en"])
  = ["name:en"; "name_en"]
  /\ build nameEnTemplate nameEnAttrs = "Paris".
Proof.
  destruct (parse_colon_fallback "name" "en" eq_refl "{name:en}"
              (mkMapboxTextChunk EmptyString ["name:en"; "name_en"]))
    as [[_ Hkeys] Hbuild].
  - vm_compute. now left.
  - reflexivity.
  - split; [exact Hkeys|].
    destruct (Hbuild nameEnAttrs) as [_ Hb].
    + reflexivity.
    + reflexivity.
    + discriminate.
    + unfold nameEnTemplate. rewrite Hb. reflexivity.
Defined.

(** ** [parseColor] *)

(** A component that ends at a separator is one token. *)
Lemma token_scan_component (t rest tok : string) (sep : ascii)
    (inMatch matched : bool) :
  is_component t = true -> is_color_separator sep = true ->
  token_scan is_color_separator false (t +:+ String sep rest) tok
    inMatch matched
  = (tok +:+ t) :: token_scan is_color_separator false rest EmptyString
                     true true.
Proof.
  intros Ht Hsep. revert tok inMatch matched.
  induction t as [|c t IH]; intros tok inMatch matched.
  - rewrite string_app_nil_l, string_app_nil_r. cbn [token_scan].
    now rewrite Hsep.
  - cbn [is_component string_forallb] in Ht.
    apply andb_prop in Ht as [Hc Ht].
    rewrite string_app_cons. cbn [token_scan].
    apply negb_true_iff in Hc. rewrite Hc.
    rewrite (IH Ht). unfold push_back.
    now rewrite string_app_assoc, string_app_cons, string_app_nil_l.
Qed.

Lemma rgba_tokens (tr tg tb ta : string) :
  is_component tr = true -> is_component tg = true ->
  is_component tb = true -> is_component ta = true ->
  colorSeparatorPattern_tokens (string_drop 5 (rgba_text tr tg tb ta))
  = [tr; tg; tb; ta].
Proof.
  intros Hr Hg Hb Ha.
  unfold colorSeparatorPattern_tokens, regex_tokens, rgba_text.
  change (string_drop 5 ("rgba(" +:+ ?s)) with s.
  rewrite (token_scan_component tr), (token_scan_component tg),
    (token_scan_component tb), (token_scan_component ta) by easy.
  reflexivity.
Qed.

Lemma bind_ret {A B : Type} (x : A) (k : A -> M B) (m : M A) :
  m = ret x -> bind m k = k x.
Proof.
  intros ->. unfold bind, ret. now destruct (k x) as [l r0].
Qed.

Lemma double_to_int_defined (d : float) (t : Z) :
  integer_part d = Some t -> INT_MIN <= t <= INT_MAX -> double_to_int d = t.
Proof.
  intros Hd [Hlo Hhi]. unfold double_to_int. rewrite Hd.
  destruct (Z.ltb_spec t INT_MIN) as [Hlt|_]; [lia|].
  destruct (Z.ltb_spec INT_MAX t) as [Hgt|_]; [lia|]. reflexivity.
Qed.

(** C7, as the code has it: for "rgba(r,g,b,a)" without alpha
    multiplication, where [std::stod] answers [alpha] for the fourth
    component (it throws when [strtod] reports a range error) and the
    integer part [t] of [255.0 * alpha] is an [int] (as it is for a
    fraction in [0,1]; the conversion is undefined otherwise), the alpha
    channel is [t] held in 8 bits: the product with its fraction cut off,
    not the product rounded; "rgba(1,2,3,0.5)" has alpha 127. *)
Theorem parseColor_rgba_alpha (tr tg tb ta inName : string)
    (defVal : RGBAColorRef) (red green blue : Z) (alpha : float) (t : Z) :
  is_component tr = true -> is_component tg = true ->
  is_component tb = true -> is_component ta = true ->
  stoi tr = ret red -> stoi tg = ret green -> stoi tb = ret blue ->
  stod ta = ret alpha ->
  integer_part (255 * alpha) = Some t -> INT_MIN <= t <= INT_MAX ->
  parseColor (rgba_text tr tg tb ta) inName defVal false
  = ret (Some (mkRGBAColor (uint8 red) (uint8 green) (uint8 blue) (uint8 t))).
Proof.
  intros Hr Hg Hb Ha Sr Sg Sb Sa Ht Hrange.
  unfold parseColor.
  assert (H1 : str_empty (rgba_text tr tg tb ta) = false) by reflexivity.
  assert (H2 : Ascii.eqb (first_char (rgba_text tr tg tb ta)) "#" = false)
    by reflexivity.
  assert (H3 : starts_with "rgb(" (rgba_text tr tg tb ta) = false)
    by (now cbv).
  assert (H4 : starts_with "rgba(" (rgba_text tr tg tb ta) = true).
  { unfold starts_with, rgba_text.
    generalize (tr +:+ String "," (tg +:+ String "," (tb +:+ String ","
                  (ta +:+ ")")))).
    intros s. cbv -[String.append]. now destruct s. }
  rewrite H1, H2, H3, H4.
  rewrite rgba_tokens by assumption.
  cbn [length Nat.eqb negb nth_tok nth].
  rewrite (bind_ret red _ _ Sr), (bind_ret green _ _ Sg),
    (bind_ret blue _ _ Sb), (bind_ret alpha _ _ Sa).
  unfold RGBAColor_ints. now rewrite (double_to_int_defined _ t Ht Hrange).
Qed.

(** "rgba(1,2,3,0.5)": alpha is the integer part of 127.5. *)
Lemma parseColor_rgba_alpha_witness :
  parseColor "rgba(1,2,3,0.5)" "fill-color" None false
  = ret (Some (mkRGBAColor 1 2 3 127)).
Proof.
  refine (parseColor_rgba_alpha "1" "2" "3" "0.5" "fill-color" None 1 2 3
            0.5%float 127 eq_refl eq_refl eq_refl eq_refl eq_refl eq_refl
            eq_refl eq_refl eq_refl _).
  split; discriminate.
Defined.

(** The fourth component "1e-310" is a fraction in [0,1] that [strtod]
    reports as an underflow: [std::stod] throws, and [parseColor] with
    it. *)
Example parseColor_rgba_underflow_throws :
  parseColor "rgba(1,2,3,1e-310)" "fill-color" None false
  = ([], inl (out_of_range "stod")).
Proof. vm_compute. reflexivity. Qed.

(** The alpha channel of "rgba(1,2,3,0.5)" is not 128. *)
Lemma parseColor_rgba_half_not_128 :
  ~ (exists c : RGBAColor,
       outcome (parseColor "rgba(1,2,3,0.5)" "fill-color" None false)
       = inr (Some c)
       /\ r c = 1 /\ g c = 2 /\ b c = 3 /\ a c = 128).
Proof.
  intros (c & Hc & _ & _ & _ & Ha).
  vm_compute in Hc. injection Hc as <-. discriminate Ha.
Qed.

(** C6, where the code departs from it: a component of "rgb(...)" that is
    not a number makes [std::stoi] throw, and nothing in [parseColor]
    catches the exception: no warning is logged and no default is
    returned. *)
Theorem parseColor_rgb_nonnumeric_throws (inName : string)
    (defVal : RGBAColorRef) (multiplyAlpha : bool) :
  parseColor "rgb(a,b,c)" inName defVal multiplyAlpha
  = ([], inl (invalid_argument "stoi")).
Proof. reflexivity. Qed.

(** Other texts outside the accepted forms are taken for colours: a hex
    text with a space or a sign after the "#", and an "rgb(" that is never
    closed. *)
Example parseColor_accepts_malformed :
  outcome (parseColor "# 12" "c" None false)
  = inr (Some (mkRGBAColor 0 17 34 255))
  /\ outcome (parseColor "#+12" "c" None false)
     = inr (Some (mkRGBAColor 0 17 34 255))
  /\ outcome (parseColor "rgb(1,2,3" "c" None false)
     = inr (Some (mkRGBAColor 1 2 3 255)).
Proof. repeat split; reflexivity. Qed.

(** *** Hexadecimal colours *)

Lemma hex_digit_facts (c : ascii) (v : Z) :
  hex_digit c = Some v ->
  0 <= v < 16 /\ isspace c = false
  /\ Ascii.eqb c "-" = false /\ Ascii.eqb c "+" = false
  /\ Ascii.eqb c "x" = false /\ Ascii.eqb c "X" = false.
Proof.
  destruct c as [[] [] [] [] [] [] [] []]; vm_compute; intros H;
    solve [discriminate H
          | injection H as <-; repeat split; discriminate].
Qed.

Lemma read_digits_hex (s : string) :
  forall acc v, hex_value s acc = Some v ->
  read_digits hex_digit 16 s acc = (v, String.length s, EmptyString).
Proof.
  induction s as [|c s IH]; intros acc v H; cbn in H |- *.
  - now injection H as <-.
  - destruct (hex_digit c) as [d|]; [|discriminate].
    now rewrite (IH _ _ H).
Qed.

(** [strtoul] reads a text of hexadecimal digits to its end. *)
Lemma strtoul16_hex (c : ascii) (s : string) (v : Z) :
  hex_value (String c s) 0 = Some v -> 0 <= v <= ULONG_MAX ->
  strtoul16 (String c s) = (v, String.length (String c s)).
Proof.
  intros Hv Hmax. unfold strtoul16.
  pose proof Hv as Hc. cbn [hex_value] in Hc.
  destruct (hex_digit c) as [d|] eqn:Hd; [|discriminate].
  destruct (hex_digit_facts c d Hd) as (_ & Hsp & Hminus & Hplus & _ & _).
  assert (Hpre : hex_prefix (String c s) = false).
  { destruct s as [|c1 [|c2 s]]; try reflexivity.
    cbn [hex_value] in Hc.
    destruct (hex_digit c1) as [d1|] eqn:Hd1; [|discriminate].
    destruct (hex_digit_facts c1 d1 Hd1) as (_ & _ & _ & _ & Hx & HX).
    cbn [hex_prefix]. now rewrite Hx, HX, andb_false_r. }
  cbn [skip_spaces]. rewrite Hsp. cbv iota beta.
  cbn [read_sign]. rewrite Hminus, Hplus. cbv iota beta.
  rewrite Hpre. cbv iota beta. rewrite (read_digits_hex _ _ _ Hv).
  cbv iota beta. cbn [String.length Nat.add].
  destruct (Z.ltb_spec ULONG_MAX v); [lia | reflexivity].
Qed.

Lemma nibble_dup (v : Z) :
  0 <= v < 16 -> uint8 (Z.lor v (Z.shiftl v 4)) = 17 * v.
Proof.
  intros H.
  assert (E : v = 0 \/ v = 1 \/ v = 2 \/ v = 3 \/ v = 4 \/ v = 5 \/ v = 6
              \/ v = 7 \/ v = 8 \/ v = 9 \/ v = 10 \/ v = 11 \/ v = 12
              \/ v = 13 \/ v = 14 \/ v = 15) by lia.
  repeat (destruct E as [-> | E]; [reflexivity|]). now subst.
Qed.

Lemma land_15 (x : Z) : Z.land x 15 = x mod 16.
Proof. change 15 with (Z.ones 4). now rewrite Z.land_ones. Qed.

Lemma land_255 (x : Z) : Z.land x 255 = x mod 256.
Proof. change 255 with (Z.ones 8). now rewrite Z.land_ones. Qed.

Ltac hex_arith :=
  rewrite ?land_15, ?land_255, ?Z.shiftr_div_pow2 by lia;
  change (2 ^ 4) with 16; change (2 ^ 8) with 256;
  change (2 ^ 12) with 4096; change (2 ^ 16) with 65536;
  change (2 ^ 24) with 16777216.

(** The four hexadecimal forms, by the values of their digits. *)
Lemma parseColor_hex3 (c1 c2 c3 : ascii) (v1 v2 v3 : Z) (inName : string)
    (defVal : RGBAColorRef) (m : bool) :
  hex_digit c1 = Some v1 -> hex_digit c2 = Some v2 ->
  hex_digit c3 = Some v3 ->
  parseColor (hex3 c1 c2 c3) inName defVal m
  = ret (Some (hex_color m (17 * v1) (17 * v2) (17 * v3) 255)).
Proof.
  intros H1 H2 H3.
  destruct (hex_digit_facts _ _ H1) as (B1 & _).
  destruct (hex_digit_facts _ _ H2) as (B2 & _).
  destruct (hex_digit_facts _ _ H3) as (B3 & _).
  unfold parseColor, hex3.
  cbn [str_empty first_char string_drop]. change (Ascii.eqb "#" "#") with true.
  cbv iota.
  rewrite (strtoul16_hex _ _ ((v1 * 16 + v2) * 16 + v3));
    [| cbn [hex_value]; now rewrite H1, H2, H3 | unfold ULONG_MAX; lia].
  cbn [String.length Nat.eqb negb].
  rewrite (Z.mod_small _ (2 ^ 32)) by lia.
  hex_arith.
  replace ((((v1 * 16 + v2) * 16 + v3) / 256) mod 16) with v1
    by (Z.div_mod_to_equations; lia).
  replace ((((v1 * 16 + v2) * 16 + v3) / 16) mod 16) with v2
    by (Z.div_mod_to_equations; lia).
  replace (((v1 * 16 + v2) * 16 + v3) mod 16) with v3
    by (Z.div_mod_to_equations; lia).
  rewrite !nibble_dup by assumption.
  unfold hex_color. now destruct m.
Qed.

Lemma parseColor_hex4 (c1 c2 c3 c4 : ascii) (v1 v2 v3 v4 : Z)
    (inName : string) (defVal : RGBAColorRef) (m : bool) :
  hex_digit c1 = Some v1 -> hex_digit c2 = Some v2 ->
  hex_digit c3 = Some v3 -> hex_digit c4 = Some v4 ->
  parseColor (hex4 c1 c2 c3 c4) inName defVal m
  = ret (Some (hex_color m (17 * v1) (17 * v2) (17 * v3) (17 * v4))).
Proof.
  intros H1 H2 H3 H4.
  destruct (hex_digit_facts _ _ H1) as (B1 & _).
  destruct (hex_digit_facts _ _ H2) as (B2 & _).
  destruct (hex_digit_facts _ _ H3) as (B3 & _).
  destruct (hex_digit_facts _ _ H4) as (B4 & _).
  unfold parseColor, hex4.
  cbn [str_empty first_char string_drop]. change (Ascii.eqb "#" "#") with true.
  cbv iota.
  rewrite (strtoul16_hex _ _ (((v1 * 16 + v2) * 16 + v3) * 16 + v4));
    [| cbn [hex_value]; now rewrite H1, H2, H3, H4 | unfold ULONG_MAX; lia].
  cbn [String.length Nat.eqb negb].
  rewrite (Z.mod_small _ (2 ^ 32)) by lia.
  hex_arith.
  replace (((((v1 * 16 + v2) * 16 + v3) * 16 + v4) / 4096) mod 16) with v1
    by (Z.div_mod_to_equations; lia).
  replace (((((v1 * 16 + v2) * 16 + v3) * 16 + v4) / 256) mod 16) with v2
    by (Z.div_mod_to_equations; lia).
  replace (((((v1 * 16 + v2) * 16 + v3) * 16 + v4) / 16) mod 16) with v3
    by (Z.div_mod_to_equations; lia).
  replace ((((v1 * 16 + v2) * 16 + v3) * 16 + v4) mod 16) with v4
    by (Z.div_mod_to_equations; lia).
  rewrite !nibble_dup by assumption.
  unfold hex_color. now destruct m.
Qed.

Lemma parseColor_hex6 (c1 c2 c3 c4 c5 c6 : ascii) (v1 v2 v3 v4 v5 v6 : Z)
    (inName : string) (defVal : RGBAColorRef) (m : bool) :
  hex_digit c1 = Some v1 -> hex_digit c2 = Some v2 ->
  hex_digit c3 = Some v3 -> hex_digit c4 = Some v4 ->
  hex_digit c5 = Some v5 -> hex_digit c6 = Some v6 ->
  parseColor (hex6 c1 c2 c3 c4 c5 c6) inName defVal m
  = ret (Some (hex_color m (16 * v1 + v2) (16 * v3 + v4) (16 * v5 + v6) 255)).
Proof.
  intros H1 H2 H3 H4 H5 H6.
  destruct (hex_digit_facts _ _ H1) as (B1 & _).
  destruct (hex_digit_facts _ _ H2) as (B2 & _).
  destruct (hex_digit_facts _ _ H3) as (B3 & _).
  destruct (hex_digit_facts _ _ H4) as (B4 & _).
  destruct (hex_digit_facts _ _ H5) as (B5 & _).
  destruct (hex_digit_facts _ _ H6) as (B6 & _).
  unfold parseColor, hex6.
  cbn [str_empty first_char string_drop]. change (Ascii.eqb "#" "#") with true.
  cbv iota.
  rewrite (strtoul16_hex _ _
             (((((v1 * 16 + v2) * 16 + v3) * 16 + v4) * 16 + v5) * 16 + v6));
    [| cbn [hex_value]; now rewrite H1, H2, H3, H4, H5, H6
     | unfold ULONG_MAX; lia].
  cbn [String.length Nat.eqb negb].
  rewrite (Z.mod_small _ (2 ^ 32)) by lia.
  hex_arith.
  replace ((((((((v1 * 16 + v2) * 16 + v3) * 16 + v4) * 16 + v5) * 16 + v6)
             / 65536) mod 256)) with (16 * v1 + v2)
    by (Z.div_mod_to_equations; lia).
  replace ((((((((v1 * 16 + v2) * 16 + v3) * 16 + v4) * 16 + v5) * 16 + v6)
             / 256) mod 256)) with (16 * v3 + v4)
    by (Z.div_mod_to_equations; lia).
  replace (((((((v1 * 16 + v2) * 16 + v3) * 16 + v4) * 16 + v5) * 16 + v6)
            mod 256)) with (16 * v5 + v6)
    by (Z.div_mod_to_equations; lia).
  unfold hex_color. now destruct m.
Qed.

Lemma parseColor_hex8 (c1 c2 c3 c4 c5 c6 c7 c8 : ascii)
    (v1 v2 v3 v4 v5 v6 v7 v8 : Z)
    (inName : string) (defVal : RGBAColorRef) (m : bool) :
  hex_digit c1 = Some v1 -> hex_digit c2 = Some v2 ->
  hex_digit c3 = Some v3 -> hex_digit c4 = Some v4 ->
  hex_digit c5 = Some v5 -> hex_digit c6 = Some v6 ->
  hex_digit c7 = Some v7 -> hex_digit c8 = Some v8 ->
  parseColor (hex8 c1 c2 c3 c4 c5 c6 c7 c8) inName defVal m
  = ret (Some (hex_color m (16 * v1 + v2) (16 * v3 + v4) (16 * v5 + v6)
                 (16 * v7 + v8))).
Proof.
  intros H1 H2 H3 H4 H5 H6 H7 H8.
  destruct (hex_digit_facts _ _ H1) as (B1 & _).
  destruct (hex_digit_facts _ _ H2) as (B2 & _).
  destruct (hex_digit_facts _ _ H3) as (B3 & _).
  destruct (hex_digit_facts _ _ H4) as (B4 & _).
  destruct (hex_digit_facts _ _ H5) as (B5 & _).
  destruct (hex_digit_facts _ _ H6) as (B6 & _).
  destruct (hex_digit_facts _ _ H7) as (B7 & _).
  destruct (hex_digit_facts _ _ H8) as (B8 & _).
  unfold parseColor, hex8.
  cbn [str_empty first_char string_drop]. change (Ascii.eqb "#" "#") with true.
  cbv iota.
  set (v := ((((((v1 * 16 + v2) * 16 + v3) * 16 + v4) * 16 + v5) * 16 + v6)
             * 16 + v7) * 16 + v8).
  rewrite (strtoul16_hex _ _ v);
    [| cbn [hex_value]; now rewrite H1, H2, H3, H4, H5, H6, H7, H8
     | unfold ULONG_MAX, v; lia].
  cbn [String.length Nat.eqb negb].
  rewrite (Z.mod_small _ (2 ^ 32)) by (unfold v; lia).
  hex_arith.
  replace ((v / 16777216) mod 256) with (16 * v1 + v2)
    by (unfold v; Z.div_mod_to_equations; lia).
  replace ((v / 65536) mod 256) with (16 * v3 + v4)
    by (unfold v; Z.div_mod_to_equations; lia).
  replace ((v / 256) mod 256) with (16 * v5 + v6)
    by (unfold v; Z.div_mod_to_equations; lia).
  replace (v mod 256) with (16 * v7 + v8)
    by (unfold v; Z.div_mod_to_equations; lia).
  unfold hex_color. now destruct m.
Qed.

(** C8: the short hexadecimal forms duplicate each digit.  "#RGB" is the
    colour of "#RRGGBB" and "#RGBA" that of "#RRGGBBAA", with or without
    alpha multiplication; and without it the alpha channel of "#RGB" and of
    "#RRGGBB" is 255. *)
Theorem parseColor_hex_short (c1 c2 c3 c4 c5 c6 : ascii)
    (v1 v2 v3 v4 v5 v6 : Z) (inName : string) (defVal : RGBAColorRef) :
  hex_digit c1 = Some v1 -> hex_digit c2 = Some v2 ->
  hex_digit c3 = Some v3 -> hex_digit c4 = Some v4 ->
  hex_digit c5 = Some v5 -> hex_digit c6 = Some v6 ->
  (forall m : bool,
     parseColor (hex3 c1 c2 c3) inName defVal m
     = parseColor (hex6 c1 c1 c2 c2 c3 c3) inName defVal m)
  /\ (forall m : bool,
        parseColor (hex4 c1 c2 c3 c4) inName defVal m
        = parseColor (hex8 c1 c1 c2 c2 c3 c3 c4 c4) inName defVal m)
  /\ parseColor (hex3 c1 c2 c3) inName defVal false
     = ret (Some (mkRGBAColor (16 * v1 + v1) (16 * v2 + v2) (16 * v3 + v3)
                    255))
  /\ parseColor (hex4 c1 c2 c3 c4) inName defVal false
     = ret (Some (mkRGBAColor (16 * v1 + v1) (16 * v2 + v2) (16 * v3 + v3)
                    (16 * v4 + v4)))
  /\ parseColor (hex6 c1 c2 c3 c4 c5 c6) inName defVal false
     = ret (Some (mkRGBAColor (16 * v1 + v2) (16 * v3 + v4) (16 * v5 + v6)
                    255)).
Proof.
  intros H1 H2 H3 H4 H5 H6.
  destruct (hex_digit_facts _ _ H1) as (B1 & _).
  destruct (hex_digit_facts _ _ H2) as (B2 & _).
  destruct (hex_digit_facts _ _ H3) as (B3 & _).
  destruct (hex_digit_facts _ _ H4) as (B4 & _).
  destruct (hex_digit_facts _ _ H5) as (B5 & _).
  destruct (hex_digit_facts _ _ H6) as (B6 & _).
  assert (U : forall x, 0 <= x < 256 -> uint8 x = x)
    by (intros x Hx; apply Z.mod_small; exact Hx).
  repeat split.
  - intros m.
    rewrite (parseColor_hex3 c1 c2 c3 v1 v2 v3),
      (parseColor_hex6 c1 c1 c2 c2 c3 c3 v1 v1 v2 v2 v3 v3) by assumption.
    do 3 f_equal; lia.
  - intros m.
    rewrite (parseColor_hex4 c1 c2 c3 c4 v1 v2 v3 v4),
      (parseColor_hex8 c1 c1 c2 c2 c3 c3 c4 c4 v1 v1 v2 v2 v3 v3 v4 v4)
      by assumption.
    do 3 f_equal; lia.
  - rewrite (parseColor_hex3 c1 c2 c3 v1 v2 v3) by assumption.
    unfold hex_color, RGBAColor_ints. rewrite !U by lia.
    do 3 f_equal; lia.
  - rewrite (parseColor_hex4 c1 c2 c3 c4 v1 v2 v3 v4) by assumption.
    unfold hex_color, RGBAColor_ints. rewrite !U by lia.
    do 3 f_equal; lia.
  - rewrite (parseColor_hex6 c1 c2 c3 c4 c5 c6 v1 v2 v3 v4 v5 v6)
      by assumption.
    unfold hex_color, RGBAColor_ints. now rewrite !U by lia.
Qed.

(** "#abc" is the colour of "#aabbcc". *)
Lemma parseColor_hex_short_witness :
  parseColor "#abc" "fill-color" None false
  = parseColor "#aabbcc" "fill-color" None false
  /\ parseColor "#abc" "fill-color" None true
     = parseColor "#aabbcc" "fill-color" None true
  /\ parseColor "#abc" "fill-color" None false
     = ret (Some (mkRGBAColor 170 187 204 255)).
Proof.
  destruct (parseColor_hex_short "a" "b" "c" "d" "e" "f" 10 11 12 13 14 15
              "fill-color" None eq_refl eq_refl eq_refl eq_refl eq_refl
              eq_refl) as (H36 & _ & H3 & _ & _).
  split; [exact (H36 false) | split; [exact (H36 true) | exact H3]].
Defined.

(** ** [transDouble] and [transColor] *)

(** A nested object without "stops" fails to parse as a stop function. *)
Lemma parse_noStops_fails :
  MaplyVectorFunctionStops_parse MaplyVectorFunctionStops_new
    (getDict noStopsEntry) false
  = ([(Warn, "Expecting at least two arguments for function stops.")],
     inr (false, mkMaplyVectorFunctionStops [] 1)).
Proof. reflexivity. Qed.

(** [transColor] tests the result of the parse: when it failed, the
    warning is logged and the result is null. *)
Lemma transColor_failed_parse (valName : string) (d : Dictionary)
    (theEntry : DictionaryEntry) (defVal : option RGBAColor)
    (log : list (WKLogLevel * string)) (s : MaplyVectorFunctionStops) :
  getEntry d valName = Some theEntry ->
  getType theEntry = DictTypeDictionary ->
  MaplyVectorFunctionStops_parse MaplyVectorFunctionStops_new
    (getDict theEntry) false = (log, inr (false, s)) ->
  transColor valName (Some d) defVal
  = ((log ++ [(Warn, "Expecting key word 'stops' in entry " +:+ valName)])%list,
     inr None).
Proof.
  intros He Hty Hparse. unfold transColor. rewrite He, Hty.
  cbn [DictionaryType_eqb]. rewrite Hparse. reflexivity.
Qed.

(** [transDouble] drops the result of the parse: whatever it was, the
    value is backed by the stop function as the parse left it. *)
Lemma transDouble_ignores_parse_result (name : string)
    (theEntry : DictionaryEntry) (defVal : float)
    (log : list (WKLogLevel * string)) (ok : bool)
    (s : MaplyVectorFunctionStops) :
  getType theEntry = DictTypeDictionary ->
  MaplyVectorFunctionStops_parse MaplyVectorFunctionStops_new
    (getDict theEntry) false = (log, inr (ok, s)) ->
  transDouble name (Some theEntry) defVal
  = (log, inr (Some (MapboxTransDouble.ofStops (Some s)))).
Proof.
  intros Hty Hparse. unfold transDouble. rewrite Hty.
  cbn [DictionaryType_eqb]. rewrite Hparse. cbn. now rewrite app_nil_r.
Qed.

(** C5, where the code departs from it: for a nested object that fails to
    parse as a stop function (here one without "stops"), [transColor]
    warns and answers null, but [transDouble] answers a value backed by
    the stop function of the failed parse, without a stop, and does not
    log its own warning. *)
Theorem transDouble_failed_parse_is_stop_backed :
  outcome (MaplyVectorFunctionStops_parse MaplyVectorFunctionStops_new
             (getDict noStopsEntry) false)
  = inr (false, mkMaplyVectorFunctionStops [] 1)
  /\ transDouble "style" (Some noStopsEntry) 3
     = ([(Warn, "Expecting at least two arguments for function stops.")],
        inr (Some (MapboxTransDouble.ofStops
                     (Some (mkMaplyVectorFunctionStops [] 1)))))
  /\ transColor "fill-color" (Some noStopsPaint) None
     = ([(Warn, "Expecting at least two arguments for function stops.");
         (Warn, "Expecting key word 'stops' in entry fill-color")],
        inr None).
Proof. repeat split; reflexivity. Qed.

(** ** The layer index *)

Section StyleSetProperties.

Context {MapboxVectorFilter : Type}.
Variable testFeature :
  MapboxVectorFilter -> Dictionary -> QuadTreeIdentifier -> bool.
Variable VectorStyleLayer :
  @MapboxVectorStyleSetImpl MapboxVectorFilter -> Dictionary -> Z ->
  (exception + option (@MapboxVectorStyleLayer MapboxVectorFilter)) * Z.
Variable insert_position :
  @MapboxVectorStyleSetImpl MapboxVectorFilter ->
  @MapboxVectorStyleLayer MapboxVectorFilter -> nat.

Abbreviation Layer := (@MapboxVectorStyleLayer MapboxVectorFilter).
Abbreviation StyleSet := (@MapboxVectorStyleSetImpl MapboxVectorFilter).

Lemma insert_at_Permutation (pos : nat) (v : Layer) (l : list Layer) :
  Permutation (insert_at pos v l) (l ++ [v])%list.
Proof.
  unfold insert_at. rewrite <- (firstn_skipn pos l) at 3.
  rewrite <- app_assoc. apply Permutation_app_head.
  change (v :: skipn pos l) with ([v] ++ skipn pos l)%list.
  apply Permutation_app_comm.
Qed.

Lemma insert_at_end (pos : nat) (v : Layer) (l : list Layer) :
  (length l <= pos)%nat -> insert_at pos v l = (l ++ [v])%list.
Proof.
  intros Hlen. unfold insert_at.
  now rewrite firstn_all2, skipn_all2 by exact Hlen.
Qed.

Lemma equal_range_insert (pos : nat) (k k' : string) (v : Layer)
    (m : multimap Layer) :
  equal_range (multimap_insert pos k v m) k'
  = if String.eqb k k' then insert_at pos v (equal_range m k)
    else equal_range m k'.
Proof.
  unfold multimap_insert. unfold equal_range at 1.
  destruct (String.eqb_spec k k') as [<- | Hne].
  - now rewrite lookup_insert_eq.
  - now rewrite lookup_insert_ne.
Qed.

Lemma filter_snoc (p : Layer -> bool) (l : list Layer) (x : Layer) :
  List.filter p (l ++ [x])%list
  = (List.filter p l ++ if p x then [x] else [])%list.
Proof. now rewrite List.filter_app. Qed.

Lemma last_filter_snoc (p : Layer -> bool) (l : list Layer) (x : Layer) :
  last (List.filter p (l ++ [x])%list)
  = if p x then Some x else last (List.filter p l).
Proof.
  rewrite filter_snoc. destruct (p x).
  - apply last_snoc.
  - now rewrite app_nil_r.
Qed.

Lemma indices_agree_new (base : Z) :
  indices_agree (@MapboxVectorStyleSetImpl_new MapboxVectorFilter base).
Proof. repeat split. intros layerName. apply Permutation_refl. Qed.

Lemma indices_agree_index_layer (st : StyleSet) (l : Layer) :
  indices_agree st -> indices_agree (index_layer insert_position st l).
Proof.
  intros (Hsrc & Hname & Huuid). unfold indices_agree, index_layer.
  cbn [layersBySource layersByName layersByUUID layers].
  split; [|split].
  - intros layerName. rewrite filter_snoc. unfold indexed_under at 2.
    destruct (str_empty (sourceLayer l)) eqn:He; cbn [negb andb].
    + rewrite app_nil_r. apply Hsrc.
    + rewrite equal_range_insert.
      destruct (String.eqb_spec (sourceLayer l) layerName) as [<- | Hne].
      * eapply Permutation_trans; [apply insert_at_Permutation|].
        apply Permutation_app_tail, Hsrc.
      * rewrite app_nil_r. apply Hsrc.
  - intros inName. rewrite last_filter_snoc.
    destruct (String.eqb_spec (ident l) inName) as [<- | Hne].
    + now rewrite lookup_insert_eq.
    + now rewrite lookup_insert_ne.
  - intros id. rewrite last_filter_snoc.
    destruct (Z.eqb_spec (uuid l) id) as [<- | Hne].
    + now rewrite lookup_insert_eq.
    + now rewrite lookup_insert_ne.
Qed.

Lemma source_index_in_order_index_layer (st : StyleSet) (l : Layer) :
  inserts_at_end insert_position ->
  source_index_in_order st ->
  source_index_in_order (index_layer insert_position st l).
Proof.
  intros Hend Hsrc layerName. unfold index_layer.
  cbn [layersBySource layers].
  rewrite filter_snoc. unfold indexed_under at 2.
  destruct (str_empty (sourceLayer l)) eqn:He; cbn [negb andb].
  - rewrite app_nil_r. apply Hsrc.
  - rewrite equal_range_insert.
    destruct (String.eqb_spec (sourceLayer l) layerName) as [<- | Hne].
    + rewrite insert_at_end by apply Hend. now rewrite Hsrc.
    + rewrite app_nil_r. apply Hsrc.
Qed.

(** The loop keeps the indices in agreement with the list, and adds to the
    list the layers the document declares, in their order. *)
Lemma parse_layers_spec (layerStyles : list DictionaryEntry) :
  forall (which : Z) (st : StyleSet),
  indices_agree st ->
  let st' :=
    snd (parse_layers VectorStyleLayer insert_position layerStyles which st) in
  indices_agree st'
  /\ layers st'
     = (layers st
        ++ declared_layers VectorStyleLayer insert_position layerStyles
             which st)%list.
Proof.
  induction layerStyles as [|e rest IH]; intros which st Hst.
  - cbn. now rewrite app_nil_r.
  - cbn [parse_layers declared_layers].
    replace (1 * which) with which by lia.
    destruct (getType e); cbn [DictionaryType_eqb];
      try exact (IH _ _ Hst).
    destruct (VectorStyleLayer st (getDict e) (which + baseDrawPriority st))
      as [[ex|[l|]] id].
    + cbn. split; [exact Hst | now rewrite app_nil_r].
    + destruct (IH (which + 1)
                  (index_layer insert_position (set_currentID st id) l))
        as (Hagree & Hlayers).
      { apply indices_agree_index_layer. exact Hst. }
      split; [exact Hagree|]. cbv zeta. rewrite Hlayers.
      cbn [index_layer set_currentID layers]. now rewrite <- app_assoc.
    + exact (IH which (set_currentID st id) Hst).
Qed.

Lemma parse_layers_in_order (layerStyles : list DictionaryEntry) :
  inserts_at_end insert_position ->
  forall (which : Z) (st : StyleSet),
  source_index_in_order st ->
  source_index_in_order
    (snd (parse_layers VectorStyleLayer insert_position layerStyles which st)).
Proof.
  intros Hend.
  induction layerStyles as [|e rest IH]; intros which st Hst; [exact Hst|].
  cbn [parse_layers].
  destruct (DictionaryType_eqb (getType e) DictTypeDictionary);
    [|exact (IH _ _ Hst)].
  destruct (VectorStyleLayer st (getDict e) (1 * which + baseDrawPriority st))
    as [[ex|[l|]] id].
  - exact Hst.
  - apply IH. apply source_index_in_order_index_layer; [exact Hend|].
    exact Hst.
  - exact (IH which (set_currentID st id) Hst).
Qed.


Lemma stylesForFeature_fold (p : Layer -> bool) (range : list Layer) :
  forall styles,
  fold_left (fun styles layer => if p layer then (styles ++ [layer])%list
                                 else styles) range styles
  = (styles ++ List.filter p range)%list.
Proof.
  induction range as [|x range IH]; intros styles; cbn.
  - now rewrite app_nil_r.
  - rewrite IH. destruct (p x); [now rewrite <- app_assoc | reflexivity].
Qed.

Lemma filter_filter (p q : Layer -> bool) (l : list Layer) :
  List.filter p (List.filter q l) = List.filter (fun x => q x && p x) l.
Proof.
  induction l as [|x l IH]; [reflexivity|]. cbn.
  destruct (q x); cbn; [destruct (p x)|]; now rewrite IH.
Qed.

Lemma filter_Permutation (p : Layer -> bool) (l l' : list Layer) :
  Permutation l l' -> Permutation (List.filter p l) (List.filter p l').
Proof.
  induction 1 as [|x l l' _ IH|x y l|l l' l'' _ IH1 _ IH2]; cbn.
  - constructor.
  - destruct (p x); [now constructor | exact IH].
  - destruct (p x), (p y); try apply Permutation_refl. constructor.
  - eapply Permutation_trans; eassumption.
Qed.

Lemma filter_absent_or_true_spec (attrs : Dictionary)
    (tileID : QuadTreeIdentifier) (l : Layer) :
  layer_passes testFeature attrs tileID l
  = filter_absent_or_true_b testFeature attrs tileID l
  /\ (filter_absent_or_true_b testFeature attrs tileID l = true
      <-> filter_absent_or_true testFeature attrs tileID l).
Proof.
  unfold layer_passes, filter_absent_or_true_b, filter_absent_or_true.
  destruct (filter l) as [f|]; cbn.
  - rewrite andb_true_r. split; [reflexivity|]. split.
    + intros H. right. now exists f.
    + intros [H|(f' & H & Hf)]; [discriminate|]. now injection H as ->.
  - split; [reflexivity|]. split; [now left | reflexivity].
Qed.

Lemma indexed_under_spec (layerName : string) (l : Layer) :
  indexed_under layerName l = true
  <-> sourceLayer l = layerName /\ layerName <> EmptyString.
Proof.
  unfold indexed_under. rewrite andb_true_iff, String.eqb_eq.
  split.
  - intros [He <-]. split; [reflexivity|]. now destruct (sourceLayer l).
  - intros [<- Hne]. split; [|reflexivity]. now destruct (sourceLayer l).
Qed.

(** C3, as the code has it: after a document was parsed into a new style
    set, [stylesForFeature] answers the layers of the style set that are
    indexed under the source-layer name and whose filter is absent or
    holds of the attributes and the tile, each as often as the list of
    layers has it.  Their order is that of the range of the hash multimap:
    it is the order of the list, in which the document declares them, when
    the library puts a new element behind the elements of its key, which
    it need not do.  The answer depends on the style set through the
    source-layer index alone. *)
Theorem stylesForFeature_matching_layers (base : Z) (styleDict : Dictionary)
    (attrs : Dictionary) (tileID : QuadTreeIdentifier) (layerName : string) :
  let st :=
    snd (parse VectorStyleLayer insert_position
           (MapboxVectorStyleSetImpl_new base) styleDict) in
  let matching :=
    List.filter
      (fun l => indexed_under layerName l
                && filter_absent_or_true_b testFeature attrs tileID l)
      (layers st) in
  let answer := stylesForFeature testFeature st attrs tileID layerName in
  Permutation answer matching
  /\ (forall l,
        In l answer
        <-> In l (layers st)
            /\ sourceLayer l = layerName /\ layerName <> EmptyString
            /\ filter_absent_or_true testFeature attrs tileID l)
  /\ (inserts_at_end insert_position -> answer = matching)
  /\ (forall st' : StyleSet,
        layersBySource st' = layersBySource st ->
        stylesForFeature testFeature st' attrs tileID layerName = answer).
Proof.
  intros st matching answer.
  destruct (parse_layers_spec (getArrayField styleDict "layers") 0
              (parse_header (MapboxVectorStyleSetImpl_new base) styleDict)
              (indices_agree_new base)) as ((Hsrc & _ & _) & _).
  change (snd (parse_layers VectorStyleLayer insert_position
                 (getArrayField styleDict "layers") 0
                 (parse_header (MapboxVectorStyleSetImpl_new base) styleDict)))
    with st in Hsrc.
  assert (Hanswer : answer
                    = List.filter (layer_passes testFeature attrs tileID)
                        (equal_range (layersBySource st) layerName)).
  { unfold answer, stylesForFeature. now rewrite stylesForFeature_fold. }
  assert (Hmatching : matching
                      = List.filter (layer_passes testFeature attrs tileID)
                          (List.filter (indexed_under layerName) (layers st))).
  { unfold matching. rewrite filter_filter. apply List.filter_ext.
    intros l. now rewrite (proj1 (filter_absent_or_true_spec attrs tileID l)). }
  assert (Hperm : Permutation answer matching).
  { rewrite Hanswer, Hmatching. apply filter_Permutation, Hsrc. }
  split; [exact Hperm|]. split; [|split].
  - intros l. split.
    + intros Hin. apply (Permutation_in _ Hperm) in Hin.
      unfold matching in Hin. apply List.filter_In in Hin as [Hin Hl].
      apply andb_prop in Hl as [Hidx Hpass].
      apply indexed_under_spec in Hidx as [Hsl Hne].
      apply filter_absent_or_true_spec in Hpass. tauto.
    + intros (Hin & Hsl & Hne & Hpass).
      apply (Permutation_in _ (Permutation_sym Hperm)).
      unfold matching. apply List.filter_In. split; [exact Hin|].
      apply andb_true_intro. split.
      * now apply indexed_under_spec.
      * now apply filter_absent_or_true_spec.
  - intros Hend. rewrite Hanswer, Hmatching. f_equal.
    apply (parse_layers_in_order (getArrayField styleDict "layers") Hend 0
             (parse_header (MapboxVectorStyleSetImpl_new base) styleDict)).
    intros k. reflexivity.
  - intros st' Hsame. unfold answer, stylesForFeature. now rewrite Hsame.
Qed.



End StyleSetProperties.

(** The document of five entries: three layers are made, and a feature of
    "roads" gets the layers of "roads" whose filter it passes. *)
Example exampleStyleSet_layers :
  List.map ident (layers exampleStyleSet) = ["water"; "road-fill"; "road-line"]
  /\ List.map ident
       (stylesForFeature exampleTestFeature exampleStyleSet
          (dictOfMap (<["class" := entryString "primary"]> ∅))
          (mkQuadTreeIdentifier 0 0 0) "roads")
     = ["road-fill"; "road-line"]
  /\ List.map ident
       (stylesForFeature exampleTestFeature exampleStyleSet emptyDictionary
          (mkQuadTreeIdentifier 0 0 0) "roads")
     = ["road-line"].
Proof. repeat split; reflexivity. Qed.



(** Three layers of "roads" declared in the order a, b, c, in a table
    that puts a new element behind the first of its key: the answer is
    a, c, b. *)
Example threeRoads_order :
  let st :=
    snd (parse exampleFactory behind_first (MapboxVectorStyleSetImpl_new 0)
           threeRoadsDocument) in
  List.map ident (layers st) = ["a"; "b"; "c"]
  /\ List.map ident
       (stylesForFeature exampleTestFeature st emptyDictionary
          (mkQuadTreeIdentifier 0 0 0) "roads")
     = ["a"; "c"; "b"].
Proof. split; reflexivity. Qed.

(** In a table that puts a new element behind the elements of its key the
    answer is a, b, c. *)
Example threeRoads_at_end :
  @inserts_at_end string at_end
  /\ List.map ident
       (stylesForFeature exampleTestFeature
          (snd (parse exampleFactory at_end (MapboxVectorStyleSetImpl_new 0)
                  threeRoadsDocument))
          emptyDictionary (mkQuadTreeIdentifier 0 0 0) "roads")
     = ["a"; "b"; "c"].
Proof.
  split; [|reflexivity]. intros st l. unfold at_end. apply Nat.le_refl.
Qed.

(** The answer for the three layers is not the matching layers in the
    order of their declaration. *)
Lemma stylesForFeature_not_declaration_order :
  let st :=
    snd (parse exampleFactory behind_first (MapboxVectorStyleSetImpl_new 0)
           threeRoadsDocument) in
  stylesForFeature exampleTestFeature st emptyDictionary
    (mkQuadTreeIdentifier 0 0 0) "roads"
  <> List.filter
       (fun l => indexed_under "roads" l
                 && filter_absent_or_true_b exampleTestFeature
                      emptyDictionary (mkQuadTreeIdentifier 0 0 0) l)
       (layers st).
Proof.
  intros st H. apply (f_equal (List.map ident)) in H.
  vm_compute in H. discriminate H.
Qed.

(** A layer whose fill colour is "rgb(a,b,c)": the exception of
    [std::stoi] leaves the resolver, the factory and [parse]; the layer
    after it is never gone through. *)
Example parse_bad_colour :
  let result :=
    parse paintFactory behind_first (MapboxVectorStyleSetImpl_new 0)
      badColourDocument in
  fst result = inl (invalid_argument "stoi") /\ layers (snd result) = [].
Proof. split; vm_compute; reflexivity. Qed.


(** * Further properties *)

(** ** [trim], [MapboxRegexField::parse], [buildDesc] *)

Lemma string_snoc_cases (s : string) :
  s = EmptyString \/ exists t c, s = t +:+ String c EmptyString.
Proof.
  induction s as [|c s IH]; [now left|right].
  destruct IH as [-> | (t & d & ->)].
  - now exists EmptyString, c.
  - exists (String c t), d. now rewrite string_app_cons.
Qed.

(** A text that neither starts nor ends with whitespace is left as it
    is. *)
Lemma trim_fixed (t : string) :
  (forall c t', t = String c t' -> isspace c = false) ->
  (forall c t', t = t' +:+ String c EmptyString -> isspace c = false) ->
  trim t = t.
Proof.
  intros Hfirst Hlast. unfold trim.
  assert (Hr : trim_right t = t).
  { destruct (trim_right_spec t) as (post & Heq & Hpost & _).
    destruct (string_snoc_cases post) as [-> | (p & c & ->)].
    - now rewrite string_app_nil_r in Heq.
    - exfalso. rewrite string_forallb_app in Hpost.
      apply andb_prop in Hpost as [_ Hc]. cbn [string_forallb] in Hc.
      rewrite andb_true_r in Hc.
      rewrite <- string_app_assoc in Heq.
      rewrite (Hlast c _ Heq) in Hc. discriminate. }
  rewrite Hr. unfold trim_left.
  destruct t as [|c t']; [reflexivity|].
  cbn [first_nonspace]. now rewrite (Hfirst c t' eq_refl).
Qed.

(** X1: [trim] takes away exactly the whitespace before and after the
    text; trimming twice is trimming once, and a text of whitespace only is
    trimmed to the empty text. *)
Theorem trim_exact_and_idempotent (s : string) :
  is_trimmed_of s (trim s)
  /\ trim (trim s) = trim s
  /\ (string_forallb isspace s = true -> trim s = EmptyString).
Proof.
  pose proof (trim_is_trimmed s) as Ht. split; [exact Ht|].
  destruct Ht as (pre & post & Heq & Hpre & Hpost & Hfirst & Hlast).
  split; [now apply trim_fixed|].
  intros Hall. rewrite Heq, !string_forallb_app in Hall.
  apply andb_prop in Hall as [_ Hall]. apply andb_prop in Hall as [Hall _].
  destruct (trim s) as [|c t'] eqn:E; [reflexivity|].
  cbn [string_forallb] in Hall. apply andb_prop in Hall as [Hc _].
  rewrite (Hfirst c t' eq_refl) in Hc. discriminate.
Qed.

(** A text without braces is one token. *)
Lemma token_scan_brace_free (s tok : string) :
  brace_free s = true ->
  token_scan is_brace true s tok false false = [tok +:+ s].
Proof.
  revert tok. induction s as [|c s IH]; intros tok Hs.
  - now rewrite string_app_nil_r.
  - cbn [brace_free string_forallb] in Hs. apply andb_prop in Hs as [Hc Hs].
    apply negb_true_iff in Hc. cbn [token_scan]. rewrite Hc.
    rewrite (IH _ Hs). unfold push_back.
    now rewrite string_app_assoc, string_app_cons, string_app_nil_l.
Qed.

(** X2: a template without braces is a single literal chunk (no chunk at
    all when it is empty), and both [build] and [buildDesc] answer the
    trimmed template, whatever the attributes. *)
Theorem parse_plain_text (textField : string) (attrs : Dictionary) :
  brace_free textField = true ->
  let f := snd (MapboxRegexField_parse MapboxRegexField_new textField) in
  chunks f = (if str_empty textField then []
              else [mkMapboxTextChunk textField []])
  /\ valid f = true
  /\ build f attrs = trim textField
  /\ buildDesc f attrs = trim textField.
Proof.
  intros Hfree f.
  assert (Hchunks : chunks f = if str_empty textField then []
                               else [mkMapboxTextChunk textField []]).
  { unfold f, MapboxRegexField_parse, fieldSeparatorPattern_tokens,
      regex_tokens.
    cbn [snd chunks MapboxRegexField_new app].
    rewrite (token_scan_brace_free _ _ Hfree), string_app_nil_l.
    destruct textField as [|c t]; [reflexivity|].
    cbn [brace_free string_forallb] in Hfree.
    apply andb_prop in Hfree as [Hc _]. apply negb_true_iff in Hc.
    unfold is_brace in Hc. apply orb_false_elim in Hc as [Hc _].
    cbn [first_char str_empty parse_tokens String.length Nat.eqb].
    now rewrite Hc. }
  split; [exact Hchunks|]. split; [reflexivity|].
  unfold build, buildDesc. rewrite Hchunks.
  destruct textField as [|c t]; [now split|].
  cbn [str_empty fold_left build_chunk buildDesc_chunk str negb text
       didLookup found andb].
  now rewrite !string_app_nil_l.
Qed.

(** A street name between spaces. *)
Lemma parse_plain_text_witness :
  build (snd (MapboxRegexField_parse MapboxRegexField_new "  Main Street "))
    emptyDictionary = "Main Street"
  /\ buildDesc
       (snd (MapboxRegexField_parse MapboxRegexField_new "  Main Street "))
       emptyDictionary = "Main Street".
Proof.
  destruct (parse_plain_text "  Main Street " emptyDictionary eq_refl)
    as (_ & _ & Hb & Hd).
  split; [rewrite Hb | rewrite Hd]; reflexivity.
Defined.

(** Every token is free of separators when the text read so far is. *)
Lemma token_scan_brace_free_tokens (s : string) :
  forall tok inMatch matched,
  brace_free tok = true ->
  Forall (fun t => brace_free t = true)
    (token_scan is_brace true s tok inMatch matched).
Proof.
  induction s as [|c s IH]; intros tok inMatch matched Htok.
  - cbn [token_scan]. destruct (matched && str_empty tok); auto.
  - cbn [token_scan]. destruct (is_brace c) eqn:Hc.
    + destruct (true && inMatch).
      * now apply IH.
      * constructor; [exact Htok | now apply IH].
    + apply IH. unfold push_back, brace_free.
      rewrite string_forallb_app. cbn [string_forallb].
      now rewrite Hc, andb_true_r.
Qed.

Lemma string_set_length (i : nat) (c : ascii) (s : string) :
  String.length (string_set i c s) = String.length s.
Proof.
  revert i. induction s as [|d s IH]; intros i; [now destruct i|].
  destruct i; cbn; [reflexivity | now rewrite IH].
Qed.

Lemma parse_tokens_shape (toks : list string) :
  forall isJustText c,
  In c (parse_tokens toks isJustText) ->
  exists b tok, c = parse_chunk b tok /\ tok <> EmptyString /\ In tok toks.
Proof.
  induction toks as [|tok toks IH]; intros b c Hin; [destruct Hin|].
  cbn [parse_tokens] in Hin.
  destruct (String.length tok =? 0)%nat eqn:Hlen.
  - destruct (IH _ _ Hin) as (b' & t & ? & ? & ?).
    exists b', t. repeat split; try assumption. now right.
  - destruct Hin as [<-|Hin].
    + exists b, tok. repeat split; [|now left].
      intros ->. discriminate Hlen.
    + destruct (IH _ _ Hin) as (b' & t & ? & ? & ?).
      exists b', t. repeat split; try assumption. now right.
Qed.

(** X3: the chunks of a parsed template.  A chunk is a literal, with a
    text that is not empty and no key, or a key chunk, with no text and one
    key or two; the literal and the first key have no brace in them, and a
    second key is as long as the first. *)
Theorem parse_chunks_shape (textField : string) (c : MapboxTextChunk) :
  In c (chunks (snd (MapboxRegexField_parse MapboxRegexField_new textField))) ->
  (str c <> EmptyString /\ brace_free (str c) = true /\ keys c = [])
  \/ (str c = EmptyString
      /\ exists key,
           key <> EmptyString /\ brace_free key = true
           /\ (keys c = [key]
               \/ exists fallback,
                    keys c = [key; fallback]
                    /\ String.length fallback = String.length key)).
Proof.
  unfold MapboxRegexField_parse. cbn [snd chunks MapboxRegexField_new app].
  intros Hin.
  destruct (parse_tokens_shape _ _ _ Hin) as (b & tok & -> & Hne & Htok).
  assert (Hfree : brace_free tok = true).
  { pose proof (token_scan_brace_free_tokens textField EmptyString false
                  false eq_refl) as Hall.
    rewrite List.Forall_forall in Hall. now apply Hall. }
  unfold parse_chunk. destruct b.
  - left. split; [exact Hne | split; [exact Hfree | reflexivity]].
  - right. split; [now destruct (colonPattern_search tok)|].
    exists tok. split; [exact Hne | split; [exact Hfree|]].
    destruct (colonPattern_search tok) as [i|]; [right|now left].
    exists (string_set i "_" tok). split; [reflexivity|].
    apply string_set_length.
Qed.

(** The chunk of "{name:en}" in the template "{name:en} ({name})" is a
    key chunk of two keys. *)
Lemma parse_chunks_shape_witness :
  str nameEnChunk = EmptyString
  /\ exists key fallback,
       keys nameEnChunk = [key; fallback]
       /\ String.length fallback = String.length key.
Proof.
  destruct (parse_chunks_shape "{name:en} ({name})" nameEnChunk)
    as [(Hne & _) | (Hstr & key & _ & _ & [Hk | (fb & Hk & Hlen)])].
  - vm_compute. now left.
  - now destruct Hne.
  - discriminate Hk.
  - split; [exact Hstr|]. now exists key, fb.
Defined.

Lemma parse_tokens_kinds (toks : list string) :
  forall isJustText,
  List.map is_key_chunk (parse_tokens toks isJustText)
  = alternate (negb isJustText) (length (parse_tokens toks isJustText)).
Proof.
  induction toks as [|tok toks IH]; intros b; [reflexivity|].
  cbn [parse_tokens]. destruct (String.length tok =? 0)%nat eqn:Hlen.
  - apply IH.
  - cbn [List.map length alternate]. rewrite IH, negb_involutive. f_equal.
    unfold parse_chunk, is_key_chunk. destruct b.
    + destruct tok; [discriminate Hlen | reflexivity].
    + now destruct (colonPattern_search tok).
Qed.

(** X4: literal and key chunks alternate, and the first chunk is a key
    chunk exactly when the template starts with "{": after "}{" the next
    segment is read as a literal. *)
Theorem parse_chunks_alternate (textField : string) :
  let f := snd (MapboxRegexField_parse MapboxRegexField_new textField) in
  List.map is_key_chunk (chunks f)
  = alternate (Ascii.eqb (first_char textField) "{") (length (chunks f)).
Proof.
  cbv zeta. unfold MapboxRegexField_parse.
  cbn [snd chunks MapboxRegexField_new app].
  rewrite parse_tokens_kinds. now rewrite negb_involutive.
Qed.

(** X5: parsing a template by the name of its field always answers true.
    Without the field, with a field that is not a string (which is warned
    about) or with an empty string the template is left as it was, its
    [valid] flag too; with a string that is not empty the result is that of
    parsing the string. *)
Theorem parse_field_cases (f : MapboxRegexField) (fieldName : string)
    (d : Dictionary) :
  MapboxRegexField_parse_field f fieldName None = ret (true, f)
  /\ (getEntry d fieldName = None ->
      MapboxRegexField_parse_field f fieldName (Some d) = ret (true, f))
  /\ (forall e, getEntry d fieldName = Some e ->
      getType e <> DictTypeString ->
      MapboxRegexField_parse_field f fieldName (Some d)
      = ([(Warn, "Expected string for " +:+ fieldName
                 +:+ " but got something else")], inr (true, f)))
  /\ (forall e, getEntry d fieldName = Some e ->
      getType e = DictTypeString ->
      MapboxRegexField_parse_field f fieldName (Some d)
      = ret (if str_empty (getString e) then (true, f)
             else MapboxRegexField_parse f (getString e)))
  /\ (exists log f',
        MapboxRegexField_parse_field f fieldName (Some d)
        = (log, inr (true, f'))).
Proof.
  unfold MapboxRegexField_parse_field, stringValue.
  split; [reflexivity|]. split; [now intros ->|].
  split; [|split].
  - intros e -> Hty. destruct (getType e); try reflexivity. now destruct Hty.
  - intros e -> ->. cbn. now destruct (str_empty (getString e)).
  - destruct (getEntry d fieldName) as [e|]; [|now eexists _, _].
    destruct (DictionaryType_eqb (getType e) DictTypeString).
    + cbn. destruct (str_empty (getString e)); now eexists _, _.
    + now eexists _, _.
Qed.

(** ** [MaplyVectorFunctionStops] *)

Lemma bind_inr_inv {A B : Type} (m : M A) (k : A -> M B)
    (log : list (WKLogLevel * string)) (y : B) :
  bind m k = (log, inr y) ->
  exists l1 x l2, m = (l1, inr x) /\ k x = (l2, inr y) /\ log = (l1 ++ l2)%list.
Proof.
  destruct m as [l1 [e|x]]; cbn; [discriminate|].
  destruct (k x) as [l2 r0] eqn:Hk. intros [= <- ->].
  now exists l1, x, l2.
Qed.

Lemma parse_stop_value_zoom (isText : bool) (fStop s : MaplyVectorFunctionStop)
    (e1 : DictionaryEntry) (log : list (WKLogLevel * string)) :
  parse_stop_value isText fStop e1 = (log, inr (Some s)) ->
  zoom s = zoom fStop.
Proof.
  unfold parse_stop_value. destruct (isNumberType (getType e1)).
  - now intros [= _ <-].
  - destruct (getType e1); try discriminate.
    + destruct isText.
      * destruct (MapboxRegexField_parse _ _). now intros [= _ <-].
      * intros H. apply bind_inr_inv in H as (l1 & c & l2 & _ & H & _).
        now injection H as _ <-.
    + now intros [= _ <-].
Qed.

Lemma parse_stops_loop_success (isText : bool) (arr : list DictionaryEntry) :
  forall acc log res,
  parse_stops_loop isText arr acc = (log, inr (true, res)) ->
  exists new, res = (acc ++ new)%list /\ Forall2 stop_parsed_from arr new.
Proof.
  induction arr as [|e arr IH]; intros acc log res H.
  - cbn in H. injection H as _ <-. exists []. now rewrite app_nil_r.
  - cbn [parse_stops_loop] in H.
    destruct (DictionaryType_eqb (getType e) DictTypeArray) eqn:Hty;
      [|discriminate].
    destruct (getArray e) as [|e0 [|e1 [|e2 l]]] eqn:Harr; try discriminate.
    apply bind_inr_inv in H as (l1 & v & l2 & Hv & H & _).
    destruct v as [s|]; [|discriminate].
    destruct (IH _ _ _ H) as (new & -> & Hall).
    exists (s :: new). split; [now rewrite <- app_assoc|].
    constructor; [|exact Hall]. split.
    + now destruct (getType e).
    + exists e0, e1. split; [exact Harr|].
      now rewrite (parse_stop_value_zoom _ _ _ _ _ Hv).
Qed.

(** X6: a parse that succeeded.  The "stops" array had two entries or
    more, each an array of two; the stops are those there were followed by
    one stop for each entry, in order, with the entry's first component as
    zoom; and the base is the "base" of the entry, 1.0 when it has none
    (as [getDouble] with a default answers). *)
Theorem parse_success_invariant (this : MaplyVectorFunctionStops)
    (entry : Dictionary) (isText : bool) (log : list (WKLogLevel * string))
    (result : MaplyVectorFunctionStops) :
  MaplyVectorFunctionStops_parse this entry isText = (log, inr (true, result)) ->
  (2 <= length (getArrayField entry "stops"))%nat
  /\ base result = getDoubleField entry "base" 1%float
  /\ exists new,
       stops result = (stops this ++ new)%list
       /\ Forall2 stop_parsed_from (getArrayField entry "stops") new.
Proof.
  unfold MaplyVectorFunctionStops_parse.
  destruct (Nat.ltb_spec (length (getArrayField entry "stops")) 2) as [Hlt|Hge];
    [discriminate|].
  intros H. apply bind_inr_inv in H as (l1 & [ok res] & l2 & Hloop & H & _).
  cbn in H. injection H as _ -> <-.
  split; [exact Hge|]. split; [reflexivity|].
  exact (parse_stops_loop_success _ _ _ _ _ Hloop).
Qed.

(** The text stops [(0,"low"),(10,"high")]: two stops were made. *)
Lemma parse_success_invariant_witness :
  (2 <= length (getArrayField lowHighEntry "stops"))%nat
  /\ base lowHighStops = 1%float
  /\ exists new,
       stops lowHighStops = new
       /\ Forall2 stop_parsed_from (getArrayField lowHighEntry "stops") new.
Proof.
  exact (parse_success_invariant MaplyVectorFunctionStops_new lowHighEntry
           true [] lowHighStops eq_refl).
Defined.

Lemma parse_stops_loop_numeric (isText : bool) (arr : list DictionaryEntry) :
  forall acc,
  forallb numeric_stop_entry arr = true ->
  parse_stops_loop isText arr acc
  = ret (true, (acc ++ List.map stop_of_entry arr)%list).
Proof.
  induction arr as [|e arr IH]; intros acc Hall.
  - cbn. now rewrite app_nil_r.
  - cbn [forallb] in Hall. apply andb_prop in Hall as [He Hall].
    unfold numeric_stop_entry in He. apply andb_prop in He as [Hty He].
    cbn [parse_stops_loop List.map]. rewrite Hty. unfold stop_of_entry at 1.
    destruct (getArray e) as [|e0 [|e1 [|e2 l]]]; try discriminate.
    unfold parse_stop_value. rewrite He.
    rewrite (bind_ret _ _ _ eq_refl).
    rewrite (IH _ Hall), <- app_assoc. reflexivity.
Qed.

(** [parse] on an object that may hold stops already: the stops of the
    entries are appended to them. *)
Lemma MaplyVectorFunctionStops_parse_numeric (this : MaplyVectorFunctionStops)
    (entry : Dictionary) (isText : bool) :
  (2 <= length (getArrayField entry "stops"))%nat ->
  forallb numeric_stop_entry (getArrayField entry "stops") = true ->
  MaplyVectorFunctionStops_parse this entry isText
  = ret (true,
         mkMaplyVectorFunctionStops
           (stops this
            ++ List.map stop_of_entry (getArrayField entry "stops"))%list
           (getDoubleField entry "base" 1%float)).
Proof.
  intros Hlen Hall. unfold MaplyVectorFunctionStops_parse.
  destruct (Nat.ltb_spec (length (getArrayField entry "stops")) 2) as [Hlt|_];
    [lia|].
  now rewrite (bind_ret _ _ _ (parse_stops_loop_numeric isText _ _ Hall)).
Qed.

(** X7: an array of two or more entries [[zoom, number]] parses, without
    a warning, to exactly the stops of its entries in their order, whether
    text is expected or not. *)
Theorem parse_numeric_stops (entry : Dictionary) (isText : bool) :
  (2 <= length (getArrayField entry "stops"))%nat ->
  forallb numeric_stop_entry (getArrayField entry "stops") = true ->
  MaplyVectorFunctionStops_parse MaplyVectorFunctionStops_new entry isText
  = ret (true,
         mkMaplyVectorFunctionStops
           (List.map stop_of_entry (getArrayField entry "stops"))
           (getDoubleField entry "base" 1%float)).
Proof.
  intros Hlen Hall.
  exact (MaplyVectorFunctionStops_parse_numeric MaplyVectorFunctionStops_new
           entry isText Hlen Hall).
Qed.

(** [{"stops": [[0,0],[10,100]]}] parses to the stops [(0,0),(10,100)]
    with base 1.0. *)
Lemma parse_numeric_stops_witness :
  MaplyVectorFunctionStops_parse MaplyVectorFunctionStops_new linearStopsEntry
    false = ret (true, linearStops).
Proof.
  exact (parse_numeric_stops linearStopsEntry false
           (le_n 2) eq_refl).
Defined.

Section StopClamping.

Variable pow : float -> float -> float.
Variable asUnitFloats : RGBAColor -> float * float * float * float.
Variable FromUnitFloats : float * float * float * float -> RGBAColor.

(** X8: whatever the base (linear or exponential) and whatever [pow]
    answers, [valueForZoom] of two or more ascending stops is the first
    stop's value at or below the first zoom and the last stop's value at or
    beyond the last zoom. *)
Theorem valueForZoom_clamps (f : MaplyVectorFunctionStops)
    (s0 sn : MaplyVectorFunctionStop) (z : float) :
  ascending (stops f) ->
  (2 <= length (stops f))%nat ->
  head (stops f) = Some s0 ->
  last (stops f) = Some sn ->
  ((z <=? zoom s0)%float = true -> valueForZoom pow f z = Some (val s0))
  /\ ((zoom sn <=? z)%float = true -> valueForZoom pow f z = Some (val sn)).
Proof.
  intros Hasc Hlen Hhead Hlast. unfold valueForZoom.
  destruct (stops f) as [|x [|s1 rest]] eqn:Hstops;
    [discriminate | cbn in Hlen; lia |].
  cbn in Hhead. injection Hhead as ->.
  split; intros Hz; [now rewrite Hz|].
  pose proof (double_leb_refl_l _ _ Hz) as Hrefl.
  pose proof (ascending_first_below_last _ _ _ _ Hasc Hlast Hrefl) as Hlt.
  rewrite (double_ltb_leb_false _ _ (double_ltb_leb_trans _ _ _ Hlt Hz)).
  rewrite valueForZoom_loop_end.
  - rewrite last_cons_cons in Hlast. now rewrite Hlast.
  - intros s Hs. apply double_leb_ltb_false.
    apply (double_leb_trans _ (zoom sn)); [|exact Hz].
    apply (ascending_below_last (s0 :: s1 :: rest) sn Hasc Hlast Hrefl).
    now right.
Qed.

End StopClamping.

(** With base 2.0 the stops [(0,0),(10,100)] are 0 at -5 and 100 at 20. *)
Lemma valueForZoom_clamps_witness :
  valueForZoom (fun _ _ => nan) exponentialStops (-5) = Some 0%float
  /\ valueForZoom (fun _ _ => nan) exponentialStops 20 = Some 100%float.
Proof.
  destruct (valueForZoom_clamps (fun _ _ => nan) exponentialStops
              (numericStop 0 0) (numericStop 10 100) (-5)%float)
    as [Hlow _]; [split; [reflexivity|exact I] | cbn; lia
                 | reflexivity | reflexivity |].
  destruct (valueForZoom_clamps (fun _ _ => nan) exponentialStops
              (numericStop 0 0) (numericStop 10 100) 20%float)
    as [_ Hhigh]; [split; [reflexivity|exact I] | cbn; lia
                  | reflexivity | reflexivity |].
  split; [apply Hlow | apply Hhigh]; reflexivity.
Defined.

Section ColorClamping.

Variable pow : float -> float -> float.
Variable asUnitFloats : RGBAColor -> float * float * float * float.
Variable FromUnitFloats : float * float * float * float -> RGBAColor.

Lemma colorForZoom_loop_end (bs z : float)
    (rest : list MaplyVectorFunctionStop) :
  (forall s, In s rest -> (z <? zoom s)%float = false) ->
  forall a b,
  colorForZoom_loop pow asUnitFloats FromUnitFloats bs z a b rest =
  match last rest with
  | Some sn => Some (color sn)
  | None => match b with Some s => Some (color s) | None => Some None end
  end.
Proof.
  induction rest as [|s rest IH]; intros Hall a b; [reflexivity|].
  cbn [colorForZoom_loop].
  rewrite (Hall s (or_introl eq_refl)), andb_false_r.
  rewrite IH by (intros s' Hs'; apply Hall; now right).
  destruct rest as [|s' rest]; [reflexivity|].
  rewrite last_cons_cons.
  destruct (last (s' :: rest)) eqn:E; [reflexivity|].
  now apply last_None in E.
Qed.

(** X9: [colorForZoom] of two or more ascending stops answers the colour
    reference of the first stop at or below the first zoom and that of the
    last stop at or beyond the last zoom, as it is (null when the stop has
    no colour), without reading the channels. *)
Theorem colorForZoom_clamps (f : MaplyVectorFunctionStops)
    (s0 sn : MaplyVectorFunctionStop) (z : float) :
  ascending (stops f) ->
  (2 <= length (stops f))%nat ->
  head (stops f) = Some s0 ->
  last (stops f) = Some sn ->
  ((z <=? zoom s0)%float = true ->
   colorForZoom pow asUnitFloats FromUnitFloats f z = Some (color s0))
  /\ ((zoom sn <=? z)%float = true ->
      colorForZoom pow asUnitFloats FromUnitFloats f z = Some (color sn)).
Proof.
  intros Hasc Hlen Hhead Hlast. unfold colorForZoom.
  destruct (stops f) as [|x [|s1 rest]] eqn:Hstops;
    [discriminate | cbn in Hlen; lia |].
  cbn in Hhead. injection Hhead as ->.
  split; intros Hz; [now rewrite Hz|].
  pose proof (double_leb_refl_l _ _ Hz) as Hrefl.
  pose proof (ascending_first_below_last _ _ _ _ Hasc Hlast Hrefl) as Hlt.
  rewrite (double_ltb_leb_false _ _ (double_ltb_leb_trans _ _ _ Hlt Hz)).
  rewrite colorForZoom_loop_end.
  - rewrite last_cons_cons in Hlast. now rewrite Hlast.
  - intros s Hs. apply double_leb_ltb_false.
    apply (double_leb_trans _ (zoom sn)); [|exact Hz].
    apply (ascending_below_last (s0 :: s1 :: rest) sn Hasc Hlast Hrefl).
    now right.
Qed.

End ColorClamping.

(** Red at zoom 0 and blue at zoom 10: red below, blue beyond. *)
Lemma colorForZoom_clamps_witness :
  colorForZoom (fun _ _ => nan) (fun _ => (0, 0, 0, 0)%float)
    (fun _ => mkRGBAColor 0 0 0 0) colorStops (-1)
  = Some (Some (mkRGBAColor 255 0 0 255))
  /\ colorForZoom (fun _ _ => nan) (fun _ => (0, 0, 0, 0)%float)
       (fun _ => mkRGBAColor 0 0 0 0) colorStops 12
     = Some (Some (mkRGBAColor 0 0 255 255)).
Proof.
  destruct (colorForZoom_clamps (fun _ _ => nan) (fun _ => (0, 0, 0, 0)%float)
              (fun _ => mkRGBAColor 0 0 0 0) colorStops
              (colorStop 0 (mkRGBAColor 255 0 0 255))
              (colorStop 10 (mkRGBAColor 0 0 255 255)) (-1)%float)
    as [Hlow _]; [split; [reflexivity|exact I] | cbn; lia
                 | reflexivity | reflexivity |].
  destruct (colorForZoom_clamps (fun _ _ => nan) (fun _ => (0, 0, 0, 0)%float)
              (fun _ => mkRGBAColor 0 0 0 0) colorStops
              (colorStop 0 (mkRGBAColor 255 0 0 255))
              (colorStop 10 (mkRGBAColor 0 0 255 255)) 12%float)
    as [_ Hhigh]; [split; [reflexivity|exact I] | cbn; lia
                  | reflexivity | reflexivity |].
  split; [apply Hlow | apply Hhigh]; reflexivity.
Defined.

(** ** [minValue], [maxValue] *)

Lemma SFleb_total (x y : spec_float) :
  SFleb x x = true -> SFleb y y = true -> SFltb y x = false ->
  SFleb x y = true.
Proof. unfold SFleb, SFltb, SFcompare. sf_order. Qed.

Lemma SFltb_number (x y : spec_float) :
  SFltb x y = true -> SFleb x x = true /\ SFleb y y = true.
Proof. unfold SFleb, SFltb, SFcompare. split; revert H; sf_order. Qed.

Lemma double_leb_total (x y : float) :
  is_number x = true -> is_number y = true -> (y <? x)%float = false ->
  (x <=? y)%float = true.
Proof. unfold is_number. rewrite !leb_spec, ltb_spec. apply SFleb_total. Qed.

Lemma double_ltb_number (x y : float) :
  (x <? y)%float = true -> is_number x = true /\ is_number y = true.
Proof. unfold is_number. rewrite !leb_spec, ltb_spec. apply SFltb_number. Qed.

Lemma std_min_spec (acc x : float) :
  is_number acc = true ->
  is_number (std_min acc x) = true
  /\ (std_min acc x <=? acc)%float = true
  /\ (is_number x = true -> (std_min acc x <=? x)%float = true)
  /\ (std_min acc x = acc \/ std_min acc x = x).
Proof.
  intros Hacc. unfold std_min. destruct (x <? acc)%float eqn:Hlt.
  - destruct (double_ltb_number _ _ Hlt) as [Hx _].
    repeat split; [exact Hx | now apply double_ltb_leb | now intros _
                  | now right].
  - repeat split; [exact Hacc | exact Hacc | | now left].
    intros Hx. now apply double_leb_total.
Qed.

Lemma std_max_spec (acc x : float) :
  is_number acc = true ->
  is_number (std_max acc x) = true
  /\ (acc <=? std_max acc x)%float = true
  /\ (is_number x = true -> (x <=? std_max acc x)%float = true)
  /\ (std_max acc x = acc \/ std_max acc x = x).
Proof.
  intros Hacc. unfold std_max. destruct (acc <? x)%float eqn:Hlt.
  - destruct (double_ltb_number _ _ Hlt) as [_ Hx].
    repeat split; [exact Hx | now apply double_ltb_leb | now intros _
                  | now right].
  - repeat split; [exact Hacc | exact Hacc | | now left].
    intros Hx. now apply double_leb_total.
Qed.

Lemma fold_min_spec (l : list MaplyVectorFunctionStop) :
  forall acc, is_number acc = true ->
  let m := fold_left (fun v stop => std_min v (val stop)) l acc in
  is_number m = true
  /\ (m <=? acc)%float = true
  /\ (forall s, In s l -> is_number (val s) = true ->
        (m <=? val s)%float = true)
  /\ (m = acc \/ exists s, In s l /\ m = val s).
Proof.
  induction l as [|x l IH]; intros acc Hacc.
  - cbn. repeat split; [exact Hacc | exact Hacc | now intros s [] | now left].
  - cbn [fold_left]. destruct (std_min_spec acc (val x) Hacc)
      as (Hn & Hle & Hx & Hor).
    destruct (IH _ Hn) as (Hn' & Hle' & Hall & Hor'). cbv zeta.
    repeat split.
    + exact Hn'.
    + exact (double_leb_trans _ _ _ Hle' Hle).
    + intros s [<-|Hs] Hs'.
      * exact (double_leb_trans _ _ _ Hle' (Hx Hs')).
      * exact (Hall s Hs Hs').
    + destruct Hor' as [-> | (s & Hs & ->)].
      * destruct Hor as [-> | ->]; [now left|right].
        exists x. split; [now left | reflexivity].
      * right. exists s. split; [now right | reflexivity].
Qed.

Lemma fold_max_spec (l : list MaplyVectorFunctionStop) :
  forall acc, is_number acc = true ->
  let m := fold_left (fun v stop => std_max v (val stop)) l acc in
  is_number m = true
  /\ (acc <=? m)%float = true
  /\ (forall s, In s l -> is_number (val s) = true ->
        (val s <=? m)%float = true)
  /\ (m = acc \/ exists s, In s l /\ m = val s).
Proof.
  induction l as [|x l IH]; intros acc Hacc.
  - cbn. repeat split; [exact Hacc | exact Hacc | now intros s [] | now left].
  - cbn [fold_left]. destruct (std_max_spec acc (val x) Hacc)
      as (Hn & Hle & Hx & Hor).
    destruct (IH _ Hn) as (Hn' & Hle' & Hall & Hor'). cbv zeta.
    repeat split.
    + exact Hn'.
    + exact (double_leb_trans _ _ _ Hle Hle').
    + intros s [<-|Hs] Hs'.
      * exact (double_leb_trans _ _ _ (Hx Hs') Hle').
      * exact (Hall s Hs Hs').
    + destruct Hor' as [-> | (s & Hs & ->)].
      * destruct Hor as [-> | ->]; [now left|right].
        exists x. split; [now left | reflexivity].
      * right. exists s. split; [now right | reflexivity].
Qed.

(** X10: [minValue] is at or below the value of every stop and
    [maxValue] at or above it (a value that is NaN is passed over);
    [minValue] is never above [MAXFLOAT] and [maxValue] never below
    [-MAXFLOAT], and each is one of these bounds, as without a stop, or the
    value of a stop. *)
Theorem minValue_maxValue_bounds (f : MaplyVectorFunctionStops) :
  (forall s, In s (stops f) -> is_number (val s) = true ->
     (minValue f <=? val s)%float = true
     /\ (val s <=? maxValue f)%float = true)
  /\ (minValue f <=? MAXFLOAT)%float = true
  /\ (- MAXFLOAT <=? maxValue f)%float = true
  /\ (minValue f = MAXFLOAT \/ exists s, In s (stops f) /\ minValue f = val s)
  /\ (maxValue f = (- MAXFLOAT)%float
      \/ exists s, In s (stops f) /\ maxValue f = val s).
Proof.
  destruct (fold_min_spec (stops f) MAXFLOAT eq_refl) as (_ & Hmin & Hlow & Hmor).
  destruct (fold_max_spec (stops f) (- MAXFLOAT)%float eq_refl)
    as (_ & Hmax & Hhigh & Hxor).
  unfold minValue, maxValue. repeat split; try assumption.
  - now apply Hlow.
  - now apply Hhigh.
Qed.

(** ** [transDouble] with [MapboxTransDouble] *)

(** X11: a property that is absent resolves to the default, and one that
    is a number (a double or an int) to that number: a constant, the same
    at every zoom, equal to its own minimum and maximum, and no
    expression; nothing is logged. *)
Theorem transDouble_constant (pow : float -> float -> float) (name : string)
    (defVal : float) :
  (exists d,
     transDouble name None defVal = ret (Some d)
     /\ forall z, valForZoom pow d z = Some defVal)
  /\ (forall e, isNumberType (getType e) = true ->
      exists d,
        transDouble name (Some e) defVal = ret (Some d)
        /\ (forall z, valForZoom pow d z = Some (getDouble e))
        /\ minVal d = getDouble e /\ maxVal d = getDouble e
        /\ MapboxTransDouble.isExpression d = false).
Proof.
  split.
  - now exists (MapboxTransDouble.ofValue defVal).
  - intros e He. exists (MapboxTransDouble.ofValue (getDouble e)).
    unfold transDouble. rewrite He.
    unfold isNumberType in He. now destruct (getType e).
Qed.

(** X12: a property that is a nested object with an array of two or more
    entries [[zoom, number]] resolves, without a warning, to an expression
    that evaluates as the stop function of these stops with the object's
    base. *)
Theorem transDouble_numeric_stops (pow : float -> float -> float)
    (name : string) (e : DictionaryEntry) (defVal : float) :
  getType e = DictTypeDictionary ->
  (2 <= length (getArrayField (getDict e) "stops"))%nat ->
  forallb numeric_stop_entry (getArrayField (getDict e) "stops") = true ->
  let f :=
    mkMaplyVectorFunctionStops
      (List.map stop_of_entry (getArrayField (getDict e) "stops"))
      (getDoubleField (getDict e) "base" 1%float) in
  exists d,
    transDouble name (Some e) defVal = ret (Some d)
    /\ MapboxTransDouble.isExpression d = true
    /\ (forall z, valForZoom pow d z = valueForZoom pow f z)
    /\ minVal d = minValue f /\ maxVal d = maxValue f.
Proof.
  intros Hty Hlen Hall f. exists (MapboxTransDouble.ofStops (Some f)).
  unfold transDouble. rewrite Hty. cbn [DictionaryType_eqb].
  rewrite (bind_ret _ _ _
             (MaplyVectorFunctionStops_parse_numeric
                MaplyVectorFunctionStops_new (getDict e) false Hlen Hall)).
  now repeat split.
Qed.

(** The entry [{"stops": [[0,0],[10,100]]}] as a line width: 50 at zoom 5,
    between 0 and 100. *)
Lemma transDouble_numeric_stops_witness :
  exists d,
    transDouble "style" (Some (entryDict linearStopsEntry)) 1 = ret (Some d)
    /\ valForZoom (fun _ _ => nan) d 5 = Some 50%float
    /\ minVal d = 0%float /\ maxVal d = 100%float.
Proof.
  destruct (transDouble_numeric_stops (fun _ _ => nan) "style"
              (entryDict linearStopsEntry) 1 eq_refl (le_n 2) eq_refl)
    as (d & Hd & _ & Hval & Hmin & Hmax).
  exists d. split; [exact Hd|]. split; [|split].
  - rewrite Hval. reflexivity.
  - rewrite Hmin. reflexivity.
  - rewrite Hmax. reflexivity.
Defined.

(** ** More of [parseColor] *)

(** X13: outside the four functional forms "rgb(", "rgba(", "hsl(" and
    "hsla(" no exception leaves [parseColor]: it answers a colour and logs
    nothing, or it answers the default and logs one warning; and a text that
    does not start with "#" either is answered by the default. *)
Theorem parseColor_outside_functions (str inName : string)
    (defVal : RGBAColorRef) (multiplyAlpha : bool) :
  starts_with "rgb(" str = false -> starts_with "rgba(" str = false ->
  starts_with "hsl(" str = false -> starts_with "hsla(" str = false ->
  ((exists c, parseColor str inName defVal multiplyAlpha = ([], inr (Some c)))
   \/ (exists msg, parseColor str inName defVal multiplyAlpha
                   = ([(Warn, msg)], inr defVal)))
  /\ (Ascii.eqb (first_char str) "#" = false ->
      exists msg, parseColor str inName defVal multiplyAlpha
                  = ([(Warn, msg)], inr defVal)).
Proof.
  intros H1 H2 H3 H4. unfold parseColor. rewrite H1, H2, H3, H4.
  destruct (str_empty str).
  - split; [right|intros _]; now eexists.
  - destruct (Ascii.eqb (first_char str) "#"); [|split; [right|intros _];
                                                  now eexists].
    split; [|discriminate].
    destruct (strtoul16 (string_drop 1 str)) as [ulVal consumed].
    destruct (negb (S consumed =? String.length str)%nat);
      [right; now eexists|].
    destruct (String.length str =? 4)%nat;
      [left; destruct multiplyAlpha; now eexists|].
    destruct (String.length str =? 5)%nat;
      [left; destruct multiplyAlpha; now eexists|].
    destruct (String.length str =? 7)%nat;
      [left; destruct multiplyAlpha; now eexists|].
    destruct (String.length str =? 9)%nat;
      [left; destruct multiplyAlpha; now eexists|].
    right. now eexists.
Qed.

(** "red" is not a colour of the parser. *)
Lemma parseColor_outside_functions_witness :
  exists msg, parseColor "red" "fill-color" None false
              = ([(Warn, msg)], inr None).
Proof.
  destruct (parseColor_outside_functions "red" "fill-color" None false
              eq_refl eq_refl eq_refl eq_refl) as [_ H].
  exact (H eq_refl).
Defined.

(** X14: a text that starts with "#" is a colour only when it has 4, 5, 7
    or 9 characters: with any other length the default is answered and one
    warning is logged, whatever follows the "#". *)
Theorem parseColor_hex_length (str inName : string) (defVal : RGBAColorRef)
    (multiplyAlpha : bool) :
  Ascii.eqb (first_char str) "#" = true ->
  String.length str <> 4%nat -> String.length str <> 5%nat ->
  String.length str <> 7%nat -> String.length str <> 9%nat ->
  exists msg, parseColor str inName defVal multiplyAlpha
              = ([(Warn, msg)], inr defVal).
Proof.
  intros Hhash N4 N5 N7 N9. unfold parseColor. rewrite Hhash.
  destruct str as [|c s]; [discriminate Hhash|]. cbn [str_empty].
  destruct (strtoul16 (string_drop 1 (String c s))) as [ulVal consumed].
  destruct (negb (S consumed =? String.length (String c s))%nat);
    [now eexists|].
  apply Nat.eqb_neq in N4, N5, N7, N9. rewrite N4, N5, N7, N9.
  now eexists.
Qed.

(** "#12" and "#123456789" have the wrong length. *)
Lemma parseColor_hex_length_witness :
  (exists msg, parseColor "#12" "fill-color" None false
               = ([(Warn, msg)], inr None))
  /\ (exists msg, parseColor "#123456789" "fill-color" None false
                  = ([(Warn, msg)], inr None)).
Proof.
  split.
  - apply parseColor_hex_length; [reflexivity | cbn; lia ..].
  - apply parseColor_hex_length; [reflexivity | cbn; lia ..].
Defined.

(** The tokens of "c1,...,cn)" are the components. *)
Lemma components_tokens (cs : list string) :
  cs <> [] -> forallb is_component cs = true ->
  forall inMatch matched,
  token_scan is_color_separator false (components_text cs) EmptyString
    inMatch matched = cs.
Proof.
  induction cs as [|c cs IH]; intros Hne Hall inMatch matched;
    [now destruct Hne|].
  cbn [forallb] in Hall. apply andb_prop in Hall as [Hc Hall].
  destruct cs as [|c' cs].
  - cbn [components_text].
    rewrite (token_scan_component c EmptyString EmptyString ")" _ _ Hc eq_refl).
    now rewrite string_app_nil_l.
  - change (components_text (c :: c' :: cs))
      with (c +:+ String "," (components_text (c' :: cs))).
    rewrite (token_scan_component c _ EmptyString "," _ _ Hc eq_refl).
    rewrite string_app_nil_l. f_equal. now apply IH.
Qed.

Lemma rgb_prefix_facts (s : string) :
  str_empty ("rgb(" +:+ s) = false
  /\ Ascii.eqb (first_char ("rgb(" +:+ s)) "#" = false
  /\ starts_with "rgb(" ("rgb(" +:+ s) = true
  /\ string_drop 4 ("rgb(" +:+ s) = s.
Proof.
  repeat split. unfold starts_with. cbv -[String.append]. now destruct s.
Qed.

(** X15: "rgb(r,g,b)" of three numerals is the colour of these numbers,
    each held in 8 bits, opaque, with or without alpha multiplication. *)
Theorem parseColor_rgb (tr tg tb inName : string) (defVal : RGBAColorRef)
    (multiplyAlpha : bool) (red green blue : Z) :
  forallb is_component [tr; tg; tb] = true ->
  stoi tr = ret red -> stoi tg = ret green -> stoi tb = ret blue ->
  parseColor ("rgb(" +:+ components_text [tr; tg; tb]) inName defVal
    multiplyAlpha
  = ret (Some (mkRGBAColor (uint8 red) (uint8 green) (uint8 blue) 255)).
Proof.
  intros Hall Sr Sg Sb. unfold parseColor.
  destruct (rgb_prefix_facts (components_text [tr; tg; tb]))
    as (E1 & E2 & E3 & E4).
  rewrite E1, E2, E3, E4.
  unfold colorSeparatorPattern_tokens, regex_tokens.
  rewrite components_tokens by easy.
  cbn [length Nat.eqb negb nth_tok nth].
  now rewrite (bind_ret red _ _ Sr), (bind_ret green _ _ Sg),
    (bind_ret blue _ _ Sb).
Qed.

(** "rgb(1,2,3)", and a component beyond 255 is wrapped. *)
Lemma parseColor_rgb_witness :
  parseColor "rgb(1,2,3)" "fill-color" None true
  = ret (Some (mkRGBAColor 1 2 3 255))
  /\ parseColor "rgb(256,2,3)" "fill-color" None false
     = ret (Some (mkRGBAColor 0 2 3 255)).
Proof.
  split.
  - exact (parseColor_rgb "1" "2" "3" "fill-color" None true 1 2 3
             eq_refl eq_refl eq_refl eq_refl).
  - exact (parseColor_rgb "256" "2" "3" "fill-color" None false 256 2 3
             eq_refl eq_refl eq_refl eq_refl).
Defined.

(** X16: "rgb(" followed by a number of components that is not three is
    answered by the default with one warning, whatever the components are:
    they are not converted, so that nothing is thrown. *)
Theorem parseColor_rgb_component_count (cs : list string) (inName : string)
    (defVal : RGBAColorRef) (multiplyAlpha : bool) :
  cs <> [] -> forallb is_component cs = true -> length cs <> 3%nat ->
  parseColor ("rgb(" +:+ components_text cs) inName defVal multiplyAlpha
  = ([(Warn, quote_in_color "Unrecognized format"
                ("rgb(" +:+ components_text cs) inName)], inr defVal).
Proof.
  intros Hne Hall Hlen. unfold parseColor.
  destruct (rgb_prefix_facts (components_text cs)) as (E1 & E2 & E3 & E4).
  rewrite E1, E2, E3, E4.
  unfold colorSeparatorPattern_tokens, regex_tokens.
  rewrite components_tokens by easy.
  apply Nat.eqb_neq in Hlen. now rewrite Hlen.
Qed.

(** Two components, and four that are no numbers. *)
Lemma parseColor_rgb_component_count_witness :
  outcome (parseColor "rgb(1,2)" "fill-color" None false) = inr None
  /\ outcome (parseColor "rgb(a,b,c,d)" "fill-color" None false) = inr None.
Proof.
  split.
  - exact (f_equal snd
             (parseColor_rgb_component_count ["1"; "2"] "fill-color" None
                false ltac:(discriminate) eq_refl ltac:(discriminate))).
  - exact (f_equal snd
             (parseColor_rgb_component_count ["a"; "b"; "c"; "d"]
                "fill-color" None false ltac:(discriminate) eq_refl
                ltac:(discriminate))).
Defined.

(** ** Colours as property values *)

Section ColorValues.

Variable pow : float -> float -> float.
Variable asUnitFloats : RGBAColor -> float * float * float * float.
Variable FromUnitFloats : float * float * float * float -> RGBAColor.

(** X17: a colour property written "#RGB" resolves to a constant, not an
    expression, which at every zoom is the colour with each digit twice and
    alpha 255; nothing is logged. *)
Theorem transColor_hex3 (valName : string) (d : Dictionary)
    (e : DictionaryEntry) (defVal : option RGBAColor) (c1 c2 c3 : ascii)
    (v1 v2 v3 : Z) :
  getEntry d valName = Some e -> getType e = DictTypeString ->
  getString e = hex3 c1 c2 c3 ->
  hex_digit c1 = Some v1 -> hex_digit c2 = Some v2 ->
  hex_digit c3 = Some v3 ->
  exists tc,
    transColor valName (Some d) defVal = ret (Some tc)
    /\ MapboxTransColor.isExpression tc = false
    /\ forall z,
         MapboxTransColor_colorForZoom pow asUnitFloats FromUnitFloats tc z
         = Some (mkRGBAColor (17 * v1) (17 * v2) (17 * v3) 255).
Proof.
  intros He Hty Hstr H1 H2 H3.
  destruct (hex_digit_facts _ _ H1) as (B1 & _).
  destruct (hex_digit_facts _ _ H2) as (B2 & _).
  destruct (hex_digit_facts _ _ H3) as (B3 & _).
  exists (MapboxTransColor.ofColor
            (Some (mkRGBAColor (17 * v1) (17 * v2) (17 * v3) 255))).
  split; [|now split].
  unfold transColor, colorValue. rewrite He, Hty. cbn [DictionaryType_eqb negb].
  rewrite Hstr.
  rewrite (bind_ret (Some (mkRGBAColor (17 * v1) (17 * v2) (17 * v3) 255)));
    [reflexivity|].
  rewrite (parseColor_hex3 c1 c2 c3 v1 v2 v3) by assumption.
  unfold hex_color, RGBAColor_ints, uint8.
  now rewrite !Z.mod_small by lia.
Qed.

End ColorValues.

(** "fill-color": "#abc". *)
Lemma transColor_hex3_witness :
  exists tc,
    transColor "fill-color" (Some abcPaint) None = ret (Some tc)
    /\ MapboxTransColor_colorForZoom (fun _ _ => nan)
         (fun _ => (0, 0, 0, 0)%float) (fun _ => mkRGBAColor 0 0 0 0) tc 7
       = Some (mkRGBAColor 170 187 204 255).
Proof.
  destruct (transColor_hex3 (fun _ _ => nan) (fun _ => (0, 0, 0, 0)%float)
              (fun _ => mkRGBAColor 0 0 0 0) "fill-color" abcPaint
              (entryString "#abc") None "a" "b" "c" 10 11 12
              eq_refl eq_refl eq_refl eq_refl eq_refl eq_refl)
    as (tc & Htc & _ & Hz).
  exists tc. split; [exact Htc | exact (Hz 7%float)].
Defined.

Section ResolveColor.

Variable pow : float -> float -> float.
Variable asUnitFloats : RGBAColor -> float * float * float * float.
Variable FromUnitFloats : float * float * float * float -> RGBAColor.

Abbreviation colorAt := (MapboxTransColor_colorForZoom pow asUnitFloats
                       FromUnitFloats).
Abbreviation resolve := (resolveColor pow asUnitFloats FromUnitFloats).

(** X18: [resolveColor] without a colour answers no colour; without an
    opacity, or for a colour with an alpha override, it answers the colour
    at the zoom as it is, whatever the opacity and the mode are; and a
    constant colour with an alpha override [alpha] for which the integer
    part [t] of [alpha * 255.0] is a [uint8_t] (the conversion is undefined
    otherwise) resolves to its own red, green and blue with the alpha
    channel [t]. *)
Theorem resolveColor_opacity_ignored (z : float)
    (resolveMode : MBResolveColorType) :
  (forall opacity, resolve None opacity z resolveMode = Some None)
  /\ (forall c, resolve (Some c) None z resolveMode
                = option_map Some (colorAt c z))
  /\ (forall c opacity, hasAlphaOverride c = true ->
        resolve (Some c) opacity z resolveMode
        = option_map Some (colorAt c z))
  /\ (forall c0 alpha opacity t,
        integer_part (alpha * 255) = Some t -> 0 <= t <= 255 ->
        resolve
          (Some (setAlphaOverride (MapboxTransColor.ofColor (Some c0)) alpha))
          opacity z resolveMode
        = Some (Some (mkRGBAColor (r c0) (g c0) (b c0) t))).
Proof.
  split; [reflexivity|]. split; [|split].
  - intros c. unfold resolveColor. now destruct (colorAt c z).
  - intros c opacity Hov. unfold resolveColor.
    destruct (colorAt c z); [|reflexivity].
    destruct opacity; [now rewrite Hov | reflexivity].
  - intros c0 alpha opacity t Ht Hrange.
    unfold resolveColor, MapboxTransColor_colorForZoom.
    cbn [setAlphaOverride MapboxTransColor.ofColor MapboxTransColor.stops
         MapboxTransColor.color MapboxTransColor.useAlphaOverride
         MapboxTransColor.alpha hasAlphaOverride].
    unfold conversion_defined. rewrite Ht.
    destruct (Z.leb_spec 0 t) as [_|H0]; [|lia].
    destruct (Z.leb_spec t 255) as [_|H1]; [|lia]. cbn [andb].
    rewrite (double_to_int_defined _ t Ht) by (unfold INT_MIN, INT_MAX; lia).
    unfold uint8. rewrite Z.mod_small by lia.
    now destruct opacity.
Qed.

End ResolveColor.

(** ** [color] *)

Lemma channel_opacity_one_zero (v : Z) :
  0 <= v < 256 ->
  uint8 (double_to_int (int_to_double v * 1)) = v
  /\ uint8 (double_to_int (int_to_double v * 0)) = 0.
Proof.
  intros Hv.
  assert (Hall : forallb
                   (fun n =>
                      let v := Z.of_nat n in
                      (uint8 (double_to_int (int_to_double v * 1)) =? v)
                      && (uint8 (double_to_int (int_to_double v * 0)) =? 0))
                   (seq 0 256) = true) by (vm_compute; reflexivity).
  rewrite forallb_forall in Hall.
  specialize (Hall (Z.to_nat v)). cbv zeta in Hall.
  rewrite Z2Nat.id in Hall by lia.
  assert (Hin : In (Z.to_nat v) (seq 0 256)) by (apply in_seq; lia).
  apply Hall in Hin. apply andb_prop in Hin as [H1 H0].
  split; now apply Z.eqb_eq.
Qed.

(** X19: [color] with opacity 1.0 answers the colour itself, and with
    opacity 0.0 the colour of four zeros: the conversion to double, the
    product and the conversion back lose nothing on 8-bit channels. *)
Theorem color_opacity_one_and_zero (c : RGBAColor) :
  is_rgba8 c ->
  color_opacity c 1 = c /\ color_opacity c 0 = mkRGBAColor 0 0 0 0.
Proof.
  intros (Hr & Hg & Hb & Ha). unfold color_opacity.
  destruct (channel_opacity_one_zero _ Hr) as [-> ->].
  destruct (channel_opacity_one_zero _ Hg) as [-> ->].
  destruct (channel_opacity_one_zero _ Hb) as [-> ->].
  destruct (channel_opacity_one_zero _ Ha) as [-> ->].
  now destruct c.
Qed.

Lemma color_opacity_one_and_zero_witness :
  color_opacity (mkRGBAColor 18 52 86 120) 1 = mkRGBAColor 18 52 86 120
  /\ color_opacity (mkRGBAColor 18 52 86 120) 0 = mkRGBAColor 0 0 0 0.
Proof.
  apply color_opacity_one_and_zero. unfold is_rgba8. cbn. lia.
Defined.

(** ** [generateID] *)

Lemma NoDup_map_injective {A B : Type} (f : A -> B) (l : list A) :
  (forall x y, f x = f y -> x = y) -> List.NoDup l ->
  List.NoDup (List.map f l).
Proof.
  intros Hinj H. induction H as [|x l Hx H IH]; cbn; constructor;
    [|exact IH].
  rewrite in_map_iff. intros (y & Hy & Hin).
  apply Hinj in Hy. now subst.
Qed.

(** X20: [n] calls of [generateID] in a row hand out the identifiers
    [currentID], [currentID + 1], ..., all different, and leave the counter
    [n] higher and the layers and indices as they were. *)
Theorem generateIDs_fresh {MapboxVectorFilter : Type} (n : nat)
    (st : @MapboxVectorStyleSetImpl MapboxVectorFilter) :
  let ids := fst (generateIDs n st) in
  let st' := snd (generateIDs n st) in
  ids = List.map (fun i => currentID st + Z.of_nat i) (seq 0 n)
  /\ List.NoDup ids
  /\ currentID st' = currentID st + Z.of_nat n
  /\ layers st' = layers st
  /\ layersByName st' = layersByName st
  /\ layersByUUID st' = layersByUUID st
  /\ layersBySource st' = layersBySource st.
Proof.
  cbv zeta.
  assert (H : fst (generateIDs n st)
              = List.map (fun i => currentID st + Z.of_nat i) (seq 0 n)
              /\ currentID (snd (generateIDs n st)) = currentID st + Z.of_nat n
              /\ layers (snd (generateIDs n st)) = layers st
              /\ layersByName (snd (generateIDs n st)) = layersByName st
              /\ layersByUUID (snd (generateIDs n st)) = layersByUUID st
              /\ layersBySource (snd (generateIDs n st)) = layersBySource st).
  { revert st. induction n as [|n IH]; intros st.
    - cbn. repeat split. lia.
    - cbn [generateIDs generateID].
      destruct (generateIDs n (set_currentID st (currentID st + 1)))
        as [ids st2] eqn:E.
      specialize (IH (set_currentID st (currentID st + 1))).
      rewrite E in IH. cbn [fst snd set_currentID currentID layers
                            layersByName layersByUUID layersBySource] in IH.
      destruct IH as (Hids & Hid & Hl & Hn & Hu & Hs).
      cbn [fst snd]. repeat split; try assumption; [|lia].
      rewrite Hids. cbn [seq List.map]. f_equal; [lia|].
      rewrite <- seq_shift, List.map_map. apply List.map_ext.
      intros i. lia. }
  destruct H as (Hids & Hrest). split; [exact Hids|]. split; [|exact Hrest].
  rewrite Hids. apply NoDup_map_injective; [|apply List.seq_NoDup].
  intros i j Hij. lia.
Qed.

(** ** Lookups in the parsed style set *)

Section StyleSetLookups.

Context {MapboxVectorFilter : Type}.
Variable testFeature :
  MapboxVectorFilter -> Dictionary -> QuadTreeIdentifier -> bool.
Variable VectorStyleLayer :
  @MapboxVectorStyleSetImpl MapboxVectorFilter -> Dictionary -> Z ->
  (exception + option (@MapboxVectorStyleLayer MapboxVectorFilter)) * Z.
Variable insert_position :
  @MapboxVectorStyleSetImpl MapboxVectorFilter ->
  @MapboxVectorStyleLayer MapboxVectorFilter -> nat.

Abbreviation Layer' := (@MapboxVectorStyleLayer MapboxVectorFilter).
Abbreviation StyleSet' := (@MapboxVectorStyleSetImpl MapboxVectorFilter).

(** The style set a document is parsed into, and the layers it declares. *)
Let parsed (base : Z) (styleDict : Dictionary) : StyleSet' :=
  snd (parse VectorStyleLayer insert_position
         (MapboxVectorStyleSetImpl_new base) styleDict).
Let declared (base : Z) (styleDict : Dictionary) : list Layer' :=
  declared_layers VectorStyleLayer insert_position
    (getArrayField styleDict "layers") 0
    (parse_header (MapboxVectorStyleSetImpl_new base) styleDict).

Lemma parsed_indices (base : Z) (styleDict : Dictionary) :
  indices_agree (parsed base styleDict)
  /\ layers (parsed base styleDict) = declared base styleDict.
Proof.
  exact (parse_layers_spec VectorStyleLayer insert_position
           (getArrayField styleDict "layers") 0
           (parse_header (MapboxVectorStyleSetImpl_new base) styleDict)
           (indices_agree_new base)).
Qed.

Lemma filter_all_false {A : Type} (p : A -> bool) (l : list A) :
  (forall x, In x l -> p x = false) -> List.filter p l = [].
Proof.
  induction l as [|x l IH]; intros H; [reflexivity|]. cbn [List.filter].
  rewrite (H x (or_introl eq_refl)). apply IH. intros y Hy. apply H.
  now right.
Qed.

Lemma filter_unique {B : Type} (key : Layer' -> B) (eqb : B -> B -> bool)
    (l : list Layer') (x : Layer') :
  (forall u v, eqb u v = true <-> u = v) ->
  List.NoDup (List.map key l) -> In x l ->
  List.filter (fun y => eqb (key y) (key x)) l = [x].
Proof.
  intros Heqb. induction l as [|y l IH]; intros Hnd Hin; [destruct Hin|].
  cbn [List.map] in Hnd. apply NoDup_cons_iff in Hnd as [Hy Hnd].
  cbn [List.filter]. destruct Hin as [-> | Hin].
  - rewrite (proj2 (Heqb _ _) eq_refl). f_equal.
    apply filter_all_false. intros z Hz.
    destruct (eqb (key z) (key x)) eqn:E; [|reflexivity].
    apply Heqb in E. exfalso. apply Hy. rewrite <- E. now apply in_map.
  - destruct (eqb (key y) (key x)) eqn:E; [|now apply IH].
    apply Heqb in E. exfalso. apply Hy. rewrite E. now apply in_map.
Qed.

Lemma filter_none {B : Type} (key : Layer' -> B) (eqb : B -> B -> bool)
    (l : list Layer') (k : B) :
  (forall u v, eqb u v = true <-> u = v) ->
  (forall x, In x l -> key x <> k) ->
  List.filter (fun y => eqb (key y) k) l = [].
Proof.
  intros Heqb Hall. apply filter_all_false. intros z Hz.
  destruct (eqb (key z) k) eqn:E; [|reflexivity].
  apply Heqb in E. now destruct (Hall z Hz).
Qed.

(** X21: [getLayer] after a parse answers the last declared layer of the
    name (a later layer shadows an earlier one of the same name), no layer
    when no declared layer has the name, and, when the names are all
    different, the layer itself for the name of each declared layer. *)
Theorem getLayer_last_declared (base : Z) (styleDict : Dictionary)
    (inName : string) :
  getLayer (parsed base styleDict) inName
  = last (List.filter (fun l => String.eqb (ident l) inName)
            (declared base styleDict))
  /\ ((forall l, In l (declared base styleDict) -> ident l <> inName) ->
      getLayer (parsed base styleDict) inName = None)
  /\ (List.NoDup (List.map ident (declared base styleDict)) ->
      forall l, In l (declared base styleDict) ->
      getLayer (parsed base styleDict) (ident l) = Some l).
Proof.
  destruct (parsed_indices base styleDict) as ((_ & Hname & _) & Hlayers).
  unfold getLayer. split; [|split].
  - now rewrite Hname, Hlayers.
  - intros Hnone. rewrite Hname, Hlayers.
    now rewrite (filter_none ident String.eqb _ _ String.eqb_eq Hnone).
  - intros Hnd l Hin. rewrite Hname, Hlayers.
    now rewrite (filter_unique ident String.eqb _ _ String.eqb_eq Hnd Hin).
Qed.

(** X22: when the layers of a document have different identifiers, as
    the identifiers of [generateID] are, [styleForUUID] finds each declared
    layer by its identifier, and finds no layer for an identifier that no
    declared layer has. *)
Theorem styleForUUID_roundtrip (base : Z) (styleDict : Dictionary) :
  List.NoDup (List.map uuid (declared base styleDict)) ->
  (forall l, In l (declared base styleDict) ->
     styleForUUID (parsed base styleDict) (uuid l) = Some l)
  /\ (forall id, ~ In id (List.map uuid (declared base styleDict)) ->
        styleForUUID (parsed base styleDict) id = None).
Proof.
  intros Hnd.
  destruct (parsed_indices base styleDict) as ((_ & _ & Huuid) & Hlayers).
  unfold styleForUUID. split.
  - intros l Hin. rewrite Huuid, Hlayers.
    now rewrite (filter_unique uuid Z.eqb _ _ Z.eqb_eq Hnd Hin).
  - intros id Hid. rewrite Huuid, Hlayers.
    rewrite (filter_none uuid Z.eqb _ _ Z.eqb_eq); [reflexivity|].
    intros x Hx <-. apply Hid. now apply in_map.
Qed.

Lemma existsb_filter (p q : Layer' -> bool) (l : list Layer') :
  existsb p (List.filter q l) = existsb (fun x => q x && p x) l.
Proof.
  induction l as [|x l IH]; [reflexivity|]. cbn.
  destruct (q x); cbn; now rewrite IH.
Qed.

Lemma existsb_Permutation (p : Layer' -> bool) (l l' : list Layer') :
  Permutation l l' -> existsb p l = existsb p l'.
Proof.
  induction 1 as [|x l l' _ IH|x y l|l l' l'' _ IH1 _ IH2]; cbn.
  - reflexivity.
  - now rewrite IH.
  - now destruct (p x), (p y).
  - now rewrite IH1.
Qed.

(** X23: [layerShouldDisplay] after a parse holds exactly when a declared
    layer of the source layer is visible or has a representation; no
    filter is evaluated.  When it does not hold, every layer that
    [stylesForFeature] answers for the source layer, for any feature and
    tile, is invisible and has no representation. *)
Theorem layerShouldDisplay_declared (base : Z) (styleDict : Dictionary)
    (layerName : string) :
  layerShouldDisplay (parsed base styleDict) layerName
  = existsb (fun l => indexed_under layerName l && displayable l)
      (declared base styleDict)
  /\ (layerShouldDisplay (parsed base styleDict) layerName = false ->
      forall attrs tileID l,
      In l (stylesForFeature testFeature (parsed base styleDict) attrs tileID
              layerName) ->
      visible l = false /\ representation l = EmptyString).
Proof.
  destruct (parsed_indices base styleDict) as ((Hsrc & _ & _) & Hlayers).
  unfold layerShouldDisplay. split.
  - rewrite (existsb_Permutation _ _ _ (Hsrc layerName)), Hlayers.
    apply existsb_filter.
  - intros Hno attrs tileID l Hin.
    unfold stylesForFeature in Hin.
    rewrite stylesForFeature_fold in Hin. cbn [app] in Hin.
    apply List.filter_In in Hin as [Hin _].
    assert (Hl : visible l || negb (str_empty (representation l)) = false).
    { destruct (visible l || negb (str_empty (representation l))) eqn:E;
        [|reflexivity].
      rewrite <- Hno. symmetry. apply existsb_exists. now exists l. }
    apply orb_false_elim in Hl as [Hv Hr]. split; [exact Hv|].
    now destruct (representation l).
Qed.



End StyleSetLookups.

(** The three layers of the example document have the identifiers 0, 1
    and 2; identifier 1 is "road-fill", and nothing has identifier 7. *)
Lemma styleForUUID_roundtrip_witness :
  option_map ident (styleForUUID exampleStyleSet 1) = Some "road-fill"
  /\ styleForUUID exampleStyleSet 7 = None.
Proof.
  assert (Hnd : List.NoDup
                  (List.map uuid
                     (declared_layers exampleFactory behind_first
                        (getArrayField exampleDocument "layers") 0
                        (parse_header (MapboxVectorStyleSetImpl_new 100)
                           exampleDocument)))).
  { vm_compute. repeat constructor; cbn; intuition discriminate. }
  destruct (styleForUUID_roundtrip exampleFactory behind_first 100
              exampleDocument Hnd)
    as [Hfound Hmiss].
  split.
  - refine (f_equal (option_map ident)
              (Hfound (mkMapboxVectorStyleLayer "road-fill" 1 "roads"
                         (Some "class") true EmptyString 102) _)).
    vm_compute. tauto.
  - apply Hmiss. vm_compute. intuition discriminate.
Defined.


(** ** [enumValue], the [doubleValue] overloads, [transText] *)

Lemma enumValue_loop_found (name : string) (options : list string) :
  forall (i : nat) (which : Z),
  options !! i = Some (c_str name) ->
  (forall j, (j < i)%nat -> options !! j <> Some (c_str name)) ->
  enumValue_loop name options which = Some (which + Z.of_nat i).
Proof.
  induction options as [|o options IH]; intros i which Hi Hfirst;
    [discriminate|].
  cbn [enumValue_loop]. destruct i as [|i].
  - cbn in Hi. injection Hi as ->. rewrite String.eqb_refl. f_equal. lia.
  - destruct (String.eqb_spec o (c_str name)) as [->|_].
    + now destruct (Hfirst 0%nat ltac:(lia)).
    + rewrite (IH i (which + 1)); [f_equal; lia | exact Hi |].
      intros j Hj. apply (Hfirst (S j)). lia.
Qed.

Lemma enumValue_loop_missing (name : string) (options : list string) :
  ~ In (c_str name) options ->
  forall which, enumValue_loop name options which = None.
Proof.
  induction options as [|o options IH]; intros Hnot which; [reflexivity|].
  cbn [enumValue_loop].
  destruct (String.eqb_spec o (c_str name)) as [->|_].
  - destruct Hnot. now left.
  - apply IH. intros Hin. apply Hnot. now right.
Qed.

(** X25: [enumValue] compares the options with the entry's text up to
    its first NUL.  For a string entry it answers the index of the first
    option that is equal to it, without a warning, and the default with one
    warning when no option is; for no entry, or an entry that is no string,
    it answers the default without a warning. *)
Theorem enumValue_first_match (entry : DictionaryEntryRef)
    (options : list string) (defVal : Z) :
  (forall e (i : nat),
     entry = Some e -> getType e = DictTypeString ->
     options !! i = Some (c_str (getString e)) ->
     (forall j, (j < i)%nat -> options !! j <> Some (c_str (getString e))) ->
     enumValue entry options defVal = ret (Z.of_nat i))
  /\ (forall e,
        entry = Some e -> getType e = DictTypeString ->
        ~ In (c_str (getString e)) options ->
        exists w, enumValue entry options defVal = ([w], inr defVal))
  /\ ((forall e, entry = Some e -> getType e <> DictTypeString) ->
      enumValue entry options defVal = ret defVal).
Proof.
  split; [|split].
  - intros e i -> Hty Hi Hfirst. unfold enumValue. rewrite Hty.
    cbn [DictionaryType_eqb negb].
    now rewrite (enumValue_loop_found _ _ i 0 Hi Hfirst).
  - intros e -> Hty Hnot. unfold enumValue. rewrite Hty.
    cbn [DictionaryType_eqb negb].
    rewrite (enumValue_loop_missing _ _ Hnot). cbn. eauto.
  - intros Hno. destruct entry as [e|]; [|reflexivity].
    unfold enumValue. specialize (Hno e eq_refl).
    now destruct (getType e).
Qed.

(** X26: the two overloads of [doubleValue] differ on 64-bit integers.
    For an entry of a dictionary, the overload that takes the entry and the
    one that takes the name answer the same number, except for an entry of
    type [DictTypeInt64]: the first answers its number without a warning,
    the second the default, with a warning. *)
Theorem doubleValue_overloads (valName : string) (d : Dictionary)
    (thing : DictionaryEntry) (defVal : float) :
  getEntry d valName = Some thing ->
  (getType thing <> DictTypeInt64 ->
   snd (doubleValue valName (Some d) defVal)
   = snd (doubleValue_entry (Some thing) defVal))
  /\ (getType thing = DictTypeInt64 ->
      doubleValue_entry (Some thing) defVal = ret (getDouble thing)
      /\ exists w, doubleValue valName (Some d) defVal = ([w], inr defVal)).
Proof.
  intros He. unfold doubleValue, doubleValue_entry. rewrite He. split.
  - intros Hne. now destruct (getType thing).
  - intros ->. cbn. eauto.
Qed.

Lemma parse_stops_loop_text_returns (dataArray : list DictionaryEntry) :
  forall acc, exists log res,
    parse_stops_loop true dataArray acc = (log, inr res).
Proof.
  induction dataArray as [|e rest IH]; intros acc; cbn [parse_stops_loop].
  - now eexists _, _.
  - destruct (DictionaryType_eqb (getType e) DictTypeArray);
      [|now eexists _, _].
    destruct (getArray e) as [|e0 [|e1 [|e2 l]]]; try now eexists _, _.
    assert (Hv : exists log v,
              parse_stop_value true
                (mkMaplyVectorFunctionStop (getDouble e0)
                   (val MaplyVectorFunctionStop_new)
                   (color MaplyVectorFunctionStop_new)
                   (textField MaplyVectorFunctionStop_new)) e1
              = (log, inr v)).
    { unfold parse_stop_value.
      destruct (isNumberType (getType e1)); [now eexists _, _|].
      destruct (getType e1); now eexists _, _. }
    destruct Hv as (log & v & ->). cbn [bind].
    destruct v as [s|]; [|now eexists _, _].
    destruct (IH (acc ++ [s])%list) as (log' & res & ->). now eexists _, _.
Qed.

(** X27: [transText] never throws.  A string entry gives a constant
    template, the entry's text as [MapboxRegexField::parse] reads it, at
    every zoom, whatever the default text; an absent dictionary or an
    absent entry gives the default text, or null when that is empty. *)
Theorem transText_returns (inName : string) (entry : DictionaryRef)
    (defText : string) :
  (exists log r, transText inName entry defText = (log, inr r))
  /\ (forall d e,
        entry = Some d -> getEntry d inName = Some e ->
        getType e = DictTypeString ->
        exists t,
          transText inName entry defText = ret (Some t)
          /\ forall z,
               MapboxTransText_textForZoom t z
               = Some (snd (MapboxRegexField_parse MapboxRegexField_new
                              (getString e))))
  /\ ((forall d, entry = Some d -> getEntry d inName = None) ->
      transText inName entry defText
      = ret (if str_empty defText then None
             else Some (MapboxTransText.ofText defText))).
Proof.
  split; [|split].
  - unfold transText. destruct entry as [d|]; [|now eexists _, _].
    destruct (getEntry d inName) as [e|]; [|now eexists _, _].
    destruct (DictionaryType_eqb (getType e) DictTypeDictionary).
    + unfold MaplyVectorFunctionStops_parse.
      destruct (length _ <? 2)%nat; [cbn; now eexists _, _|].
      destruct (parse_stops_loop_text_returns
                  (getArrayField (getDict e) "stops")
                  (stops MaplyVectorFunctionStops_new))
        as (log & [ok res] & ->).
      cbn. destruct ok; cbn; now eexists _, _.
    + destruct (DictionaryType_eqb (getType e) DictTypeString);
        cbn; now eexists _, _.
  - intros d e -> He Hty. unfold transText. rewrite He, Hty.
    cbn [DictionaryType_eqb]. eexists. split; [reflexivity|].
    intros z. reflexivity.
  - intros Hno. unfold transText. destruct entry as [d|]; [|reflexivity].
    now rewrite (Hno d eq_refl).
Qed.

(** A line width held as the 64-bit integer 7 is 7.0 by its entry and the
    default 1.0 by its name. *)
Lemma doubleValue_overloads_witness :
  getEntry wideLinePaint "line-width" = Some (entryInt64 7)
  /\ doubleValue_entry (Some (entryInt64 7)) 1 = ret 7%float
  /\ snd (doubleValue "line-width" (Some wideLinePaint) 1) = inr 1%float.
Proof.
  assert (He : getEntry wideLinePaint "line-width" = Some (entryInt64 7))
    by reflexivity.
  split; [exact He|].
  destruct (proj2 (doubleValue_overloads "line-width" wideLinePaint
                     (entryInt64 7) 1 He) eq_refl) as (H & w & Hw).
  split; [exact H|]. now rewrite Hw.
Defined.
